(** * tk-core descriptor resolution: a shallow embedding of
      [python/tank/descriptor/io_descriptor/base.py]

    The development follows the source file top to bottom:
    - [Py]: the handful of Python 2 built-ins the module relies on
      (exceptions, [str] methods, [int()], [%d], [os.path.join]);
    - [Re]: the regular expressions used by the version matcher;
    - [Version]: [IODescriptorBase._find_latest_tag_by_pattern];
    - [Uri]: [dict_from_uri] / [uri_from_dict] with the pieces of
      [urlparse] and [cgi] they call;
    - [Descriptor]: cache paths, [get_path], [exists_local],
      [ensure_local] and [get_manifest] over an explicit file system;
    - [Copying]: [copy], on top of [Descriptor].

    Two further files are embedded after it:
    - [Perforce]: [python/tank/deploy/perforce_descriptor.py];
    - [Importer]: [python/tank_vendor/shotgun_deploy/import_handler.py].

    Each model is followed by a module of facts about it. *)

From Stdlib Require Import ZArith String Ascii Bool Lia DecimalString.
From stdpp Require Import base option list gmap strings.

Open Scope Z_scope.

(* ===================================================================== *)
(** * Python built-ins *)
(* ===================================================================== *)

Module Py.

(** Exceptions, one constructor per class the module can raise or let
    escape, each with its message; a [KeyError] holds the key that was
    looked up. *)
Inductive exn : Type :=
| TankDescriptorError (msg : string)
| ValueError (msg : string)
| AttributeError (msg : string)
| TypeError (msg : string)
| IndexError (msg : string)
| KeyError (key : string)
| IOError (msg : string)
| RuntimeError (msg : string)
| NotImplementedError.

(** A call either returns or raises. *)
Inductive result (A : Type) : Type :=
| Ok (a : A)
| Raise (e : exn).
Arguments Ok {A} a.
Arguments Raise {A} e.

Definition bind {A B} (r : result A) (k : A -> result B) : result B :=
  match r with
  | Ok a => k a
  | Raise e => Raise e
  end.

Definition is_ok {A} (r : result A) : bool :=
  match r with Ok _ => true | Raise _ => false end.

(** ** Characters *)

Definition ascii_eqb (a b : ascii) : bool := Ascii.eqb a b.

Definition isdigit (c : ascii) : bool :=
  let n := nat_of_ascii c in (48 <=? n)%nat && (n <=? 57)%nat.

(** C-locale [isspace]: space, \t, \n, \v, \f, \r. *)
Definition isspace (c : ascii) : bool :=
  let n := nat_of_ascii c in (n =? 32)%nat || ((9 <=? n)%nat && (n <=? 13)%nat).

Definition digit_val (c : ascii) : Z := Z.of_nat (nat_of_ascii c) - 48.

Definition newline : ascii := ascii_of_nat 10.

(** ** [str] methods *)

(** [s[1:]] *)
Definition str_tail (s : string) : string :=
  match s with
  | EmptyString => EmptyString
  | String _ s' => s'
  end.

(** [s.split(sep)] for a one-character separator. *)
Fixpoint str_split (sep : ascii) (s : string) : list string :=
  match s with
  | EmptyString => [EmptyString]
  | String c s' =>
      if ascii_eqb c sep then EmptyString :: str_split sep s'
      else match str_split sep s' with
           | [] => [String c EmptyString]
           | h :: t => String c h :: t
           end
  end.

(** [s.split(sep, 1)]: cut at the first separator only. *)
Fixpoint str_split1 (sep : ascii) (s : string) : list string :=
  match s with
  | EmptyString => [EmptyString]
  | String c s' =>
      if ascii_eqb c sep then [EmptyString; s']
      else match str_split1 sep s' with
           | h :: t => String c h :: t
           | [] => [String c EmptyString]
           end
  end.

(** [sep.join(l)] *)
Fixpoint str_join (sep : string) (l : list string) : string :=
  match l with
  | [] => EmptyString
  | [x] => x
  | x :: l' => x +:+ sep +:+ str_join sep l'
  end.

(** [c in s] for a character. *)
Fixpoint str_contains (c : ascii) (s : string) : bool :=
  match s with
  | EmptyString => false
  | String a s' => ascii_eqb a c || str_contains c s'
  end.

(** [s.find(c)], with [None] for Python's -1. *)
Fixpoint str_find (c : ascii) (s : string) : option nat :=
  match s with
  | EmptyString => None
  | String a s' => if ascii_eqb a c then Some O else S <$> str_find c s'
  end.

(** [s.replace(a, b)] for single characters. *)
Fixpoint str_replace (a b : ascii) (s : string) : string :=
  match s with
  | EmptyString => EmptyString
  | String c s' => String (if ascii_eqb c a then b else c) (str_replace a b s')
  end.

(** [s.lower()] *)
Definition ascii_lower (c : ascii) : ascii :=
  let n := nat_of_ascii c in
  if (65 <=? n)%nat && (n <=? 90)%nat then ascii_of_nat (n + 32) else c.

Fixpoint str_lower (s : string) : string :=
  match s with
  | EmptyString => EmptyString
  | String c s' => String (ascii_lower c) (str_lower s')
  end.

(** [s[:n]] and [s[n:]] *)
Fixpoint str_take (n : nat) (s : string) : string :=
  match n, s with
  | S n', String c s' => String c (str_take n' s')
  | _, _ => EmptyString
  end.

Fixpoint str_drop (n : nat) (s : string) : string :=
  match n, s with
  | S n', String _ s' => str_drop n' s'
  | _, _ => s
  end.

Fixpoint str_forall (p : ascii -> bool) (s : string) : bool :=
  match s with
  | EmptyString => true
  | String a s' => p a && str_forall p s'
  end.

(** [s.startswith(c)] and [s.endswith(c)] for a character. *)
Definition startswith (c : ascii) (s : string) : bool :=
  match s with
  | String a _ => ascii_eqb a c
  | EmptyString => false
  end.

Fixpoint endswith (c : ascii) (s : string) : bool :=
  match s with
  | EmptyString => false
  | String a EmptyString => ascii_eqb a c
  | String _ s' => endswith c s'
  end.

(** ** [int(str)] and ["%d" % int] *)

Fixpoint lstrip (s : string) : string :=
  match s with
  | String c s' => if isspace c then lstrip s' else s
  | EmptyString => EmptyString
  end.

(** Digits followed by optional trailing white space; [acc] is the value
    read so far, [seen] whether at least one digit was read. *)
Fixpoint int_digits (seen : bool) (acc : Z) (s : string) : option Z :=
  match s with
  | EmptyString => if seen then Some acc else None
  | String c s' =>
      if isdigit c then int_digits true (10 * acc + digit_val c) s'
      else if seen && isspace c && str_forall isspace s' then Some acc
      else None
  end.

(** [int(s)] on a byte string (Python 2.7): surrounding white space is
    skipped, one sign is allowed, then at least one decimal digit.
    [None] stands for the [ValueError]. *)
Definition py_int (s : string) : option Z :=
  match lstrip s with
  | String "+" s' => int_digits false 0 s'
  | String "-" s' => Z.opp <$> int_digits false 0 s'
  | s' => int_digits false 0 s'
  end.

(** ["%d" % n] *)
Definition fmt_d (n : Z) : string := NilZero.string_of_int (Z.to_int n).

(** ** [os.path.join] (posixpath) *)

Definition path_join2 (a b : string) : string :=
  if startswith "/" b then b
  else if (String.eqb a EmptyString || endswith "/" a)%bool then a +:+ b
  else a +:+ "/" +:+ b.

Definition path_join (a : string) (p : list string) : string :=
  fold_left path_join2 p a.

(** ** [repr(str)] and [str(exception)] *)

Definition backslash : ascii := ascii_of_nat 92.
Definition double_quote : ascii := ascii_of_nat 34.

(** One digit of [%02x] *)
Definition hex_digit (n : nat) : ascii :=
  ascii_of_nat (if (n <? 10)%nat then 48 + n else 87 + n).

(** What [repr] writes for one character between quotes [quote]. *)
Definition repr_char (quote c : ascii) : string :=
  let n := nat_of_ascii c in
  if ascii_eqb c quote || ascii_eqb c backslash then
    String backslash (String c EmptyString)
  else if (n =? 9)%nat then String backslash "t"
  else if (n =? 10)%nat then String backslash "n"
  else if (n =? 13)%nat then String backslash "r"
  else if (n <? 32)%nat || (127 <=? n)%nat then
    String backslash
      (String "x"
         (String (hex_digit (n / 16))
            (String (hex_digit (n mod 16)) EmptyString)))
  else String c EmptyString.

Fixpoint repr_body (quote : ascii) (s : string) : string :=
  match s with
  | EmptyString => EmptyString
  | String c s' => repr_char quote c +:+ repr_body quote s'
  end.

(** [repr(s)] of a byte string (Python 2.7): single quotes, unless the
    string has a single quote and no double quote. *)
Definition repr (s : string) : string :=
  let quote :=
    if str_contains "'" s && negb (str_contains double_quote s)
    then double_quote else "'"%char in
  String quote (repr_body quote s +:+ String quote EmptyString).

(** [str(e)]: the message, and for a [KeyError] the [repr] of its key. *)
Definition exn_str (e : exn) : string :=
  match e with
  | KeyError key => repr key
  | TankDescriptorError m | ValueError m | AttributeError m | TypeError m
  | IndexError m | IOError m | RuntimeError m => m
  | NotImplementedError => EmptyString
  end.

End Py.

Import Py.

#[global] Instance result_ret : MRet result := @Ok.
#[global] Instance result_bind : MBind result :=
  fun A B k r => Py.bind r k.
#[global] Instance result_fmap : FMap result :=
  fun A B f r => Py.bind r (fun a => Ok (f a)).

(* ===================================================================== *)
(** * Regular expressions *)
(* ===================================================================== *)

Module Re.

(** The fragment of [re] syntax that occurs in the module. *)
Inductive regex : Type :=
| Void
| Eps
| Class (p : ascii -> bool)
| Cat (r1 r2 : regex)
| Alt (r1 r2 : regex)
| Star (r : regex).

Definition Chr (c : ascii) : regex := Class (ascii_eqb c).
Definition Plus (r : regex) : regex := Cat r (Star r).
(** [r{2,}] *)
Definition AtLeast2 (r : regex) : regex := Cat r (Cat r (Star r)).
(** [.] without DOTALL: anything but a newline. *)
Definition Dot : regex := Class (fun c => negb (ascii_eqb c newline)).

Fixpoint nullable (r : regex) : bool :=
  match r with
  | Void => false
  | Eps => true
  | Class _ => false
  | Cat r1 r2 => nullable r1 && nullable r2
  | Alt r1 r2 => nullable r1 || nullable r2
  | Star _ => true
  end.

(** Brzozowski derivative. *)
Fixpoint deriv (c : ascii) (r : regex) : regex :=
  match r with
  | Void => Void
  | Eps => Void
  | Class p => if p c then Eps else Void
  | Cat r1 r2 =>
      if nullable r1 then Alt (Cat (deriv c r1) r2) (deriv c r2)
      else Cat (deriv c r1) r2
  | Alt r1 r2 => Alt (deriv c r1) (deriv c r2)
  | Star r1 => Cat (deriv c r1) (Star r1)
  end.

Fixpoint fullmatch (r : regex) (s : string) : bool :=
  match s with
  | EmptyString => nullable r
  | String c s' => fullmatch (deriv c r) s'
  end.

(** [s] without a final newline, when it has one. *)
Fixpoint chop_newline (s : string) : option string :=
  match s with
  | EmptyString => None
  | String c EmptyString => if ascii_eqb c newline then Some EmptyString else None
  | String c s' => String c <$> chop_newline s'
  end.

(** [re.match("^r$", s)]: [$] matches at the very end and also just
    before a newline that ends the string. *)
Definition match_anchored (r : regex) (s : string) : bool :=
  fullmatch r s ||
  match chop_newline s with
  | Some s' => fullmatch r s'
  | None => false
  end.

(** [([0-9]+|x)] *)
Definition segment : regex := Alt (Plus (Class isdigit)) (Chr "x").

(** [^v([0-9]+|x)(.([0-9]+|x)){2,}$]; the dot is not escaped in the
    source and stands for any character. *)
Definition version_grammar : regex :=
  Cat (Chr "v") (Cat segment (AtLeast2 (Cat Dot segment))).

(** [^v[0-9\.]+[x\.]+[0-9\.]+$] *)
Definition digit_after_x : regex :=
  Cat (Chr "v")
    (Cat (Plus (Class (fun c => isdigit c || ascii_eqb c ".")))
       (Cat (Plus (Class (fun c => ascii_eqb c "x" || ascii_eqb c ".")))
          (Plus (Class (fun c => isdigit c || ascii_eqb c "."))))).

(** [re.findall("([0-9]+|x)", s)]: scanning left to right, a maximal run
    of digits or a single [x]; [run] is the digit run being read. *)
Definition flush (run : string) : list string :=
  if String.eqb run EmptyString then [] else [run].

Fixpoint findall_segments_from (run : string) (s : string) : list string :=
  match s with
  | EmptyString => flush run
  | String c s' =>
      if isdigit c then findall_segments_from (run +:+ String c EmptyString) s'
      else flush run ++
           (if ascii_eqb c "x" then ["x"%string] else []) ++
           findall_segments_from EmptyString s'
  end.

Definition findall_segments (s : string) : list string :=
  findall_segments_from EmptyString s.

End Re.

(* ===================================================================== *)
(** * The version pattern matcher *)
(* ===================================================================== *)

Module Version.

(** The nested dictionary [versions]: every level maps an integer to the
    dictionary of the next level. *)
#[warnings="-register-all"]
Inductive trie : Type := Node (children : gmap Z trie).

Definition children (t : trie) : gmap Z trie := let 'Node m := t in m.

Definition empty_trie : trie := Node ∅.

(** The inner [for number in version_split] loop. *)
Fixpoint insert_path (version_split : list Z) (current : trie) : trie :=
  match version_split with
  | [] => current
  | number :: rest =>
      let sub := default empty_trie (children current !! number) in
      Node (<[number := insert_path rest sub]> (children current))
  end.

(** [map(int, version_num[1:].split("."))]; [None] when [int] raises. *)
Definition parse_version (version_num : string) : option (list Z) :=
  mapM py_int (str_split "." (str_tail version_num)).

(** One iteration of [for version_num in version_numbers]. *)
Definition add_version (versions : trie) (version_num : string) : trie :=
  match parse_version version_num with
  | None => versions
  | Some version_split =>
      if (length version_split <? 3)%nat then versions
      else insert_path version_split versions
  end.

Definition build_versions (version_numbers : list string) : trie :=
  fold_left add_version version_numbers empty_trie.

(** [max(d.keys())]; keys are integers, so [key=int] changes nothing. *)
Definition max_key (d : gmap Z trie) : option Z :=
  map_fold (fun k _ acc =>
              Some (match acc with None => k | Some k' => Z.max k k' end))
    None d.

Definition py_max_keys (d : gmap Z trie) : result Z :=
  match max_key d with
  | Some k => Ok k
  | None => Raise (ValueError "max() arg is an empty sequence")
  end.

Fixpoint depth (t : trie) : nat :=
  let 'Node m := t in
  map_fold (fun _ c acc => Nat.max (S (depth c)) acc) O m.

Section Matcher.

(** [self.get_system_name()], supplied by the deriving class. *)
Variable system_name : string.

Definition msg_cannot_parse (pattern : string) : string :=
  "Cannot parse version expression '" +:+ pattern +:+ "'!".

Definition msg_digit_after_x (pattern : string) : string :=
  "Incorrect version pattern '" +:+ pattern +:+
  "'. There should be no digit after a 'x'.".

Definition msg_no_match (version_numbers : list string) (pattern : string)
  : string :=
  "'" +:+ system_name +:+
  "' does not have a version matching the pattern '" +:+ pattern +:+
  "'. Available versions are: " +:+ str_join ", " version_numbers.

(** [for version_digit in version_split]: the walk along the pattern. *)
Fixpoint walk_pattern (version_numbers : list string) (pattern : string)
    (version_split : list string) (current : trie)
    (version_to_use : option string) : result (trie * option string) :=
  match version_split with
  | [] => Ok (current, version_to_use)
  | version_digit :: rest =>
      version_digit ←
        (if String.eqb version_digit "x" then py_max_keys (children current)
         else match py_int version_digit with
              | Some n => Ok n
              | None => Raise (ValueError
                  ("invalid literal for int() with base 10: '" +:+
                   version_digit +:+ "'"))
              end);
      match children current !! version_digit with
      | None =>
          Raise (TankDescriptorError (msg_no_match version_numbers pattern))
      | Some sub =>
          walk_pattern version_numbers pattern rest sub
            (Some (match version_to_use with
                   | None => "v" +:+ fmt_d version_digit
                   | Some v => v +:+ "." +:+ fmt_d version_digit
                   end))
      end
  end.

(** [while len(current)]: the walk into forked versions.  [fuel] bounds
    the number of iterations; [None] means it ran out. *)
Fixpoint forks_loop (fuel : nat) (current : trie) (version_to_use : string)
  : option string :=
  if bool_decide (children current = ∅) then Some version_to_use
  else match fuel with
       | O => None
       | S fuel' =>
           match max_key (children current) with
           | None => None
           | Some version_digit =>
               match children current !! version_digit with
               | None => None
               | Some sub =>
                   forks_loop fuel' sub
                     (version_to_use +:+ "." +:+ fmt_d version_digit)
               end
           end
       end.

(** The loop run with as many iterations as the dictionary is deep,
    which is always enough (see [forks_loop_enough_fuel]). *)
Definition walk_forks (current : trie) (version_to_use : string) : string :=
  default version_to_use (forks_loop (depth current) current version_to_use).

Definition _find_latest_tag_by_pattern (version_numbers : list string)
    (pattern : string) : result (option string) :=
  let versions := build_versions version_numbers in
  if negb (Re.match_anchored Re.version_grammar pattern) then
    Raise (TankDescriptorError (msg_cannot_parse pattern))
  else
    let version_split := Re.findall_segments pattern in
    if existsb (String.eqb "x") version_split &&
       Re.match_anchored Re.digit_after_x pattern
    then Raise (TankDescriptorError (msg_digit_after_x pattern))
    else
      '(current, version_to_use) ←
        walk_pattern version_numbers pattern version_split versions None;
      match version_to_use with
      | Some v => Ok (Some (walk_forks current v))
      | None =>
          if bool_decide (children current = ∅) then Ok None
          else Raise (TypeError
            "unsupported operand type(s) for +: 'NoneType' and 'str'")
      end.

(** The two error classes of the specification, told apart by the
    raise site, that is, by the message. *)
Definition InvalidVersionPattern (pattern : string) (e : exn) : Prop :=
  e = TankDescriptorError (msg_cannot_parse pattern) \/
  e = TankDescriptorError (msg_digit_after_x pattern).

Definition NoMatchingVersion (version_numbers : list string)
    (pattern : string) (e : exn) : Prop :=
  e = TankDescriptorError (msg_no_match version_numbers pattern).

End Matcher.

End Version.

(* ===================================================================== *)
(** * The identity codec *)
(* ===================================================================== *)

Module Uri.

(** Modelled from the spec: the [constants] module is not part of the
    source tree; the scheme is that of the URI form
    [sgtk:descriptor:<type>?...] given in the docstrings of
    [dict_from_uri] and [uri_from_dict]. *)
Definition DESCRIPTOR_URI_PATH_SCHEME : string := "sgtk".

(** Modelled from the spec: the path prefix of the same URI form. *)
Definition DESCRIPTOR_URI_PATH_PREFIX : string := "descriptor".

(** Modelled from the spec: the separator of the same URI form. *)
Definition DESCRIPTOR_URI_SEPARATOR : ascii := ":".

(** ** [urlparse] (Python 2.7) *)

Record ParseResult : Type := mkParseResult {
  scheme : string;
  netloc : string;
  path : string;
  query : string;
  fragment : string
}.

Definition isalpha (c : ascii) : bool :=
  let n := nat_of_ascii c in
  ((65 <=? n)%nat && (n <=? 90)%nat) || ((97 <=? n)%nat && (n <=? 122)%nat).

(** [scheme_chars]: letters, digits and [+-.] *)
Definition scheme_char (c : ascii) : bool :=
  isalpha c || isdigit c || ascii_eqb c "+" || ascii_eqb c "-" || ascii_eqb c ".".

(** [url.split(sep, 1)] where [sep in url] is known to hold or not. *)
Definition cut (sep : ascii) (url : string) : string * string :=
  match str_split1 sep url with
  | [a; b] => (a, b)
  | _ => (url, EmptyString)
  end.

(** [_splitnetloc(url, 2)]: the text between the two slashes and the
    first of [/], [?], [#]. *)
Fixpoint span_netloc (s : string) : string * string :=
  match s with
  | EmptyString => (EmptyString, EmptyString)
  | String c s' =>
      if ascii_eqb c "/" || ascii_eqb c "?" || ascii_eqb c "#"
      then (EmptyString, s)
      else let '(n, r) := span_netloc s' in (String c n, r)
  end.

(** [urlparse.urlparse(url)].  The [params] component is left out: it is
    split off only for the schemes of [uses_params], and
    [dict_from_uri] does not read it. *)
Definition urlparse (url : string) : result ParseResult :=
  let '(scheme, url) :=
    match str_find ":" url with
    | Some (S i') =>
        let i := S i' in
        let rest := str_drop (S i) url in
        if str_forall scheme_char (str_take i url) &&
           (String.eqb (str_take i url) "http" ||
            String.eqb rest EmptyString ||
            negb (str_forall isdigit rest))
        then (str_lower (str_take i url), rest)
        else (EmptyString, url)
    | _ => (EmptyString, url)
    end in
  '(netloc, url) ←
    (if String.eqb (str_take 2 url) "//" then
       let '(netloc, rest) := span_netloc (str_drop 2 url) in
       if (str_contains "[" netloc && negb (str_contains "]" netloc)) ||
          (str_contains "]" netloc && negb (str_contains "[" netloc))
       then Raise (ValueError "Invalid IPv6 URL")
       else Ok (netloc, rest)
     else Ok (EmptyString, url));
  let '(url, fragment) :=
    if str_contains "#" url then cut "#" url else (url, EmptyString) in
  let '(url, query) :=
    if str_contains "?" url then cut "?" url else (url, EmptyString) in
  Ok (mkParseResult scheme netloc url query fragment).

(** ** [cgi.parse_qs] *)

Definition hex_val (c : ascii) : option nat :=
  let n := nat_of_ascii c in
  if isdigit c then Some (n - 48)%nat
  else if (65 <=? n)%nat && (n <=? 70)%nat then Some (n - 55)%nat
  else if (97 <=? n)%nat && (n <=? 102)%nat then Some (n - 87)%nat
  else None.

(** One piece after a [%]: two hexadecimal digits are decoded, anything
    else is kept with its [%]. *)
Definition unquote_item (item : string) : string :=
  match item with
  | String a (String b rest) =>
      match hex_val a, hex_val b with
      | Some x, Some y => String (ascii_of_nat (16 * x + y)) rest
      | _, _ => String "%" item
      end
  | _ => String "%" item
  end.

(** [urllib.unquote] *)
Definition unquote (s : string) : string :=
  match str_split "%" s with
  | [] => s
  | first :: items => fold_left String.append (map unquote_item items) first
  end.

(** The body of the loop of [parse_qsl] with [keep_blank_values=0] and
    [strict_parsing=0]: empty pieces, pieces without [=] and pieces with
    an empty value are skipped. *)
Definition parse_pair (name_value : string) : option (string * string) :=
  if String.eqb name_value EmptyString then None
  else match str_split1 "=" name_value with
       | [n; v] =>
           if String.eqb v EmptyString then None
           else Some (unquote (str_replace "+" " " n),
                      unquote (str_replace "+" " " v))
       | _ => None
       end.

(** [urlparse.parse_qsl(qs)] *)
Definition parse_qsl (qs : string) : list (string * string) :=
  let pairs := concat (map (str_split ";") (str_split "&" qs)) in
  omap parse_pair pairs.

(** [cgi.parse_qs(qs)]: every name with the list of its values. *)
Definition parse_qs (qs : string) : gmap string (list string) :=
  fold_left (fun d '(name, value) =>
               <[name := default [] (d !! name) ++ [value]]> d)
    (parse_qsl qs) ∅.

Section Codec.

(** The order in which a Python 2 dictionary hands out its items is
    not specified; [iteritems] is any enumeration of them. *)
Variable iteritems : forall V : Type, gmap string V -> list (string * V).

(** ["%s" % descriptor_dict] *)
Variable str_of_dict : gmap string string -> string.

Definition invalid_uri (uri what : string) : exn :=
  TankDescriptorError ("Invalid uri '" +:+ uri +:+ "' - " +:+ what).

(** [for (param, value) in cgi.parse_qs(query).iteritems()] *)
Fixpoint fill_dict (uri : string) (items : list (string * list string))
    (descriptor_dict : gmap string string) : result (gmap string string) :=
  match items with
  | [] => Ok descriptor_dict
  | (param, value) :: rest =>
      if (1 <? length value)%nat
      then Raise (invalid_uri uri "duplicate parameters")
      else match value with
           | [] => Raise (IndexError "list index out of range")
           | v :: _ => fill_dict uri rest (<[param := v]> descriptor_dict)
           end
  end.

Definition dict_from_uri (uri : string) : result (gmap string string) :=
  parsed_uri ← urlparse uri;
  if negb (String.eqb (scheme parsed_uri) DESCRIPTOR_URI_PATH_SCHEME)
  then Raise (invalid_uri uri "must begin with 'sgtk'")
  else
    '(path, query) ←
      (if String.eqb (query parsed_uri) EmptyString then
         match str_split "?" (path parsed_uri) with
         | [p; q] => Ok (p, q)
         | [_] => Raise (ValueError "need more than 1 value to unpack")
         | _ => Raise (ValueError "too many values to unpack")
         end
       else Ok (path parsed_uri, query parsed_uri));
    let split_path := str_split DESCRIPTOR_URI_SEPARATOR path in
    match split_path with
    | [prefix; type] =>
        if negb (String.eqb prefix DESCRIPTOR_URI_PATH_PREFIX)
        then Raise (invalid_uri uri "must begin with sgtk:descriptor")
        else fill_dict uri (iteritems _ (parse_qs query)) {[ "type"%string := type ]}
    | _ => Raise (invalid_uri uri "must begin with sgtk:descriptor")
    end.

Definition qs_chunk (item : string * string) : string :=
  item.1 +:+ "=" +:+ item.2.

Definition uri_from_dict (descriptor_dict : gmap string string)
  : result string :=
  match descriptor_dict !! "type"%string with
  | None =>
      Raise (TankDescriptorError
               ("Cannot create uri from " +:+ str_of_dict descriptor_dict +:+
                " - missing type field"))
  | Some type =>
      let uri_chunks :=
        [DESCRIPTOR_URI_PATH_SCHEME; DESCRIPTOR_URI_PATH_PREFIX; type] in
      let uri :=
        str_join (String DESCRIPTOR_URI_SEPARATOR EmptyString) uri_chunks in
      let qs_chunks :=
        map qs_chunk
          (filter (fun item => item.1 <> "type"%string)
                  (iteritems _ descriptor_dict)) in
      let qs := str_join "&" qs_chunks in
      Ok (uri +:+ "?" +:+ qs)
  end.

End Codec.

(** One iteration order to run the codec with: that of [map_to_list]. *)
Definition sorted_items (V : Type) (d : gmap string V) : list (string * V) :=
  map_to_list d.

(** A stand-in for [str(dict)], which only occurs in a message. *)
Definition no_repr (d : gmap string string) : string := EmptyString.

End Uri.

(* ===================================================================== *)
(** * The descriptor: cache paths and the manifest cache *)
(* ===================================================================== *)

Module Descriptor.

(** Modelled from the spec: [constants.BUNDLE_METADATA_FILE] is not part
    of the source tree; the metadata file is [info.yml]. *)
Definition BUNDLE_METADATA_FILE : string := "info.yml".

(** Modelled from the spec: the bundle category [Descriptor.APP] is not
    part of the source tree; the spec names a bundle's category by its
    type, here [app]. *)
Definition APP : string := "app".

(** Modelled from the spec: [Descriptor.ENGINE], likewise. *)
Definition ENGINE : string := "engine".

(** Modelled from the spec: [Descriptor.FRAMEWORK], likewise. *)
Definition FRAMEWORK : string := "framework".

Definition _get_legacy_bundle_install_folder
    (descriptor_name install_cache_root bundle_type bundle_name
       bundle_version : string) : result string :=
  legacy_dir ←
    (if String.eqb bundle_type APP then Ok "apps"%string
     else if String.eqb bundle_type ENGINE then Ok "engines"%string
     else if String.eqb bundle_type FRAMEWORK then Ok "frameworks"%string
     else Raise (RuntimeError
                   ("Unknown bundle type '" +:+ bundle_type +:+
                    "'. Can not determine legacy cache path.")));
  Ok (path_join install_cache_root
        [legacy_dir; descriptor_name; bundle_name; bundle_version]).

(** What a path on disk holds. *)
Inductive node : Type :=
| File (content : string)
| Dir.

(** The calls that reach outside the instance, in the order made. *)
Inductive event : Type :=
| Exists (p : string)
| Open (p : string)
| Download.

Definition is_download (e : event) : bool :=
  match e with Download => true | _ => false end.

Definition is_open (e : event) : bool :=
  match e with Open _ => true | _ => false end.

Record world : Type := mkWorld {
  files : gmap string node;
  calls : list event
}.

Section Instance.

(** A parsed metadata file other than YAML null. *)
Variable Manifest : Type.

(** The attributes set by [__init__]; Python's [None] is [None]. *)
Record IODescriptorBase : Type := mkDescriptor {
  _bundle_cache_root : option string;
  _fallback_roots : list string;
  _descriptor_dict : gmap string string;
  __manifest_data : option Manifest
}.

Definition __init__ (descriptor_dict : gmap string string)
  : IODescriptorBase :=
  mkDescriptor None [] descriptor_dict None.

Definition set_cache_roots (self : IODescriptorBase) (primary_root : string)
    (fallback_roots : list string) : IODescriptorBase :=
  mkDescriptor (Some primary_root) fallback_roots
    (_descriptor_dict self) (__manifest_data self).

Definition set_manifest_data (self : IODescriptorBase)
    (metadata : option Manifest) : IODescriptorBase :=
  mkDescriptor (_bundle_cache_root self) (_fallback_roots self)
    (_descriptor_dict self) metadata.

(** [os.path.join(a, b)] where [a] may be [None]: unless [b] is
    absolute, [a.endswith] is looked up. *)
Definition path_join_obj (a : option string) (b : string) : result string :=
  match a with
  | Some a => Ok (path_join a [b])
  | None =>
      if startswith "/" b then Ok b
      else Raise (AttributeError
                    "'NoneType' object has no attribute 'endswith'")
  end.

Definition getitem (d : gmap string string) (k : string) : result string :=
  match d !! k with
  | Some v => Ok v
  | None => Raise (KeyError k)
  end.

(** Modelled from the spec: [_get_cache_paths] is abstract in the base
    class and its implementations are not part of the source tree.
    Following section 4.2: for every root, primary first and then the
    fallbacks in order, the new-style path [root/type/name/version]
    followed by the legacy path for the same root. *)
Definition resolve_cache_paths (self : IODescriptorBase)
  : result (list string) :=
  type ← getitem (_descriptor_dict self) "type";
  name ← getitem (_descriptor_dict self) "name";
  version ← getitem (_descriptor_dict self) "version";
  primary ←
    match _bundle_cache_root self with
    | Some root => Ok root
    | None =>
        Raise (AttributeError "'NoneType' object has no attribute 'endswith'")
    end;
  let roots := primary :: _fallback_roots self in
  per_root ←
    mapM (fun root =>
            legacy ← _get_legacy_bundle_install_folder
                       type root type name version;
            Ok [path_join root [type; name; version]; legacy])
         roots;
  Ok (concat per_root).

(** A method runs on the instance and the world and may change both,
    also when it raises. *)
Definition M (A : Type) : Type :=
  IODescriptorBase * world -> result A * (IODescriptorBase * world).

#[local] Instance M_ret : MRet M := fun A a s => (Ok a, s).
#[local] Instance M_bind : MBind M := fun A B k m s =>
  match m s with
  | (Ok a, s') => k a s'
  | (Raise e, s') => (Raise e, s')
  end.

Definition raise {A} (e : exn) : M A := fun s => (Raise e, s).
Definition lift {A} (r : result A) : M A := fun s => (r, s).
Definition get_self : M IODescriptorBase := fun s => (Ok s.1, s).

(** [os.path.exists(p)] *)
Definition os_path_exists (p : string) : M bool := fun '(self, w) =>
  (Ok (bool_decide (is_Some (files w !! p))),
   (self, mkWorld (files w) (calls w ++ [Exists p]))).

Section Methods.

(** [yaml.load] on the text of a file: a value, YAML null ([None])
    or an exception. *)
Variable yaml_load : string -> result (option Manifest).

(** The methods left to the deriving classes. *)
Variable _get_cache_paths : IODescriptorBase -> result (list string).
Variable download_local :
  IODescriptorBase -> gmap string node -> result unit * gmap string node.

(** Dictionary iteration order and [str(dict)], as in [Uri]. *)
Variable iteritems : forall V : Type, gmap string V -> list (string * V).
Variable str_of_dict : gmap string string -> string.

Definition call_download_local : M unit := fun '(self, w) =>
  let '(r, files') := download_local self (files w) in
  (r, (self, mkWorld files' (calls w ++ [Download]))).

(** [open(file_path)] followed by [yaml.load] and [close]. *)
Definition open_and_load (file_path : string) : M (option Manifest) :=
  fun '(self, w) =>
    let w' := mkWorld (files w) (calls w ++ [Open file_path]) in
    match files w !! file_path with
    | Some (File content) => (yaml_load content, (self, w'))
    | Some Dir =>
        (Raise (IOError ("[Errno 21] Is a directory: '" +:+ file_path
                         +:+ "'")), (self, w'))
    | None =>
        (Raise (IOError ("[Errno 2] No such file or directory: '" +:+
                         file_path +:+ "'")), (self, w'))
    end.

(** [except Exception, exp: raise TankDescriptorError(...)] *)
Definition wrap_load_error (file_path : string)
    (m : M (option Manifest)) : M (option Manifest) := fun s =>
  match m s with
  | (Raise exp, s') =>
      (Raise (TankDescriptorError
                ("Cannot load metadata file '" +:+ file_path +:+
                 "'. Error: " +:+ exn_str exp)), s')
  | r => r
  end.

(** The loop of [get_path] over the candidate paths. *)
Fixpoint first_with_metadata (paths : list string) : M (option string) :=
  match paths with
  | [] => mret None
  | path :: rest =>
      let info_yml_path := path_join path [BUNDLE_METADATA_FILE] in
      found ← os_path_exists info_yml_path;
      if found : bool then mret (Some path) else first_with_metadata rest
  end.

Definition get_path : M (option string) :=
  self ← get_self;
  paths ← lift (_get_cache_paths self);
  first_with_metadata paths.

Definition exists_local : M bool :=
  path ← get_path;
  mret (bool_decide (is_Some path)).

(** [log.debug("Downloading %s ..." % self)] formats the instance
    with [__repr__], which calls [get_uri]. *)
Definition get_uri : M string :=
  self ← get_self;
  lift (Uri.uri_from_dict iteritems str_of_dict (_descriptor_dict self)).

Definition ensure_local : M unit :=
  local ← exists_local;
  if negb local then
    _ ← get_uri;
    call_download_local
  else mret tt.

Definition get_manifest : M (option Manifest) :=
  self ← get_self;
  match __manifest_data self with
  | Some data => mret (Some data)
  | None =>
      local ← exists_local;
      _ ← (if negb local then call_download_local else mret tt);
      bundle_root ← get_path;
      file_path ← lift (path_join_obj bundle_root BUNDLE_METADATA_FILE);
      present ← os_path_exists file_path;
      if negb present then
        raise (TankDescriptorError
                 ("Toolkit metadata file '" +:+ file_path +:+ "' missing."))
      else
        metadata ← wrap_load_error file_path (open_and_load file_path);
        _ ← (fun '(self, w) =>
               (Ok tt, (set_manifest_data self metadata, w))) : M unit;
        self ← get_self;
        mret (__manifest_data self)
  end.

(** [n] calls in a row, stopping at the first that raises. *)
Fixpoint repeat_call {A} (m : M A) (n : nat) : M (list A) :=
  match n with
  | O => mret []
  | S n' => a ← m; rest ← repeat_call m n'; mret (a :: rest)
  end.

End Methods.

End Instance.

Arguments mkDescriptor {Manifest}.
Arguments _bundle_cache_root {Manifest}.
Arguments _fallback_roots {Manifest}.
Arguments _descriptor_dict {Manifest}.
Arguments __manifest_data {Manifest}.
Arguments set_cache_roots {Manifest}.
Arguments set_manifest_data {Manifest}.
Arguments resolve_cache_paths {Manifest}.
Arguments os_path_exists {Manifest}.
Arguments first_with_metadata {Manifest}.
Arguments get_path {Manifest}.
Arguments exists_local {Manifest}.
Arguments get_uri {Manifest}.
Arguments ensure_local {Manifest}.
Arguments get_manifest {Manifest}.
Arguments call_download_local {Manifest}.
Arguments open_and_load {Manifest}.
Arguments wrap_load_error {Manifest}.
Arguments repeat_call {Manifest A}.

End Descriptor.

(* ===================================================================== *)
(** * Properties of the version pattern matcher *)
(* ===================================================================== *)

Module VersionFacts.

Import Version.

(** ** Facts about the dictionary *)

Lemma children_depth (t c : trie) (k : Z) :
  children t !! k = Some c -> (depth c < depth t)%nat.
Proof.
  destruct t as [m]; simpl.
  apply (map_fold_weak_ind
           (fun r m => forall k c, m !! k = Some c -> (depth c < r)%nat)).
  - intros k' c' H. by rewrite lookup_empty in H.
  - intros i x m' r Hi IH k' c' H.
    destruct (decide (i = k')) as [->|Hne].
    + rewrite lookup_insert_eq in H. injection H as ->. lia.
    + rewrite lookup_insert_ne in H by done. specialize (IH _ _ H). lia.
Qed.

Lemma max_key_spec (d : gmap Z trie) :
  match max_key d with
  | None => d = ∅
  | Some k => is_Some (d !! k) /\ forall j, is_Some (d !! j) -> j <= k
  end.
Proof.
  unfold max_key.
  apply (map_fold_weak_ind
           (fun (r : option Z) (m : gmap Z trie) =>
              match r with
              | None => m = ∅
              | Some k => is_Some (m !! k) /\ forall j, is_Some (m !! j) -> j <= k
              end)).
  - done.
  - intros i x m r Hi IH. destruct r as [k'|].
    + destruct IH as [Hk Hmax]. split.
      * destruct (Z.max_spec i k') as [[_ ->]|[_ ->]].
        -- rewrite lookup_insert_ne; [done|]. intros ->.
           rewrite Hi in Hk. by destruct Hk.
        -- rewrite lookup_insert_eq. by eexists.
      * intros j Hj. destruct (decide (i = j)) as [->|Hne]; [lia|].
        rewrite lookup_insert_ne in Hj by done. specialize (Hmax _ Hj). lia.
    + subst m. split.
      * rewrite lookup_insert_eq. by eexists.
      * intros j Hj. destruct (decide (i = j)) as [->|Hne]; [lia|].
        rewrite lookup_insert_ne, lookup_empty in Hj by done. by destruct Hj.
Qed.

(** The [while] loop stops within [depth current] iterations. *)
Lemma forks_loop_enough_fuel (fuel : nat) (current : trie) (v : string) :
  (depth current <= fuel)%nat -> is_Some (forks_loop fuel current v).
Proof.
  revert current v. induction fuel as [|fuel IH]; intros current v Hd; simpl.
  - case_bool_decide as He; [by eexists|].
    exfalso. apply He. apply map_eq. intros k. rewrite lookup_empty.
    destruct (children current !! k) as [c|] eqn:Hk; [|done].
    apply children_depth in Hk. lia.
  - case_bool_decide as He; [by eexists|].
    pose proof (max_key_spec (children current)) as Hm.
    destruct (max_key (children current)) as [k|]; [|done].
    destruct Hm as [[c Hc] _]. rewrite Hc.
    apply IH. apply children_depth in Hc. lia.
Qed.

Lemma walk_forks_loop (current : trie) (v : string) :
  forks_loop (depth current) current v = Some (walk_forks current v).
Proof.
  unfold walk_forks.
  by destruct (forks_loop_enough_fuel (depth current) current v) as [r ->].
Qed.

(** Inserting two versions commutes: the dictionary does not depend on
    the order in which the tags are listed. *)
Lemma insert_path_comm (p q : list Z) (t : trie) :
  insert_path p (insert_path q t) = insert_path q (insert_path p t).
Proof.
  revert q t. induction p as [|n p IH]; intros q t; [done|].
  destruct q as [|n' q]; [done|]. simpl.
  destruct (decide (n = n')) as [->|Hne].
  - rewrite !lookup_insert_eq, !insert_insert_eq. simpl. by rewrite IH.
  - rewrite !lookup_insert_ne by done.
    f_equal. by apply insert_insert_ne.
Qed.

Lemma add_version_comm (t : trie) (a b : string) :
  add_version (add_version t a) b = add_version (add_version t b) a.
Proof.
  unfold add_version.
  destruct (parse_version a) as [pa|], (parse_version b) as [pb|]; try done.
  destruct (length pa <? 3)%nat, (length pb <? 3)%nat; try done.
  apply insert_path_comm.
Qed.

Lemma build_versions_perm (l1 l2 : list string) :
  l1 ≡ₚ l2 -> build_versions l1 = build_versions l2.
Proof.
  unfold build_versions. generalize empty_trie.
  intros t H. revert t.
  induction H as [|x l l' _ IH|x y l|l l' l'' _ IH1 _ IH2]; intros t; simpl.
  - done.
  - apply IH.
  - by rewrite add_version_comm.
  - by rewrite IH1.
Qed.

(** ** What the dictionary holds *)

(** The dictionary reached from [t] along [p]. *)
Fixpoint subtrie (p : list Z) (t : trie) : option trie :=
  match p with
  | [] => Some t
  | n :: p' =>
      match children t !! n with
      | Some c => subtrie p' c
      | None => None
      end
  end.

Lemma subtrie_app (p p' : list Z) (t : trie) :
  subtrie (p ++ p') t = subtrie p t ≫= subtrie p'.
Proof.
  revert t. induction p as [|n p IH]; intros t; simpl; [done|].
  destruct (children t !! n); [apply IH|done].
Qed.

Lemma subtrie_empty_trie (p : list Z) :
  is_Some (subtrie p empty_trie) -> p = [].
Proof.
  destruct p as [|n p]; [done|]. simpl. rewrite lookup_empty.
  by intros [? ?].
Qed.

(** After an insertion the paths are the old ones and the prefixes of the
    inserted version. *)
Lemma subtrie_insert_path (q p : list Z) (t : trie) :
  is_Some (subtrie p (insert_path q t)) <->
  is_Some (subtrie p t) \/ p `prefix_of` q.
Proof.
  revert p t. induction q as [|n q IH]; intros p t; simpl.
  - split; [by left|]. intros [H|H]; [done|].
    apply prefix_nil_inv in H as ->. by eexists.
  - destruct p as [|m p]; simpl.
    { split; [intros _; by left|intros _; by eexists]. }
    destruct (decide (n = m)) as [->|Hne].
    + rewrite lookup_insert_eq, IH.
      destruct (children t !! m) as [c|] eqn:Hc; simpl.
      * split; (intros [H|H]; [by left|right]).
        -- by apply prefix_cons.
        -- by apply prefix_cons_inv_2 in H.
      * split.
        -- intros [H|H]; right; apply prefix_cons; [|done].
           apply subtrie_empty_trie in H as ->. apply prefix_nil.
        -- intros [[? H]|H]; [done|]. right. by apply prefix_cons_inv_2 in H.
    + rewrite lookup_insert_ne by done. split; [by left|].
      intros [H|H]; [done|]. by apply prefix_cons_inv_1 in H.
Qed.

(** The versions that enter the dictionary: tags whose text after the
    first character splits into at least three integers. *)
Definition parsed (version_numbers : list string) (q : list Z) : Prop :=
  exists tag, tag ∈ version_numbers /\ parse_version tag = Some q /\
              (3 <= length q)%nat.

Lemma subtrie_fold_add_version (version_numbers : list string) (t : trie)
    (p : list Z) :
  is_Some (subtrie p (fold_left add_version version_numbers t)) <->
  is_Some (subtrie p t) \/
  exists q, parsed version_numbers q /\ p `prefix_of` q.
Proof.
  revert t. induction version_numbers as [|tag tags IH]; intros t; simpl.
  - split; [by left|]. intros [H|(q & (tag & Hin & _) & _)]; [done|].
    by apply elem_of_nil in Hin.
  - rewrite IH. unfold add_version.
    destruct (parse_version tag) as [q0|] eqn:Hparse.
    + destruct (length q0 <? 3)%nat eqn:Hlen.
      * split.
        -- intros [H|(q & (tag' & Hin & Hq) & Hpre)]; [by left|].
           right. exists q. split; [|done]. exists tag'. split; [by right|done].
        -- intros [H|(q & (tag' & Hin & Hq & Hl) & Hpre)]; [by left|].
           apply elem_of_cons in Hin as [->|Hin].
           ++ rewrite Hparse in Hq. injection Hq as ->.
              apply Nat.ltb_lt in Hlen. lia.
           ++ right. exists q. split; [|done]. by exists tag'.
      * rewrite subtrie_insert_path. apply Nat.ltb_ge in Hlen. split.
        -- intros [[H|H]|(q & (tag' & Hin & Hq) & Hpre)]; [by left| |].
           ++ right. exists q0. split; [|done]. exists tag. split; [left|done].
           ++ right. exists q. split; [|done]. exists tag'.
              split; [by right|done].
        -- intros [H|(q & (tag' & Hin & Hq & Hl) & Hpre)]; [by left; left|].
           apply elem_of_cons in Hin as [->|Hin].
           ++ rewrite Hparse in Hq. injection Hq as ->. by left; right.
           ++ right. exists q. split; [|done]. by exists tag'.
    + split.
      * intros [H|(q & (tag' & Hin & Hq) & Hpre)]; [by left|].
        right. exists q. split; [|done]. exists tag'. split; [by right|done].
      * intros [H|(q & (tag' & Hin & Hq & Hl) & Hpre)]; [by left|].
        apply elem_of_cons in Hin as [->|Hin]; [congruence|].
        right. exists q. split; [|done]. by exists tag'.
Qed.

Lemma subtrie_build_versions (version_numbers : list string) (p : list Z) :
  is_Some (subtrie p (build_versions version_numbers)) <->
  p = [] \/ exists q, parsed version_numbers q /\ p `prefix_of` q.
Proof.
  unfold build_versions. rewrite subtrie_fold_add_version. split.
  - intros [H|H]; [left; by apply subtrie_empty_trie|by right].
  - intros [->|H]; [left; by eexists|by right].
Qed.

(** ** What the two walks choose *)

(** The text built from the integers chosen so far. *)
Definition extend (version_to_use : option string) (n : Z) : string :=
  match version_to_use with
  | None => "v" +:+ fmt_d n
  | Some v => v +:+ "." +:+ fmt_d n
  end.

Definition render_onto (version_to_use : option string) (p : list Z)
  : option string :=
  fold_left (fun acc n => Some (extend acc n)) p version_to_use.

(** [v<n1>.<n2>...], and nothing for no integers. *)
Definition render_version (p : list Z) : option string := render_onto None p.

(** A version is consistent with the pattern when it has an integer for
    every segment, equal to the segment unless that is a wildcard. *)
Fixpoint consistent (version_split : list string) (q : list Z) : Prop :=
  match version_split, q with
  | [], _ => True
  | _ :: _, [] => False
  | segment :: rest, n :: q' =>
      (segment = "x"%string \/ py_int segment = Some n) /\ consistent rest q'
  end.

(** Versions compare integer by integer; a fork is above its base. *)
Fixpoint version_le (p q : list Z) : Prop :=
  match p, q with
  | [], _ => True
  | _ :: _, [] => False
  | a :: p', b :: q' => a < b \/ (a = b /\ version_le p' q')
  end.

(** The way down a dictionary that takes the greatest key at each level
    until a level is empty. *)
Inductive greedy : trie -> list Z -> Prop :=
| greedy_leaf (t : trie) : children t = ∅ -> greedy t []
| greedy_step (t c : trie) (k : Z) (g : list Z) :
    max_key (children t) = Some k ->
    children t !! k = Some c ->
    greedy c g ->
    greedy t (k :: g).

Lemma greedy_is_greatest (t : trie) (g : list Z) :
  greedy t g -> forall q, is_Some (subtrie q t) -> version_le q g.
Proof.
  induction 1 as [t Hempty|t c k g Hmax Hc _ IH]; intros q Hq.
  - destruct q as [|n q]; [done|]. simpl in Hq.
    rewrite Hempty, lookup_empty in Hq. by destruct Hq.
  - destruct q as [|n q]; [done|]. simpl in *.
    destruct (children t !! n) as [c'|] eqn:Hn; [|by destruct Hq].
    pose proof (max_key_spec (children t)) as Hspec. rewrite Hmax in Hspec.
    destruct Hspec as [_ Hle].
    assert (n <= k) as Hnk by (apply Hle; by eexists).
    destruct (decide (n = k)) as [->|Hne]; [|left; lia].
    right. split; [done|]. apply IH. congruence.
Qed.

Lemma greedy_ends_in_leaf (t : trie) (g : list Z) :
  greedy t g -> exists leaf, subtrie g t = Some leaf /\ children leaf = ∅.
Proof.
  induction 1 as [t Hempty|t c k g Hmax Hc _ IH]; simpl.
  - by exists t.
  - by rewrite Hc.
Qed.

Lemma forks_loop_greedy (fuel : nat) (current : trie) (v s : string) :
  forks_loop fuel current v = Some s ->
  exists g, greedy current g /\ render_onto (Some v) g = Some s.
Proof.
  revert current v. induction fuel as [|fuel IH]; intros current v; simpl.
  - case_bool_decide as He; [|done]. intros [= <-]. exists [].
    split; [by constructor|done].
  - case_bool_decide as He.
    { intros [= <-]. exists []. split; [by constructor|done]. }
    destruct (max_key (children current)) as [k|] eqn:Hmax; [|done].
    destruct (children current !! k) as [c|] eqn:Hc; [|done].
    intros (g & Hg & Hr)%IH. exists (k :: g).
    split; [by econstructor|done].
Qed.

Lemma consistent_app (version_split : list string) (p g : list Z) :
  consistent version_split p -> consistent version_split (p ++ g).
Proof.
  revert p. induction version_split as [|segment rest IH]; intros p; [done|].
  destruct p as [|n p]; [done|]. simpl. intros [H1 H2]. split; [done|by apply IH].
Qed.

Section Walk.

Variable system_name : string.
Variable version_numbers : list string.
Variable pattern : string.

(** The walk along the pattern ends on a path consistent with it, and no
    consistent path of the dictionary lies above it, however the walk is
    continued greedily. *)
Lemma walk_pattern_greatest (version_split : list string) (current node : trie)
    (acc acc' : option string) :
  walk_pattern system_name version_numbers pattern version_split current acc
    = Ok (node, acc') ->
  exists ps,
    subtrie ps current = Some node /\
    acc' = render_onto acc ps /\
    consistent version_split ps /\
    length ps = length version_split /\
    forall g, greedy node g ->
      forall q, is_Some (subtrie q current) -> consistent version_split q ->
                version_le q (ps ++ g).
Proof.
  revert current acc.
  induction version_split as [|segment rest IH]; intros current acc; simpl.
  - intros [= <- <-]. exists []. repeat split.
    intros g Hg q Hq _. by apply (greedy_is_greatest current).
  - unfold mbind, result_bind, Py.bind, py_max_keys.
    pose proof (max_key_spec (children current)) as Hspec.
    destruct (String.eqb_spec segment "x") as [->|Hnx].
    + destruct (max_key (children current)) as [k|]; [|done].
      destruct Hspec as [_ Hle].
      destruct (children current !! k) as [sub|] eqn:Hsub; [|done].
      intros (ps & Hps & -> & Hcons & Hlen & Hmax)%IH.
      exists (k :: ps). simpl. rewrite Hsub.
      repeat split; [done|by left|done|by rewrite Hlen|].
      intros g Hg [|n q] Hq Hq'; [done|]. simpl in *.
      destruct (children current !! n) as [c'|] eqn:Hn; [|by destruct Hq].
      assert (n <= k) as Hnk by (apply Hle; by eexists).
      destruct (decide (n = k)) as [->|Hne]; [|left; lia].
      right. split; [done|]. apply Hmax; [done| |tauto]. congruence.
    + destruct (py_int segment) as [d|] eqn:Hd; [|done].
      destruct (children current !! d) as [sub|] eqn:Hsub; [|done].
      intros (ps & Hps & -> & Hcons & Hlen & Hmax)%IH.
      exists (d :: ps). simpl. rewrite Hsub.
      repeat split; [done|by right|done|by rewrite Hlen|].
      intros g Hg [|n q] Hq Hq'; [done|]. simpl in *.
      destruct Hq' as [[?|Hn] Hq']; [done|]. injection Hn as <-.
      rewrite Hsub in Hq. right. split; [done|]. by apply Hmax.
Qed.

(** Whenever the matcher returns, it returns the greatest version
    consistent with the pattern among those of the tags, printed as
    [v<int>.<int>...]. *)
Theorem find_latest_is_greatest (v : string) :
  _find_latest_tag_by_pattern system_name version_numbers pattern
    = Ok (Some v) ->
  exists r,
    parsed version_numbers r /\
    render_version r = Some v /\
    consistent (Re.findall_segments pattern) r /\
    forall q, parsed version_numbers q ->
              consistent (Re.findall_segments pattern) q ->
              version_le q r.
Proof.
  unfold _find_latest_tag_by_pattern.
  destruct (negb _); [done|]. destruct (_ && _); [done|].
  unfold mbind, result_bind, Py.bind.
  destruct (walk_pattern _ _ _ _ _ _) as [[node acc']|e] eqn:Hwalk; [|done].
  apply walk_pattern_greatest in Hwalk
    as (ps & Hps & -> & Hcons & Hlen & Hmax).
  destruct (render_onto None ps) as [v0|] eqn:Hv0.
  2:{ case_bool_decide; done. }
  intros [= <-].
  pose proof (walk_forks_loop node v0) as Hloop.
  apply forks_loop_greedy in Hloop as (g & Hg & Hr).
  destruct (greedy_ends_in_leaf _ _ Hg) as (leaf & Hleaf & Hempty).
  assert (subtrie (ps ++ g) (build_versions version_numbers) = Some leaf)
    as Hpath by (rewrite subtrie_app, Hps; exact Hleaf).
  exists (ps ++ g). repeat split.
  - assert (is_Some (subtrie (ps ++ g) (build_versions version_numbers)))
      as Hsome by by eexists.
    apply subtrie_build_versions in Hsome as [Hnil|(q & Hq & [k ->])].
    { apply app_eq_nil in Hnil as [-> _]. discriminate Hv0. }
    destruct k as [|x k]; [by rewrite app_nil_r in Hq|]. exfalso.
    assert (is_Some (subtrie ((ps ++ g) ++ x :: k)
                       (build_versions version_numbers))) as [t' Ht'].
    { apply subtrie_build_versions. right. by exists ((ps ++ g) ++ x :: k). }
    rewrite subtrie_app, Hpath in Ht'. simpl in Ht'.
    by rewrite Hempty, lookup_empty in Ht'.
  - unfold render_version, render_onto in *. by rewrite fold_left_app, Hv0.
  - by apply consistent_app.
  - intros q Hq Hq'. apply Hmax; [done| |done].
    apply subtrie_build_versions. right. by exists q.
Qed.

End Walk.

(** ** The worked example of the specification *)

Definition example_tags : list string :=
  ["v1.2.1"; "v1.2.3"; "v1.2.3.2"; "v1.4.1"; "v1.4.2.1"; "v1.4.2.2"]%string.

(** C2: on the tags v1.2.1, v1.2.3, v1.2.3.2, v1.4.1, v1.4.2.1 and
    v1.4.2.2, listed in any order, the matcher returns v1.4.2.2 for
    v1.x.x, v1.2.3.2 for v1.2.x and also for the exact pattern v1.2.3, and
    raises the no-matching-version error for v9.0.0. *)
Theorem find_latest_tag_examples (system_name : string)
    (version_numbers : list string) :
  version_numbers ≡ₚ example_tags ->
  _find_latest_tag_by_pattern system_name version_numbers "v1.x.x"
    = Ok (Some "v1.4.2.2"%string) /\
  _find_latest_tag_by_pattern system_name version_numbers "v1.2.x"
    = Ok (Some "v1.2.3.2"%string) /\
  _find_latest_tag_by_pattern system_name version_numbers "v1.2.3"
    = Ok (Some "v1.2.3.2"%string) /\
  exists e,
    _find_latest_tag_by_pattern system_name version_numbers "v9.0.0" = Raise e /\
    NoMatchingVersion system_name version_numbers "v9.0.0" e.
Proof.
  intros Hperm. unfold _find_latest_tag_by_pattern.
  rewrite (build_versions_perm _ _ Hperm).
  repeat split; try (vm_compute; reflexivity).
  eexists. split; [vm_compute; reflexivity|].
  unfold NoMatchingVersion, msg_no_match. reflexivity.
Qed.

Lemma find_latest_tag_examples_witness :
  _find_latest_tag_by_pattern "tk-app" example_tags "v1.x.x"
    = Ok (Some "v1.4.2.2"%string) /\
  _find_latest_tag_by_pattern "tk-app" example_tags "v1.2.x"
    = Ok (Some "v1.2.3.2"%string) /\
  _find_latest_tag_by_pattern "tk-app" example_tags "v1.2.3"
    = Ok (Some "v1.2.3.2"%string) /\
  exists e,
    _find_latest_tag_by_pattern "tk-app" example_tags "v9.0.0" = Raise e /\
    NoMatchingVersion "tk-app" example_tags "v9.0.0" e.
Proof.
  apply (find_latest_tag_examples "tk-app" example_tags). reflexivity.
Defined.

(** C9: the patterns v1.2 (two segments only), 1.2.3 (no leading v) and
    v1.x.2 (a digit after the wildcard) are rejected as invalid version
    patterns, whatever the tags. *)
Theorem invalid_patterns_rejected (system_name : string)
    (version_numbers : list string) :
  (exists e,
     _find_latest_tag_by_pattern system_name version_numbers "v1.2" = Raise e /\
     InvalidVersionPattern "v1.2" e) /\
  (exists e,
     _find_latest_tag_by_pattern system_name version_numbers "1.2.3" = Raise e /\
     InvalidVersionPattern "1.2.3" e) /\
  (exists e,
     _find_latest_tag_by_pattern system_name version_numbers "v1.x.2" = Raise e /\
     InvalidVersionPattern "v1.x.2" e).
Proof.
  unfold InvalidVersionPattern.
  repeat split; eexists; (split; [vm_compute; reflexivity|]).
  - left. reflexivity.
  - left. reflexivity.
  - right. reflexivity.
Qed.

(** C3: the check for a digit after a wildcard does not fire when the
    wildcard is the first segment: vx.1.2 is accepted and matched. *)
Theorem leading_wildcard_then_digit_accepted (system_name : string) :
  Re.match_anchored Re.digit_after_x "vx.1.2" = false /\
  _find_latest_tag_by_pattern system_name ["v3.1.2"%string] "vx.1.2"
    = Ok (Some "v3.1.2"%string).
Proof. split; vm_compute; reflexivity. Qed.

(** The same happens when a wildcard follows the offending digit. *)
Lemma digit_between_wildcards_accepted (system_name : string) :
  _find_latest_tag_by_pattern system_name ["v1.7.2.5"%string] "v1.x.2.x"
    = Ok (Some "v1.7.2.5"%string).
Proof. vm_compute. reflexivity. Qed.

(** C1: a wildcard that meets a level without entries makes [max] raise
    a [ValueError]; the call neither returns a tag nor reports that no
    version matches. *)
Theorem wildcard_on_empty_level_raises (system_name : string) :
  _find_latest_tag_by_pattern system_name ["v1.2.3"%string] "v1.2.3.x"
    = Raise (ValueError "max() arg is an empty sequence") /\
  _find_latest_tag_by_pattern system_name [] "vx.x.x"
    = Raise (ValueError "max() arg is an empty sequence").
Proof. split; vm_compute; reflexivity. Qed.

(** The first character of a tag is dropped unread, and the result is
    printed afresh from the integers: a string that is not among the tags
    can be returned. *)
Lemma first_character_of_tag_unchecked (system_name : string) :
  _find_latest_tag_by_pattern system_name ["x1.2.3"%string] "v1.2.3"
    = Ok (Some "v1.2.3"%string) /\
  _find_latest_tag_by_pattern system_name ["v01.2.3"%string] "v1.2.3"
    = Ok (Some "v1.2.3"%string).
Proof. split; vm_compute; reflexivity. Qed.

(** Wildcards compare numerically: 10 beats 9. *)
Lemma wildcard_is_numeric (system_name : string) :
  _find_latest_tag_by_pattern system_name
    ["v1.9.0"; "v1.10.0"; "v1.2.5"]%string "v1.x.x"
    = Ok (Some "v1.10.0"%string).
Proof. vm_compute. reflexivity. Qed.

End VersionFacts.

(* ===================================================================== *)
(** * Properties of the identity codec *)
(* ===================================================================== *)

Module UriFacts.

Import Uri.

(** ** Strings without a given character *)

Lemma str_contains_app (c : ascii) (a b : string) :
  str_contains c (a +:+ b) = str_contains c a || str_contains c b.
Proof.
  induction a as [|x a IH]; simpl; [done|].
  rewrite IH. by rewrite orb_assoc.
Qed.

Lemma str_split_none (sep : ascii) (s : string) :
  str_contains sep s = false -> str_split sep s = [s].
Proof.
  induction s as [|c s IH]; simpl; [done|].
  intros H. apply orb_false_iff in H as [Hc Hs].
  rewrite Hc, (IH Hs). done.
Qed.

Lemma str_split_app (sep : ascii) (a b : string) :
  str_contains sep a = false ->
  str_split sep (a +:+ String sep b) = a :: str_split sep b.
Proof.
  induction a as [|c a IH]; simpl.
  - intros _. unfold ascii_eqb. by rewrite Ascii.eqb_refl.
  - intros H. apply orb_false_iff in H as [Hc Ha].
    rewrite Hc, (IH Ha). done.
Qed.

Lemma str_split1_app (sep : ascii) (a b : string) :
  str_contains sep a = false ->
  str_split1 sep (a +:+ String sep b) = [a; b].
Proof.
  induction a as [|c a IH]; simpl.
  - intros _. unfold ascii_eqb. by rewrite Ascii.eqb_refl.
  - intros H. apply orb_false_iff in H as [Hc Ha].
    rewrite Hc, (IH Ha). done.
Qed.

Lemma str_split_join (sep : ascii) (l : list string) :
  l <> [] ->
  Forall (fun s => str_contains sep s = false) l ->
  str_split sep (str_join (String sep EmptyString) l) = l.
Proof.
  induction l as [|x l IH]; [done|]. intros _ Hall.
  apply Forall_cons in Hall as [Hx Hl].
  destruct l as [|y l].
  - simpl. by apply str_split_none.
  - change (str_join (String sep EmptyString) (x :: y :: l))
      with (x +:+ String sep (str_join (String sep EmptyString) (y :: l))).
    rewrite str_split_app by done. f_equal. by apply IH.
Qed.

Lemma str_replace_none (a b : ascii) (s : string) :
  str_contains a s = false -> str_replace a b s = s.
Proof.
  induction s as [|c s IH]; simpl; [done|].
  intros H. apply orb_false_iff in H as [Hc Hs].
  rewrite Hc, (IH Hs). done.
Qed.

Lemma unquote_none (s : string) :
  str_contains "%" s = false -> unquote s = s.
Proof. intros H. unfold unquote. by rewrite str_split_none. Qed.

Lemma str_contains_join (c : ascii) (sep : string) (l : list string) :
  str_contains c sep = false ->
  Forall (fun s => str_contains c s = false) l ->
  str_contains c (str_join sep l) = false.
Proof.
  intros Hsep. induction l as [|x l IH]; [done|]. intros Hall.
  apply Forall_cons in Hall as [Hx Hl].
  destruct l as [|y l]; [done|].
  change (str_join sep (x :: y :: l))
    with (x +:+ sep +:+ str_join sep (y :: l)).
  rewrite !str_contains_app, Hx, Hsep. simpl. by apply IH.
Qed.

(** [s] has none of the characters of [cs]. *)
Definition free_of (cs : string) (s : string) : bool :=
  str_forall (fun c => negb (str_contains c cs)) s.

Lemma free_of_contains (cs s : string) (c : ascii) :
  free_of cs s = true -> str_contains c cs = true -> str_contains c s = false.
Proof.
  unfold free_of. intros Hs Hc.
  induction s as [|x s IH]; simpl in *; [done|].
  apply andb_true_iff in Hs as [Hx Hs]. rewrite (IH Hs), orb_false_r.
  unfold ascii_eqb. destruct (Ascii.eqb_spec x c) as [->|]; [|done].
  by rewrite Hc in Hx.
Qed.

(** ** The two dictionary loops *)

Definition add_value (d : gmap string (list string)) (item : string * string)
  : gmap string (list string) :=
  let '(name, value) := item in
  <[name := default [] (d !! name) ++ [value]]> d.

Lemma parse_qs_fold (qs : string) :
  parse_qs qs = fold_left add_value (parse_qsl qs) ∅.
Proof. reflexivity. Qed.

(** Names that occur once each get a one-element list. *)
Lemma fold_add_value_lookup (l : list (string * string))
    (d : gmap string (list string)) (k : string) (vs : list string) :
  NoDup (l.*1) ->
  (forall j, j ∈ (l.*1) -> d !! j = None) ->
  fold_left add_value l d !! k = Some vs <->
  (exists v, vs = [v] /\ (k, v) ∈ l) \/ ((k ∉ l.*1) /\ d !! k = Some vs).
Proof.
  revert d. induction l as [|[k0 v0] l IH]; intros d Hnd Hd; simpl.
  - split.
    + intros H. right. split; [apply not_elem_of_nil|done].
    + intros [(v & _ & H)|[_ H]]; [by apply elem_of_nil in H|done].
  - apply NoDup_cons in Hnd as [Hk0 Hnd]. simpl in Hk0.
    rewrite (Hd k0) by (simpl; left). simpl.
    rewrite IH; [|done|].
    + split.
      * intros [(v & -> & Hin)|[Hk H]].
        -- left. exists v. split; [done|by right].
        -- destruct (decide (k0 = k)) as [->|Hne].
           ++ rewrite lookup_insert_eq in H. injection H as <-.
              left. exists v0. split; [done|left].
           ++ rewrite lookup_insert_ne in H by done.
              right. split; [|done]. simpl.
              intros [->|Hin]%elem_of_cons; [done|by apply Hk].
      * intros [(v & -> & Hin)|[Hk H]].
        -- apply elem_of_cons in Hin as [Heq|Hin].
           ++ injection Heq as -> ->. right. split; [done|].
              by rewrite lookup_insert_eq.
           ++ left. by exists v.
        -- simpl in Hk. apply not_elem_of_cons in Hk as [Hne Hk].
           right. split; [done|]. by rewrite lookup_insert_ne.
    + intros j Hj. rewrite lookup_insert_ne; [apply Hd; by right|].
      intros ->. by apply Hk0.
Qed.

(** When every name has exactly one value, the loop of [dict_from_uri]
    stores each of them. *)
Lemma fill_dict_lookup (uri : string) (items : list (string * list string))
    (d : gmap string string) :
  NoDup (items.*1) ->
  (forall k vs, (k, vs) ∈ items -> exists v, vs = [v]) ->
  exists r, fill_dict uri items d = Ok r /\
    forall k w, r !! k = Some w <->
      (k, [w]) ∈ items \/ ((k ∉ items.*1) /\ d !! k = Some w).
Proof.
  revert d. induction items as [|[k0 vs0] items IH]; intros d Hnd Hone; simpl.
  - exists d. split; [done|]. intros k w. split.
    + intros H. right. split; [apply not_elem_of_nil|done].
    + intros [H|[_ H]]; [by apply elem_of_nil in H|done].
  - apply NoDup_cons in Hnd as [Hk0 Hnd]. simpl in Hk0.
    destruct (Hone k0 vs0) as [v0 ->]; [left|]. simpl.
    destruct (IH (<[k0 := v0]> d) Hnd) as (r & Hr & Hlook).
    { intros k vs Hin. apply (Hone k vs). by right. }
    exists r. split; [done|]. intros k w. rewrite Hlook. split.
    + intros [Hin|[Hk H]].
      * left. by right.
      * destruct (decide (k0 = k)) as [->|Hne].
        -- rewrite lookup_insert_eq in H. injection H as <-. left. left.
        -- rewrite lookup_insert_ne in H by done. right. split; [|done].
           intros [->|Hin]%elem_of_cons; [done|by apply Hk].
    + intros [Hin|[Hk H]].
      * apply elem_of_cons in Hin as [Heq|Hin].
        -- injection Heq as -> ->. right. split; [done|].
           by rewrite lookup_insert_eq.
        -- by left.
      * apply not_elem_of_cons in Hk as [Hne Hk].
        right. split; [done|]. by rewrite lookup_insert_ne.
Qed.

(** ** Round trip *)

(** Characters that [urlparse] or [parse_qs] give a meaning to. *)
Definition query_safe (s : string) : bool := free_of "&;=+%#" s.
Definition type_safe (s : string) : bool := free_of ":?#" s.

(** [urlparse] on [sgtk:d...?q]: scheme, path and query. *)
Lemma urlparse_sgtk (p q : string) :
  str_contains "?" p = false ->
  str_contains "#" p = false ->
  str_contains "#" q = false ->
  urlparse ("sgtk:d" +:+ p +:+ String "?" q)
  = Ok (mkParseResult "sgtk" "" (String "d" p) q "").
Proof.
  intros Hq Hh Hqs.
  assert (str_contains "#" (p +:+ String "?" q) = false) as Hh'.
  { rewrite str_contains_app. simpl. by rewrite Hh, Hqs. }
  assert (str_contains "?" (p +:+ String "?" q) = true) as Hq'.
  { rewrite str_contains_app. simpl. by rewrite orb_true_r. }
  pose proof (str_split1_app "?" p q Hq) as Hcut.
  change ("sgtk:d" +:+ p +:+ String "?" q)
    with (String "s" (String "g" (String "t" (String "k" (String ":"
            (String "d" (p +:+ String "?" q))))))).
  remember (p +:+ String "?" q) as tl eqn:Htl. clear Htl.
  unfold urlparse. simpl. rewrite Hh'. simpl. rewrite Hq'.
  unfold cut. simpl. rewrite Hcut. reflexivity.
Qed.

(** A field that survives the trip through the query string. *)
Definition safe_field (item : string * string) : Prop :=
  query_safe item.1 = true /\ query_safe item.2 = true /\
  item.2 <> EmptyString.

Lemma qs_chunk_contains (c : ascii) (item : string * string) :
  str_contains c (qs_chunk item)
  = str_contains c item.1 || ascii_eqb "=" c || str_contains c item.2.
Proof.
  unfold qs_chunk. rewrite !str_contains_app. simpl.
  by rewrite orb_false_r, orb_assoc.
Qed.

Lemma qs_chunk_free (c : ascii) (item : string * string) :
  safe_field item ->
  str_contains c "&;=+%#" = true -> c <> "="%char ->
  str_contains c (qs_chunk item) = false.
Proof.
  intros (Hk & Hv & _) Hc Hne. rewrite qs_chunk_contains.
  rewrite (free_of_contains _ _ _ Hk Hc), (free_of_contains _ _ _ Hv Hc).
  unfold ascii_eqb. destruct (Ascii.eqb_spec "=" c) as [<-|]; done.
Qed.

Lemma qs_chunk_parsed (item : string * string) :
  safe_field item ->
  parse_pair (qs_chunk item) = Some item.
Proof.
  intros (Hk & Hv & Hne). destruct item as [k v]. simpl in *.
  unfold parse_pair, qs_chunk. simpl.
  change (k +:+ "=" +:+ v) with (k +:+ String "=" v).
  destruct (String.eqb_spec (k +:+ String "=" v) EmptyString) as [He|_].
  { destruct k; discriminate He. }
  rewrite str_split1_app
    by (apply (free_of_contains _ _ _ Hk); reflexivity).
  destruct (String.eqb_spec v EmptyString) as [->|_]; [done|].
  rewrite !str_replace_none
    by (eapply free_of_contains; [eassumption|reflexivity]).
  rewrite !unquote_none
    by (eapply free_of_contains; [eassumption|reflexivity]).
  reflexivity.
Qed.

Lemma parse_qsl_chunks (l : list (string * string)) :
  l <> [] -> Forall safe_field l ->
  parse_qsl (str_join "&" (map qs_chunk l)) = l.
Proof.
  intros Hne Hsafe. unfold parse_qsl.
  rewrite str_split_join.
  - induction Hsafe as [|item l Hitem _ IH]; [done|]. simpl.
    rewrite str_split_none by (apply qs_chunk_free; done). simpl.
    rewrite (qs_chunk_parsed item Hitem).
    destruct l as [|item' l]; [done|]. f_equal. by apply IH.
  - by destruct l.
  - apply Forall_map. eapply Forall_impl; [exact Hsafe|].
    intros item Hitem. apply qs_chunk_free; done.
Qed.

Lemma str_join_chunks_nonempty (l : list (string * string)) :
  l <> [] -> str_join "&" (map qs_chunk l) <> EmptyString.
Proof.
  destruct l as [|[k v] l]; [done|]. intros _ H.
  assert (str_contains "=" (str_join "&" (map qs_chunk ((k, v) :: l))) = true)
    as Hc; [|by rewrite H in Hc].
  destruct l as [|item l]; simpl.
  - rewrite qs_chunk_contains. simpl. by rewrite orb_true_r.
  - rewrite str_contains_app, qs_chunk_contains. simpl.
    by rewrite orb_true_r.
Qed.

Section RoundTrip.

Variable iteritems : forall V : Type, gmap string V -> list (string * V).
Variable str_of_dict : gmap string string -> string.
Hypothesis iteritems_perm :
  forall (V : Type) (d : gmap string V), iteritems V d ≡ₚ map_to_list d.

Variable identity : gmap string string.

(** The items that [uri_from_dict] writes to the query string. *)
Definition fields : list (string * string) :=
  filter (fun item => item.1 <> "type"%string) (iteritems _ identity).

Lemma elem_of_fields (k v : string) :
  (k, v) ∈ fields <-> identity !! k = Some v /\ k <> "type"%string.
Proof.
  unfold fields. rewrite list_elem_of_filter, (iteritems_perm _ identity).
  rewrite elem_of_map_to_list. simpl. tauto.
Qed.

Lemma NoDup_fields : NoDup (fields.*1).
Proof.
  unfold fields. apply NoDup_fmap_fst.
  - intros k v1 v2 [H1 _]%elem_of_fields [H2 _]%elem_of_fields. congruence.
  - apply NoDup_filter. rewrite (iteritems_perm _ identity).
    apply NoDup_map_to_list.
Qed.

Lemma parse_qs_fields (k : string) (vs : list string) :
  fold_left add_value fields ∅ !! k = Some vs <->
  exists v, vs = [v] /\ identity !! k = Some v /\ k <> "type"%string.
Proof.
  rewrite fold_add_value_lookup; [|apply NoDup_fields|done].
  setoid_rewrite elem_of_fields. rewrite lookup_empty. split.
  - intros [(v & -> & Hv)|[_ H]]; [by exists v|done].
  - intros (v & -> & Hv). left. by exists v.
Qed.

Variable type : string.
Hypothesis has_type : identity !! "type"%string = Some type.
Hypothesis type_is_safe : type_safe type = true.
Hypothesis has_field :
  exists k, k <> "type"%string /\ is_Some (identity !! k).
Hypothesis fields_are_safe :
  forall k v, identity !! k = Some v -> k <> "type"%string ->
              query_safe k = true /\ query_safe v = true /\
              v <> EmptyString.

Lemma fields_nonempty : fields <> [].
Proof.
  destruct has_field as (k & Hk & [v Hv]).
  intros H. assert ((k, v) ∈ fields) as Hin by by apply elem_of_fields.
  rewrite H in Hin. by apply elem_of_nil in Hin.
Qed.

Lemma fields_safe : Forall safe_field fields.
Proof.
  apply Forall_forall. intros [k v] [Hkv Hk]%elem_of_fields.
  by apply fields_are_safe.
Qed.

(** C4, amended: an identity with a type free of [:], [?] and [#], at
    least one further key, and further keys and values free of [&],
    [;], [=], [+], [%] and [#], no such value being empty, is returned
    unchanged by [dict_from_uri] applied to its [uri_from_dict],
    whatever the order in which the dictionaries hand out their items. *)
Theorem dict_from_uri_of_uri_from_dict :
  (uri ← uri_from_dict iteritems str_of_dict identity;
   dict_from_uri iteritems uri) = Ok identity.
Proof.
  unfold uri_from_dict. rewrite has_type. fold fields.
  set (qs := str_join "&" (map qs_chunk fields)).
  unfold mbind, result_bind, Py.bind.
  unfold dict_from_uri.
  set (uri := _ +:+ "?" +:+ qs).
  assert (urlparse uri
          = Ok (mkParseResult "sgtk" "" ("descriptor:" +:+ type) qs ""))
    as ->.
  { subst uri.
    change (_ +:+ "?" +:+ qs)
      with ("sgtk:d" +:+ ("escriptor:" +:+ type) +:+ String "?" qs).
    rewrite urlparse_sgtk; [done| | |].
    - rewrite str_contains_app. simpl.
      apply (free_of_contains _ _ _ type_is_safe). reflexivity.
    - rewrite str_contains_app. simpl.
      apply (free_of_contains _ _ _ type_is_safe). reflexivity.
    - apply str_contains_join; [done|].
      apply Forall_map. eapply Forall_impl; [apply fields_safe|].
      intros item Hitem. by apply qs_chunk_free. }
  clearbody uri. unfold mbind, result_bind, Py.bind. simpl.
  destruct (String.eqb_spec qs EmptyString) as [He|_].
  { by apply str_join_chunks_nonempty in He; [|apply fields_nonempty]. }
  change ("descriptor:" +:+ type)
    with ("descriptor" +:+ String DESCRIPTOR_URI_SEPARATOR type).
  rewrite str_split_app by done.
  rewrite str_split_none
    by (apply (free_of_contains _ _ _ type_is_safe); reflexivity).
  simpl. rewrite parse_qs_fold.
  unfold qs. rewrite parse_qsl_chunks by (apply fields_nonempty || apply fields_safe).
  set (Q := fold_left add_value fields ∅).
  destruct (fill_dict_lookup uri (iteritems _ Q) {[ "type"%string := type ]})
    as (r & -> & Hr).
  { rewrite (iteritems_perm _ Q). apply NoDup_fst_map_to_list. }
  { intros k vs. rewrite (iteritems_perm _ Q), elem_of_map_to_list.
    unfold Q. rewrite parse_qs_fields. intros (v & -> & _). by exists v. }
  f_equal. apply map_eq. intros k. apply option_eq. intros w.
  rewrite Hr. rewrite (iteritems_perm _ Q), elem_of_map_to_list.
  unfold Q at 1. rewrite parse_qs_fields. split.
  - intros [(v & [= <-] & Hv & _)|[_ Hty]]; [done|].
    apply lookup_singleton_Some in Hty as [<- <-]. exact has_type.
  - intros Hkw. destruct (decide (k = "type"%string)) as [->|Hne].
    + right. split.
      * intros ([k' vs] & Hk' & Hin)%list_elem_of_fmap. simpl in Hk'.
        subst k'. apply elem_of_map_to_list in Hin.
        apply parse_qs_fields in Hin as (_ & _ & _ & Hty). done.
      * rewrite has_type in Hkw. injection Hkw as <-.
        apply lookup_singleton_eq.
    + left. by exists w.
Qed.

End RoundTrip.

(** ** Where the round trip breaks *)

Definition codec (identity : gmap string string)
  : result (gmap string string) :=
  uri ← uri_from_dict sorted_items no_repr identity;
  dict_from_uri sorted_items uri.

(** The round trip as the specification words it: a type key, and
    values without [&] and [=]. *)
Definition roundtrip_as_specified : Prop :=
  forall identity : gmap string string,
    is_Some (identity !! "type"%string) ->
    (forall k v, identity !! k = Some v ->
                 str_contains "&" v = false /\ str_contains "=" v = false) ->
    codec identity = Ok identity.

Definition plus_identity : gmap string string :=
  {[ "type" := "app"; "name" := "a+b" ]}%string.

Lemma plus_becomes_space :
  codec plus_identity = Ok ({[ "type" := "app"; "name" := "a b" ]}%string).
Proof. vm_compute. reflexivity. Qed.

(** C4, as stated, fails: a [+] in a value comes back as a space. *)
Lemma roundtrip_as_specified_fails : ~ roundtrip_as_specified.
Proof.
  intros H. specialize (H plus_identity).
  rewrite plus_becomes_space in H.
  assert (Ok ({[ "type" := "app"; "name" := "a b" ]}%string : gmap string string)
          = Ok plus_identity) as Heq.
  { apply H.
    - by eexists.
    - intros k v Hkv. apply elem_of_map_to_list in Hkv.
      vm_compute in Hkv.
      repeat (apply elem_of_cons in Hkv as [[= -> ->]|Hkv]);
        [by vm_compute|by vm_compute|by apply elem_of_nil in Hkv]. }
  apply (f_equal (fun r : result (gmap string string) =>
                    match r with
                    | Ok d => d !! "name"%string
                    | Raise _ => None
                    end)) in Heq.
  vm_compute in Heq. discriminate Heq.
Qed.

(** Further inputs the specification allows and the codec changes or
    rejects. *)
Example blank_value_dropped :
  codec ({[ "type" := "app"; "name" := "" ]}%string)
  = Ok ({[ "type" := "app" ]}%string).
Proof. vm_compute. reflexivity. Qed.

Example type_alone_rejected :
  codec ({[ "type" := "app" ]}%string)
  = Raise (ValueError "need more than 1 value to unpack").
Proof. vm_compute. reflexivity. Qed.

Example percent_decoded :
  codec ({[ "type" := "app"; "name" := "%41" ]}%string)
  = Ok ({[ "type" := "app"; "name" := "A" ]}%string).
Proof. vm_compute. reflexivity. Qed.

Example semicolon_splits :
  codec ({[ "type" := "app"; "name" := "a;b" ]}%string)
  = Ok ({[ "type" := "app"; "name" := "a" ]}%string).
Proof. vm_compute. reflexivity. Qed.

Example hash_truncates :
  codec ({[ "type" := "app"; "name" := "a#b" ]}%string)
  = Ok ({[ "type" := "app"; "name" := "a" ]}%string).
Proof. vm_compute. reflexivity. Qed.

Example equals_in_key_moves :
  codec ({[ "type" := "app"; "a=b" := "c" ]}%string)
  = Ok ({[ "type" := "app"; "a" := "b=c" ]}%string).
Proof. vm_compute. reflexivity. Qed.

Example question_mark_in_type_cuts :
  codec ({[ "type" := "a?b"; "name" := "foo" ]}%string)
  = Ok ({[ "type" := "a"; "b?name" := "foo" ]}%string).
Proof. vm_compute. reflexivity. Qed.

Example colon_in_type_rejected :
  is_ok (codec ({[ "type" := "a:b"; "name" := "foo" ]}%string)) = false.
Proof. vm_compute. reflexivity. Qed.

Definition example_identity : gmap string string :=
  {[ "type" := "app"; "name" := "foo"; "version" := "v1.0.0" ]}%string.

Lemma dict_from_uri_of_uri_from_dict_witness :
  example_identity !! "type"%string = Some "app"%string /\
  codec example_identity = Ok example_identity.
Proof.
  split; [reflexivity|].
  apply (dict_from_uri_of_uri_from_dict sorted_items no_repr
           (fun V d => reflexivity _) example_identity "app").
  - reflexivity.
  - reflexivity.
  - exists "name"%string. split; [discriminate|]. eexists. reflexivity.
  - intros k v Hkv Hne. apply elem_of_map_to_list in Hkv.
    vm_compute in Hkv.
    repeat (apply elem_of_cons in Hkv as [[= -> ->]|Hkv]);
      [by vm_compute|by vm_compute|done|by apply elem_of_nil in Hkv].
Defined.

End UriFacts.


(* ===================================================================== *)
(** * Properties of the descriptor *)
(* ===================================================================== *)

Module DescriptorFacts.

Import Descriptor.

(** ** What [get_path] finds, as a function of the files *)

Definition metadata_path (path : string) : string :=
  path_join path [BUNDLE_METADATA_FILE].

Definition has_metadata (fs : gmap string node) (path : string) : bool :=
  bool_decide (is_Some (fs !! metadata_path path)).

Fixpoint first_local (fs : gmap string node) (paths : list string)
  : option string :=
  match paths with
  | [] => None
  | path :: rest => if has_metadata fs path then Some path else first_local fs rest
  end.

(** The existence checks made on the way. *)
Fixpoint probes (fs : gmap string node) (paths : list string) : list event :=
  match paths with
  | [] => []
  | path :: rest =>
      Exists (metadata_path path) ::
      (if has_metadata fs path then [] else probes fs rest)
  end.

(** The world after further calls. *)
Definition record (w : world) (es : list event) : world :=
  mkWorld (files w) (calls w ++ es).

Definition downloads (w : world) : nat := length (filter is_download (calls w)).
Definition opens (w : world) : nat := length (filter is_open (calls w)).

Lemma record_nil (w : world) : record w [] = w.
Proof. destruct w. unfold record. simpl. by rewrite app_nil_r. Qed.

Lemma record_record (w : world) (es1 es2 : list event) :
  record (record w es1) es2 = record w (es1 ++ es2).
Proof. unfold record. simpl. by rewrite app_assoc. Qed.

(** [first_local] returns the first candidate with a metadata file. *)
Lemma first_local_Some (fs : gmap string node) (paths : list string)
    (path : string) :
  first_local fs paths = Some path <->
  exists i, paths !! i = Some path /\ has_metadata fs path = true /\
            forall j other, (j < i)%nat -> paths !! j = Some other ->
                            has_metadata fs other = false.
Proof.
  induction paths as [|p rest IH]; simpl.
  - split; [done|]. by intros (i & Hi & _).
  - destruct (has_metadata fs p) eqn:Hp.
    + split.
      * intros [= <-]. exists O. repeat split; [done|]. intros j other Hj. lia.
      * intros (i & Hi & Hm & Hfirst). destruct i as [|i]; [by simpl in Hi|].
        specialize (Hfirst O p). rewrite Hp in Hfirst.
        discriminate Hfirst; [lia|done].
    + rewrite IH. split.
      * intros (i & Hi & Hm & Hfirst). exists (S i). repeat split; [done..|].
        intros [|j] other Hj Hother; simpl in Hother.
        -- by injection Hother as <-.
        -- apply (Hfirst j); [lia|done].
      * intros (i & Hi & Hm & Hfirst). destruct i as [|i]; simpl in Hi.
        -- injection Hi as ->. congruence.
        -- exists i. repeat split; [done..|]. intros j other Hj Hother.
           apply (Hfirst (S j)); [lia|done].
Qed.

Lemma first_local_None (fs : gmap string node) (paths : list string) :
  first_local fs paths = None <->
  forall path, path ∈ paths -> has_metadata fs path = false.
Proof.
  induction paths as [|p rest IH]; simpl.
  - split; [|done]. intros _ path H. by apply elem_of_nil in H.
  - destruct (has_metadata fs p) eqn:Hp.
    + split; [done|]. intros H. specialize (H p). rewrite Hp in H.
      discriminate H. left.
    + rewrite IH. split.
      * intros H path [->|Hin]%elem_of_cons; [done|by apply H].
      * intros H path Hin. apply H. by right.
Qed.

Lemma probes_no_download (fs : gmap string node) (paths : list string) :
  filter is_download (probes fs paths) = [].
Proof.
  induction paths as [|p rest IH]; [done|]. simpl.
  rewrite filter_cons_False by (simpl; tauto).
  by destruct (has_metadata fs p).
Qed.

Lemma probes_open_free (fs : gmap string node) (paths : list string) :
  filter is_open (probes fs paths) = [].
Proof.
  induction paths as [|p rest IH]; [done|]. simpl.
  rewrite filter_cons_False by (simpl; tauto).
  by destruct (has_metadata fs p).
Qed.

Section Facts.

Variable Manifest : Type.
Variable yaml_load : string -> result (option Manifest).
Variable _get_cache_paths : IODescriptorBase Manifest -> result (list string).
Variable download_local :
  IODescriptorBase Manifest -> gmap string node ->
  result unit * gmap string node.
Variable iteritems : forall V : Type, gmap string V -> list (string * V).
Variable str_of_dict : gmap string string -> string.

Lemma first_with_metadata_run (paths : list string)
    (self : IODescriptorBase Manifest) (w : world) :
  first_with_metadata paths (self, w)
  = (Ok (first_local (files w) paths),
     (self, record w (probes (files w) paths))).
Proof.
  revert w. induction paths as [|p rest IH]; intros w; simpl.
  - by rewrite record_nil.
  - unfold mbind, M_bind, os_path_exists, has_metadata, metadata_path. simpl.
    destruct (bool_decide _); simpl.
    + reflexivity.
    + rewrite IH. simpl. unfold record. simpl. by rewrite <- app_assoc.
Qed.

Lemma get_path_run (self : IODescriptorBase Manifest) (w : world)
    (paths : list string) :
  _get_cache_paths self = Ok paths ->
  get_path _get_cache_paths (self, w)
  = (Ok (first_local (files w) paths),
     (self, record w (probes (files w) paths))).
Proof.
  intros H. unfold get_path, mbind, M_bind, get_self, lift. simpl.
  rewrite H. apply first_with_metadata_run.
Qed.

Lemma exists_local_run (self : IODescriptorBase Manifest) (w : world)
    (paths : list string) :
  _get_cache_paths self = Ok paths ->
  exists_local _get_cache_paths (self, w)
  = (Ok (bool_decide (is_Some (first_local (files w) paths))),
     (self, record w (probes (files w) paths))).
Proof.
  intros H. unfold exists_local, mbind, M_bind.
  by rewrite (get_path_run _ _ _ H).
Qed.

Lemma get_path_cases (self : IODescriptorBase Manifest) (w : world) :
  get_path _get_cache_paths (self, w)
  = match _get_cache_paths self with
    | Ok paths => (Ok (first_local (files w) paths),
                   (self, record w (probes (files w) paths)))
    | Raise e => (Raise e, (self, w))
    end.
Proof.
  destruct (_get_cache_paths self) as [paths|e] eqn:H.
  - by apply get_path_run.
  - unfold get_path, mbind, M_bind, get_self, lift. simpl. by rewrite H.
Qed.

Lemma exists_local_cases (self : IODescriptorBase Manifest) (w : world) :
  exists_local _get_cache_paths (self, w)
  = match _get_cache_paths self with
    | Ok paths => (Ok (bool_decide (is_Some (first_local (files w) paths))),
                   (self, record w (probes (files w) paths)))
    | Raise e => (Raise e, (self, w))
    end.
Proof.
  unfold exists_local, mbind, M_bind. rewrite get_path_cases.
  by destruct (_get_cache_paths self).
Qed.

(** Every way [get_manifest] can end: it returns the value now stored on
    the instance, or it raises and leaves the instance as it was, with
    nothing stored. *)
Lemma get_manifest_outcome (self self' : IODescriptorBase Manifest)
    (w w' : world) (r : result (option Manifest)) :
  get_manifest yaml_load _get_cache_paths download_local (self, w)
    = (r, (self', w')) ->
  (exists v, r = Ok v /\ self' = set_manifest_data self v) \/
  (exists e, r = Raise e /\ self' = self /\ __manifest_data self = None).
Proof.
  unfold get_manifest, mbind, M_bind, get_self. simpl.
  destruct (__manifest_data self) as [data|] eqn:Hdata.
  { intros [= <- <- <-]. left. exists (Some data). split; [done|].
    destruct self. simpl in *. by subst. }
  rewrite exists_local_cases.
  destruct (_get_cache_paths self) as [paths|e] eqn:Hpaths.
  2:{ intros [= <- <- <-]. right. by exists e. }
  unfold call_download_local, os_path_exists, wrap_load_error, open_and_load,
    raise, mret, M_ret. simpl.
  destruct (bool_decide (is_Some (first_local (files w) paths))); simpl;
    [|destruct (download_local self (files w)) as [[[]|e] files']; simpl];
    try (intros [= <- <- <-]; right; by eexists);
    rewrite get_path_cases, Hpaths; simpl;
    (destruct (first_local _ paths) as [p|]; simpl;
     [|intros [= <- <- <-]; right; by eexists]);
    (destruct (bool_decide _); simpl;
     [|intros [= <- <- <-]; right; by eexists]);
    (destruct (_ !! _) as [[content|]|]; simpl;
     [destruct (yaml_load content) as [v|e]; simpl| |]);
    intros [= <- <- <-];
    solve [ left; by eexists | right; by eexists ].
Qed.

Lemma get_manifest_cached (self : IODescriptorBase Manifest) (w : world)
    (m : Manifest) :
  __manifest_data self = Some m ->
  get_manifest yaml_load _get_cache_paths download_local (self, w)
    = (Ok (Some m), (self, w)).
Proof.
  intros H. unfold get_manifest, mbind, M_bind, get_self. simpl. by rewrite H.
Qed.

(** The calls made by one load of a bundle that is already local. *)
Definition load_calls (fs : gmap string node) (paths : list string)
    (path : string) : list event :=
  probes fs paths ++ probes fs paths ++
  [Exists (metadata_path path); Open (metadata_path path)].

Lemma first_local_has_metadata (fs : gmap string node) (paths : list string)
    (path : string) :
  first_local fs paths = Some path -> has_metadata fs path = true.
Proof. intros H. by apply first_local_Some in H as (_ & _ & H & _). Qed.

(** A load from a bundle that is local and whose metadata file parses. *)
Lemma get_manifest_load (self : IODescriptorBase Manifest) (w : world)
    (paths : list string) (path content : string) (v : option Manifest) :
  __manifest_data self = None ->
  _get_cache_paths self = Ok paths ->
  first_local (files w) paths = Some path ->
  files w !! metadata_path path = Some (File content) ->
  yaml_load content = Ok v ->
  get_manifest yaml_load _get_cache_paths download_local (self, w)
    = (Ok v, (set_manifest_data self v,
              record w (load_calls (files w) paths path))).
Proof.
  intros Hdata Hpaths Hfirst Hfile Hyaml.
  unfold get_manifest, mbind, M_bind, get_self. simpl. rewrite Hdata.
  rewrite exists_local_cases, Hpaths, Hfirst. simpl.
  rewrite get_path_cases, Hpaths. simpl. rewrite Hfirst. simpl.
  unfold os_path_exists, wrap_load_error, open_and_load. simpl.
  unfold metadata_path in Hfile. simpl in Hfile.
  rewrite Hfile. simpl. rewrite Hfile.
  rewrite Hyaml. simpl. unfold mret, M_ret. simpl.
  unfold record, load_calls, metadata_path. simpl.
  by rewrite <- !app_assoc.
Qed.

Lemma set_manifest_data_same (self : IODescriptorBase Manifest) :
  set_manifest_data self (__manifest_data self) = self.
Proof. by destruct self. Qed.

Lemma ensure_local_when_local (self : IODescriptorBase Manifest) (w : world)
    (paths : list string) :
  _get_cache_paths self = Ok paths ->
  is_Some (first_local (files w) paths) ->
  ensure_local _get_cache_paths download_local iteritems str_of_dict (self, w)
    = (Ok tt, (self, record w (probes (files w) paths))).
Proof.
  intros Hpaths Hlocal. unfold ensure_local, mbind, M_bind.
  rewrite exists_local_cases, Hpaths.
  by rewrite bool_decide_eq_true_2.
Qed.

(** ** The manifest cache *)

(** C6: once [get_manifest] has returned a manifest, every later call on
    the instance returns that same value and touches nothing: whatever
    the files have become, the world comes back as it went in, with no
    existence check, no read and no download recorded. *)
Theorem manifest_is_memoized (self self1 : IODescriptorBase Manifest)
    (w w1 : world) (m : Manifest) :
  get_manifest yaml_load _get_cache_paths download_local (self, w)
    = (Ok (Some m), (self1, w1)) ->
  forall w2 : world,
    get_manifest yaml_load _get_cache_paths download_local (self1, w2)
      = (Ok (Some m), (self1, w2)) /\
    forall n : nat,
      repeat_call
        (get_manifest yaml_load _get_cache_paths download_local) n (self1, w2)
      = (Ok (replicate n (Some m)), (self1, w2)).
Proof.
  intros Hfirst w2.
  assert (__manifest_data self1 = Some m) as Hdata.
  { apply get_manifest_outcome in Hfirst as [(v & [= <-] & ->)|(e & He & _)];
      [done|discriminate He]. }
  split; [by apply get_manifest_cached|].
  induction n as [|n IH]; [done|].
  simpl. unfold mbind, M_bind in *.
  rewrite (get_manifest_cached _ _ _ Hdata), IH. done.
Qed.

(** C8: on a descriptor that is local, any number of [ensure_local]
    calls in a row return without a single [download_local]: the files
    are untouched and the count of downloads stays what it was. *)
Theorem ensure_local_idempotent (self : IODescriptorBase Manifest)
    (w : world) (n : nat) :
  (exists_local _get_cache_paths (self, w)).1 = Ok true ->
  exists w' : world,
    repeat_call
      (ensure_local _get_cache_paths download_local iteritems str_of_dict)
      n (self, w)
    = (Ok (replicate n tt), (self, w')) /\
    files w' = files w /\
    downloads w' = downloads w.
Proof.
  rewrite exists_local_cases.
  destruct (_get_cache_paths self) as [paths|e] eqn:Hpaths; [|done]. simpl.
  intros [= Hlocal]. apply bool_decide_eq_true in Hlocal.
  revert w Hlocal. induction n as [|n IH]; intros w Hlocal.
  - exists w. done.
  - simpl. unfold mbind, M_bind.
    rewrite (ensure_local_when_local _ _ _ Hpaths Hlocal).
    destruct (IH (record w (probes (files w) paths)) Hlocal)
      as (w' & -> & Hfiles & Hdown).
    exists w'. repeat split; [done|].
    rewrite Hdown. unfold downloads, record. simpl.
    rewrite filter_app, length_app.
    rewrite probes_no_download. simpl. lia.
Qed.

(** C10: [None] is what marks the cache as empty, so only a value other
    than [None] is ever served from it; when the metadata file parses to
    YAML null, each of [n] calls in a row returns [None] after making
    the existence checks and reading the file again, and the instance
    still holds nothing.  Nothing is served from a cache afterwards: the
    call that follows reads the file as it then is and returns, and
    stores, what that text parses to. *)
Theorem yaml_null_is_never_cached (self : IODescriptorBase Manifest)
    (w : world) (paths : list string) (path content : string) (n : nat) :
  __manifest_data self = None ->
  _get_cache_paths self = Ok paths ->
  first_local (files w) paths = Some path ->
  files w !! metadata_path path = Some (File content) ->
  yaml_load content = Ok None ->
  exists (self_n : IODescriptorBase Manifest) (w_n : world),
    repeat_call (get_manifest yaml_load _get_cache_paths download_local) n
      (self, w)
    = (Ok (replicate n None), (self_n, w_n)) /\
    self_n = self /\
    w_n = record w (concat (replicate n (load_calls (files w) paths path))) /\
    opens w_n = (opens w + n)%nat /\
    (forall (w2 : world) (path2 content2 : string) (v : option Manifest),
       first_local (files w2) paths = Some path2 ->
       files w2 !! metadata_path path2 = Some (File content2) ->
       yaml_load content2 = Ok v ->
       get_manifest yaml_load _get_cache_paths download_local (self_n, w2)
       = (Ok v, (set_manifest_data self_n v,
                 record w2 (load_calls (files w2) paths path2)))) /\
    forall (self0 self1 : IODescriptorBase Manifest) (w0 w1 : world)
           (r : result (option Manifest)) (m : Manifest),
      get_manifest yaml_load _get_cache_paths download_local (self0, w0)
        = (r, (self1, w1)) ->
      __manifest_data self1 = Some m -> r = Ok (Some m).
Proof.
  intros Hdata Hpaths Hfirst Hfile Hyaml.
  exists self,
    (record w (concat (replicate n (load_calls (files w) paths path)))).
  split; [|split; [done|split; [done|split; [|split]]]].
  - revert w Hfirst Hfile. induction n as [|n IH]; intros w Hfirst Hfile.
    + simpl. by rewrite record_nil.
    + simpl. unfold mbind, M_bind.
      rewrite (get_manifest_load _ _ _ _ _ _ Hdata Hpaths Hfirst Hfile Hyaml).
      rewrite <- Hdata at 1. rewrite set_manifest_data_same.
      rewrite (IH (record w _)) by done. simpl.
      by rewrite record_record.
  - unfold opens, record. simpl. rewrite filter_app, length_app. f_equal.
    induction n as [|n IH]; [done|]. simpl.
    rewrite filter_app, length_app, IH. unfold load_calls.
    rewrite !filter_app, !length_app.
    by rewrite !probes_open_free.
  - intros w2 path2 content2 v Hfirst2 Hfile2 Hyaml2.
    by apply (get_manifest_load self w2 paths path2 content2 v).
  - intros self0 self1 w0 w1 r m Hrun Hm.
    apply get_manifest_outcome in Hrun as [(v & -> & ->)|(e & _ & -> & Hnone)].
    + simpl in Hm. by subst v.
    + congruence.
Qed.

End Facts.

(** ** The worked example of the specification *)

Definition example_descriptor {Manifest : Type} (data : option Manifest)
  : IODescriptorBase Manifest :=
  mkDescriptor (Some "/P"%string) ["/F1"; "/F2"]%string
    ({[ "type" := "app"; "name" := "foo"; "version" := "v1.0.0" ]}%string)
    data.

Definition example_candidates : list string :=
  ["/P/app/foo/v1.0.0"; "/P/apps/app/foo/v1.0.0";
   "/F1/app/foo/v1.0.0"; "/F1/apps/app/foo/v1.0.0";
   "/F2/app/foo/v1.0.0"; "/F2/apps/app/foo/v1.0.0"]%string.

(** C5: for type app, name foo, version v1.0.0, primary root /P and
    fallback roots /F1 and /F2, the candidates are the new-style and the
    legacy path under /P, then under /F1, then under /F2; [get_path]
    checks them in that order for info.yml and returns the first that
    has it, or [None] when none has, and [exists_local] tells which of
    the two happened. *)
Theorem cache_path_order (Manifest : Type) (data : option Manifest)
    (w : world) :
  let self := example_descriptor data in
  resolve_cache_paths self = Ok example_candidates /\
  map metadata_path example_candidates
    = ["/P/app/foo/v1.0.0/info.yml"; "/P/apps/app/foo/v1.0.0/info.yml";
       "/F1/app/foo/v1.0.0/info.yml"; "/F1/apps/app/foo/v1.0.0/info.yml";
       "/F2/app/foo/v1.0.0/info.yml"; "/F2/apps/app/foo/v1.0.0/info.yml"]%string
  /\
  exists found : option string,
    get_path resolve_cache_paths (self, w)
      = (Ok found, (self, record w (probes (files w) example_candidates))) /\
    exists_local resolve_cache_paths (self, w)
      = (Ok (bool_decide (is_Some found)),
         (self, record w (probes (files w) example_candidates))) /\
    match found with
    | Some path =>
        exists i, example_candidates !! i = Some path /\
                  is_Some (files w !! metadata_path path) /\
                  forall j other, (j < i)%nat ->
                                  example_candidates !! j = Some other ->
                                  files w !! metadata_path other = None
    | None =>
        forall path, path ∈ example_candidates ->
                     files w !! metadata_path path = None
    end.
Proof.
  intros self.
  assert (resolve_cache_paths self = Ok example_candidates) as Hpaths
    by (vm_compute; reflexivity).
  split; [exact Hpaths|]. split; [vm_compute; reflexivity|].
  exists (first_local (files w) example_candidates).
  split; [by apply get_path_run|]. split; [by apply exists_local_run|].
  destruct (first_local (files w) example_candidates) as [path|] eqn:Hfirst.
  - apply first_local_Some in Hfirst as (i & Hi & Hm & Hbefore).
    exists i. split; [done|]. split.
    + by apply bool_decide_eq_true in Hm.
    + intros j other Hj Hother. specialize (Hbefore j other Hj Hother).
      apply bool_decide_eq_false in Hbefore.
      by apply eq_None_not_Some.
  - intros path Hin.
    pose proof (proj1 (first_local_None _ _) Hfirst path Hin) as Hm.
    apply bool_decide_eq_false in Hm. by apply eq_None_not_Some.
Qed.

(** On a disk where only the legacy path under /P and the new-style path
    under /F1 hold a bundle, the legacy path under /P wins. *)
Example cache_path_order_legacy_first :
  first_local
    ({[ "/F1/app/foo/v1.0.0/info.yml" := File "a";
        "/P/apps/app/foo/v1.0.0/info.yml" := File "b" ]}%string)
    example_candidates
  = Some "/P/apps/app/foo/v1.0.0"%string.
Proof. vm_compute. reflexivity. Qed.

(** ** A provider to run the manifest cache against *)

(** A parser stand-in: the empty text is YAML null, text that starts with
    a colon does not parse, any other text is its own manifest. *)
Definition example_yaml (content : string) : result (option string) :=
  match content with
  | EmptyString => Ok None
  | String ":" _ => Raise (ValueError "mapping values are not allowed here")
  | _ => Ok (Some content)
  end.

(** A provider that unpacks the bundle under the primary root. *)
Definition example_download (self : IODescriptorBase string)
    (fs : gmap string node) : result unit * gmap string node :=
  (Ok tt, <[ "/P/app/foo/v1.0.0/info.yml"%string := File "configuration: {}" ]> fs).

Definition example_get_manifest : M string (option string) :=
  get_manifest example_yaml resolve_cache_paths example_download.

Definition example_ensure_local : M string unit :=
  ensure_local resolve_cache_paths example_download
    Uri.sorted_items Uri.no_repr.

Definition fallback_world (content : string) : world :=
  mkWorld {[ "/F1/app/foo/v1.0.0/info.yml"%string := File content ]} [].

Definition empty_world : world := mkWorld ∅ [].

(** A provider whose download leaves the disk as it is. *)
Definition idle_download (self : IODescriptorBase string)
    (fs : gmap string node) : result unit * gmap string node :=
  (Ok tt, fs).

(** When no candidate holds a metadata file after the download,
    [get_path] returns [None] and the failure comes from joining it with
    the file name; the instance still holds nothing. *)
Example still_absent_after_download :
  let run := get_manifest example_yaml resolve_cache_paths idle_download
               (example_descriptor None, empty_world) in
  run.1 = Raise (AttributeError "'NoneType' object has no attribute 'endswith'")
  /\ run.2.1 = example_descriptor None
  /\ downloads run.2.2 = 1%nat.
Proof. vm_compute. repeat split. Qed.

(** The first call on a fresh descriptor and an empty disk: the bundle
    is downloaded, read and stored. *)
Definition after_first_call
  : result (option string) * (IODescriptorBase string * world) :=
  example_get_manifest (example_descriptor None, empty_world).

Lemma manifest_is_memoized_witness :
  after_first_call.1 = Ok (Some "configuration: {}"%string) /\
  downloads after_first_call.2.2 = 1%nat /\
  example_get_manifest (after_first_call.2.1, empty_world)
    = (Ok (Some "configuration: {}"%string),
       (after_first_call.2.1, empty_world)).
Proof.
  split; [vm_compute; reflexivity|].
  split; [vm_compute; reflexivity|].
  apply (manifest_is_memoized string example_yaml resolve_cache_paths
           example_download (example_descriptor None) after_first_call.2.1
           empty_world after_first_call.2.2 "configuration: {}").
  vm_compute. reflexivity.
Defined.


Lemma ensure_local_idempotent_witness :
  (exists_local resolve_cache_paths
     (example_descriptor (None : option string),
      fallback_world "configuration: {}")).1 = Ok true /\
  exists w' : world,
    repeat_call example_ensure_local 3
      (example_descriptor None, fallback_world "configuration: {}")
    = (Ok [tt; tt; tt], (example_descriptor None, w')) /\
    files w' = files (fallback_world "configuration: {}") /\
    downloads w' = 0%nat.
Proof.
  split; [vm_compute; reflexivity|].
  apply (ensure_local_idempotent string resolve_cache_paths example_download
           Uri.sorted_items Uri.no_repr
           (example_descriptor None) (fallback_world "configuration: {}") 3).
  vm_compute. reflexivity.
Defined.

Lemma yaml_null_is_never_cached_witness :
  exists (self_n : IODescriptorBase string) (w_n : world),
    repeat_call example_get_manifest 2 (example_descriptor None, fallback_world "")
    = (Ok [None; None], (self_n, w_n)) /\
    opens w_n = 2%nat /\
    example_get_manifest (self_n, fallback_world "configuration: {}")
    = (Ok (Some "configuration: {}"%string),
       (example_descriptor (Some "configuration: {}"%string),
        record (fallback_world "configuration: {}")
          (load_calls (files (fallback_world "configuration: {}"))
             example_candidates "/F1/app/foo/v1.0.0"))).
Proof.
  destruct (yaml_null_is_never_cached string example_yaml resolve_cache_paths
              example_download (example_descriptor None) (fallback_world "")
              example_candidates "/F1/app/foo/v1.0.0" "" 2)
    as (self_n & w_n & Hrun & Hself & _ & Hopens & Hlater & _);
    [vm_compute; reflexivity..|].
  exists self_n, w_n. split; [exact Hrun|]. split; [exact Hopens|].
  refine (eq_trans
            (Hlater (fallback_world "configuration: {}") "/F1/app/foo/v1.0.0"
               "configuration: {}" (Some "configuration: {}"%string) _ _ _) _).
  - vm_compute. reflexivity.
  - vm_compute. reflexivity.
  - reflexivity.
  - by rewrite Hself.
Defined.

End DescriptorFacts.

(* ===================================================================== *)
(** * More on the version pattern matcher *)
(* ===================================================================== *)

Module MatcherFacts.

Import Version VersionFacts.

(** ** The tags as a set *)

Lemma insert_path_idem (p : list Z) (t : trie) :
  insert_path p (insert_path p t) = insert_path p t.
Proof.
  revert t. induction p as [|n p IH]; intros t; [done|]. simpl.
  rewrite lookup_insert_eq, insert_insert_eq. simpl. by rewrite IH.
Qed.

Lemma add_version_idem (t : trie) (tag : string) :
  add_version (add_version t tag) tag = add_version t tag.
Proof.
  unfold add_version. destruct (parse_version tag) as [q|]; [|done].
  destruct (length q <? 3)%nat; [done|]. apply insert_path_idem.
Qed.

(** A tag that comes again later in the list adds nothing. *)
Lemma fold_add_version_absorbs (l : list string) (t : trie) (tag : string) :
  tag ∈ l ->
  fold_left add_version l (add_version t tag) = fold_left add_version l t.
Proof.
  revert t. induction l as [|y l IH]; intros t Hin.
  - by apply elem_of_nil in Hin.
  - simpl. destruct (decide (tag = y)) as [->|Hne].
    + by rewrite add_version_idem.
    + apply elem_of_cons in Hin as [?|Hin]; [done|].
      rewrite add_version_comm. by apply IH.
Qed.

Lemma fold_add_version_remove_dups (l : list string) (t : trie) :
  fold_left add_version (remove_dups l) t = fold_left add_version l t.
Proof.
  revert t. induction l as [|x l IH]; intros t; [done|]. simpl.
  destruct (decide_rel elem_of x l) as [Hin|Hnin]; simpl.
  - rewrite IH. symmetry. by apply fold_add_version_absorbs.
  - apply IH.
Qed.

Lemma build_versions_same_elements (l1 l2 : list string) :
  (forall tag, tag ∈ l1 <-> tag ∈ l2) ->
  build_versions l1 = build_versions l2.
Proof.
  intros Hsame. unfold build_versions.
  rewrite <- (fold_add_version_remove_dups l1),
          <- (fold_add_version_remove_dups l2).
  apply build_versions_perm. apply NoDup_Permutation.
  - apply NoDup_remove_dups.
  - apply NoDup_remove_dups.
  - intros tag. rewrite !elem_of_remove_dups. apply Hsame.
Qed.

(** The list of tags reaches the walk only through the text of the
    no-match error. *)
Lemma walk_pattern_tags (system_name : string) (l1 l2 : list string)
    (pattern : string) (version_split : list string) (current : trie)
    (acc : option string) :
  match walk_pattern system_name l1 pattern version_split current acc,
        walk_pattern system_name l2 pattern version_split current acc with
  | Ok r1, Ok r2 => r1 = r2
  | Raise e1, Raise e2 =>
      e1 = e2 \/
      (NoMatchingVersion system_name l1 pattern e1 /\
       NoMatchingVersion system_name l2 pattern e2)
  | _, _ => False
  end.
Proof.
  revert current acc.
  induction version_split as [|segment rest IH]; intros current acc; simpl.
  - done.
  - unfold mbind, result_bind, Py.bind.
    destruct (if String.eqb segment "x" then py_max_keys (children current)
              else match py_int segment with
                   | Some n => Ok n
                   | None => _
                   end) as [d|e]; [|by left].
    destruct (children current !! d) as [sub|]; [apply IH|].
    right. by split.
Qed.

(** X2: the outcome depends on the tags as a set: two lists with the
    same elements, in any order and with any repetitions, give the same
    result or the same error, except that the no-match error lists the
    tags as they were passed. *)
Theorem outcome_depends_on_set_of_tags (system_name : string)
    (l1 l2 : list string) (pattern : string) :
  (forall tag, tag ∈ l1 <-> tag ∈ l2) ->
  match _find_latest_tag_by_pattern system_name l1 pattern,
        _find_latest_tag_by_pattern system_name l2 pattern with
  | Ok v1, Ok v2 => v1 = v2
  | Raise e1, Raise e2 =>
      e1 = e2 \/
      (NoMatchingVersion system_name l1 pattern e1 /\
       NoMatchingVersion system_name l2 pattern e2)
  | _, _ => False
  end.
Proof.
  intros Hsame. unfold _find_latest_tag_by_pattern.
  rewrite (build_versions_same_elements l1 l2 Hsame).
  destruct (negb _); [by left|]. destruct (_ && _); [by left|].
  unfold mbind, result_bind, Py.bind.
  pose proof (walk_pattern_tags system_name l1 l2 pattern
                (Re.findall_segments pattern) (build_versions l2) None) as H.
  destruct (walk_pattern system_name l1 _ _ _ _) as [[node1 acc1]|e1],
           (walk_pattern system_name l2 _ _ _ _) as [[node2 acc2]|e2];
    try done.
  injection H as -> ->.
  destruct acc2 as [v|]; [done|]. case_bool_decide; [done|by left].
Qed.

Lemma outcome_depends_on_set_of_tags_witness :
  _find_latest_tag_by_pattern "tk-app"
    ["v1.2.3"; "v1.10.0"; "v1.2.3"; "junk"]%string "v1.x.x"
  = Ok (Some "v1.10.0"%string) /\
  match _find_latest_tag_by_pattern "tk-app"
          ["v1.2.3"; "v1.10.0"; "v1.2.3"; "junk"]%string "v1.x.x",
        _find_latest_tag_by_pattern "tk-app"
          ["junk"; "v1.10.0"; "v1.2.3"]%string "v1.x.x" with
  | Ok v1, Ok v2 => v1 = v2
  | Raise e1, Raise e2 =>
      e1 = e2 \/
      (NoMatchingVersion "tk-app"
         ["v1.2.3"; "v1.10.0"; "v1.2.3"; "junk"]%string "v1.x.x" e1 /\
       NoMatchingVersion "tk-app"
         ["junk"; "v1.10.0"; "v1.2.3"]%string "v1.x.x" e2)
  | _, _ => False
  end.
Proof.
  split; [vm_compute; reflexivity|].
  apply (outcome_depends_on_set_of_tags "tk-app"
           ["v1.2.3"; "v1.10.0"; "v1.2.3"; "junk"]%string
           ["junk"; "v1.10.0"; "v1.2.3"]%string "v1.x.x").
  intros tag. rewrite !elem_of_cons, !elem_of_nil. tauto.
Defined.

(** ** What is returned, and when *)

(** X1: whenever the matcher returns, the text returned prints the
    greatest version, among those of the tags that split into at least
    three integers, that is consistent with the pattern; when every such
    tag prints back to itself, what is returned is one of the tags. *)
Theorem returned_version_is_greatest (system_name : string)
    (version_numbers : list string) (pattern v : string) :
  _find_latest_tag_by_pattern system_name version_numbers pattern
    = Ok (Some v) ->
  exists r,
    parsed version_numbers r /\
    render_version r = Some v /\
    consistent (Re.findall_segments pattern) r /\
    (forall q, parsed version_numbers q ->
               consistent (Re.findall_segments pattern) q ->
               version_le q r) /\
    ((forall tag q, tag ∈ version_numbers -> parse_version tag = Some q ->
                    render_version q = Some tag) ->
     v ∈ version_numbers).
Proof.
  intros (r & Hr & Hv & Hcons & Hmax)%find_latest_is_greatest.
  exists r. repeat split; try done.
  intros Hcanon. destruct Hr as (tag & Hin & Hparse & _).
  specialize (Hcanon tag r Hin Hparse). rewrite Hv in Hcanon.
  by injection Hcanon as ->.
Qed.

Lemma returned_version_is_greatest_witness :
  _find_latest_tag_by_pattern "tk-app" example_tags "v1.x.x"
    = Ok (Some "v1.4.2.2"%string) /\
  exists r,
    parsed example_tags r /\
    render_version r = Some "v1.4.2.2"%string /\
    consistent (Re.findall_segments "v1.x.x") r /\
    (forall q, parsed example_tags q ->
               consistent (Re.findall_segments "v1.x.x") q ->
               version_le q r) /\
    ((forall tag q, tag ∈ example_tags -> parse_version tag = Some q ->
                    render_version q = Some tag) ->
     "v1.4.2.2"%string ∈ example_tags).
Proof.
  split; [vm_compute; reflexivity|].
  apply (returned_version_is_greatest "tk-app" example_tags "v1.x.x").
  vm_compute. reflexivity.
Defined.

(** Patterns whose wildcards all come last: concrete segments, then
    wildcards only. *)
Definition wildcards_last (version_split : list string) (concrete : list string)
    (wildcards : nat) : Prop :=
  version_split = concrete ++ replicate wildcards "x"%string /\
  Forall (fun segment => segment <> "x"%string) concrete.

Section Last.

Variable system_name : string.
Variable version_numbers : list string.
Variable pattern : string.

(** On wildcards alone the walk never reports that no version matches. *)
Lemma walk_wildcards_no_mismatch (wildcards : nat) (current : trie)
    (acc : option string) (msg : string) :
  walk_pattern system_name version_numbers pattern
    (replicate wildcards "x"%string) current acc
  <> Raise (TankDescriptorError msg).
Proof.
  revert current acc. induction wildcards as [|j IH]; intros current acc; simpl.
  - done.
  - unfold mbind, result_bind, Py.bind, py_max_keys.
    pose proof (max_key_spec (children current)) as Hspec.
    destruct (max_key (children current)) as [k|]; [|done].
    destruct Hspec as [[c Hc] _]. rewrite Hc. apply IH.
Qed.

(** When the walk reports that no version matches, no path of the
    dictionary is consistent with the pattern. *)
Lemma walk_mismatch_sound (concrete : list string) (wildcards : nat)
    (current : trie) (acc : option string) (msg : string) :
  Forall (fun segment => segment <> "x"%string) concrete ->
  walk_pattern system_name version_numbers pattern
    (concrete ++ replicate wildcards "x"%string) current acc
  = Raise (TankDescriptorError msg) ->
  forall q, is_Some (subtrie q current) ->
            ~ consistent (concrete ++ replicate wildcards "x"%string) q.
Proof.
  intros Hconcrete. revert current acc.
  induction Hconcrete as [|segment rest Hnx _ IH]; intros current acc; simpl.
  - intros H. by apply walk_wildcards_no_mismatch in H.
  - unfold mbind, result_bind, Py.bind.
    destruct (String.eqb_spec segment "x") as [?|_]; [done|].
    destruct (py_int segment) as [d|] eqn:Hd; [|done].
    destruct (children current !! d) as [sub|] eqn:Hsub.
    + intros Hwalk [|n q] Hq; [tauto|]. simpl in *.
      intros [[?|Hn] Hcons]; [done|]. injection Hn as <-.
      rewrite Hsub in Hq. by apply (IH sub _ Hwalk q).
    + intros _ [|n q] Hq; [tauto|]. simpl in *.
      intros [[?|Hn] _]; [done|]. injection Hn as <-.
      rewrite Hsub in Hq. by destruct Hq.
Qed.

(** X4: for a pattern whose wildcards all come last, the no-match
    error is raised only when no tag with at least three integers is
    consistent with the pattern. *)
Theorem no_match_means_none_consistent (concrete : list string)
    (wildcards : nat) (e : exn) :
  wildcards_last (Re.findall_segments pattern) concrete wildcards ->
  _find_latest_tag_by_pattern system_name version_numbers pattern = Raise e ->
  NoMatchingVersion system_name version_numbers pattern e ->
  forall q, parsed version_numbers q ->
            ~ consistent (Re.findall_segments pattern) q.
Proof.
  intros [Hsplit Hconcrete] Hraise He q Hq.
  unfold _find_latest_tag_by_pattern in Hraise. unfold NoMatchingVersion in He.
  subst e. unfold msg_no_match, msg_cannot_parse, msg_digit_after_x in Hraise.
  destruct (negb _); [discriminate Hraise|].
  destruct (_ && _); [discriminate Hraise|].
  unfold mbind, result_bind, Py.bind in Hraise.
  destruct (walk_pattern _ _ _ _ _ _) as [[node [v|]]|e] eqn:Hwalk.
  - discriminate Hraise.
  - by case_bool_decide.
  - injection Hraise as ->. rewrite Hsplit in Hwalk |- *.
    apply (walk_mismatch_sound _ _ _ _ _ Hconcrete Hwalk).
    apply subtrie_build_versions. right. by exists q.
Qed.

End Last.

Lemma no_match_means_none_consistent_witness :
  wildcards_last (Re.findall_segments "v9.0.x") ["9"; "0"]%string 1 /\
  forall q, parsed example_tags q ->
            ~ consistent (Re.findall_segments "v9.0.x") q.
Proof.
  assert (wildcards_last (Re.findall_segments "v9.0.x") ["9"; "0"]%string 1)
    as Hshape.
  { split; [vm_compute; reflexivity|]. by repeat constructor. }
  split; [exact Hshape|].
  apply (no_match_means_none_consistent "tk-app" example_tags "v9.0.x"
           ["9"; "0"]%string 1
           (TankDescriptorError (msg_no_match "tk-app" example_tags "v9.0.x"))
           Hshape).
  - vm_compute. reflexivity.
  - reflexivity.
Defined.

(** ** Patterns of three segments always find what is there *)

(** Every dictionary met within [n] levels has entries. *)
Fixpoint deep (n : nat) (t : trie) : Prop :=
  match n with
  | O => True
  | S n' =>
      children t <> ∅ /\
      forall k c, children t !! k = Some c -> deep n' c
  end.

Lemma deep_le (n m : nat) (t : trie) : (m <= n)%nat -> deep n t -> deep m t.
Proof.
  revert m t. induction n as [|n IH]; intros [|m] t Hle; simpl; try done; [lia|].
  intros [Hne Hsub]. split; [done|]. intros k c Hc. apply IH; [lia|by eapply Hsub].
Qed.

Lemma deep_of_paths (n : nat) (t : trie) :
  (forall p, (length p < n)%nat -> is_Some (subtrie p t) ->
             exists k, is_Some (subtrie (p ++ [k]) t)) ->
  deep n t.
Proof.
  revert t. induction n as [|n IH]; intros t Hext; simpl; [done|]. split.
  - destruct (Hext []) as [k Hk]; [simpl; lia|by eexists|].
    simpl in Hk. intros Hempty. rewrite Hempty, lookup_empty in Hk.
    by destruct Hk.
  - intros k c Hc. apply IH. intros p Hlen Hp.
    destruct (Hext (k :: p)) as [k' Hk']; [simpl; lia|by simpl; rewrite Hc|].
    exists k'. simpl in Hk'. by rewrite Hc in Hk'.
Qed.

(** As soon as one tag is accepted, the first three levels of the
    dictionary have entries wherever they are reached. *)
Lemma build_versions_deep (version_numbers : list string) (q : list Z) :
  parsed version_numbers q -> deep 3 (build_versions version_numbers).
Proof.
  intros Hq. apply deep_of_paths. intros p Hlen Hp.
  assert (exists q', parsed version_numbers q' /\ p `prefix_of` q')
    as (q' & Hq' & [rest ->]).
  { apply subtrie_build_versions in Hp as [->|H]; [|done].
    exists q. split; [done|apply prefix_nil]. }
  destruct rest as [|k rest].
  { destruct Hq' as (_ & _ & _ & Hl). rewrite app_nil_r in Hl. lia. }
  exists k. apply subtrie_build_versions. right.
  exists (p ++ k :: rest). split; [done|].
  exists rest. by rewrite <- app_assoc.
Qed.

Lemma render_onto_started (v : string) (ps : list Z) :
  is_Some (render_onto (Some v) ps).
Proof.
  revert v. induction ps as [|n ps IH]; intros v; [by eexists|]. apply IH.
Qed.

Section Complete.

Variable system_name : string.
Variable version_numbers : list string.
Variable pattern : string.

Lemma walk_wildcards_succeeds (wildcards : nat) (current : trie)
    (acc : option string) :
  deep wildcards current ->
  is_ok (walk_pattern system_name version_numbers pattern
           (replicate wildcards "x"%string) current acc) = true.
Proof.
  revert current acc. induction wildcards as [|j IH]; intros current acc; simpl.
  - done.
  - intros [Hne Hsub].
    unfold mbind, result_bind, Py.bind, py_max_keys.
    pose proof (max_key_spec (children current)) as Hspec.
    destruct (max_key (children current)) as [k|]; [|done].
    destruct Hspec as [[c Hc] _]. rewrite Hc. apply IH. by eapply Hsub.
Qed.

Lemma walk_succeeds (concrete : list string) (wildcards : nat)
    (current : trie) (acc : option string) (q : list Z) :
  Forall (fun segment => segment <> "x"%string) concrete ->
  deep (length concrete + wildcards) current ->
  is_Some (subtrie q current) ->
  consistent (concrete ++ replicate wildcards "x"%string) q ->
  is_ok (walk_pattern system_name version_numbers pattern
           (concrete ++ replicate wildcards "x"%string) current acc) = true.
Proof.
  intros Hconcrete. revert current acc q.
  induction Hconcrete as [|segment rest Hnx _ IH]; intros current acc q; simpl.
  - intros Hdeep _ _. by apply walk_wildcards_succeeds.
  - intros [_ Hdeep] Hq Hcons. destruct q as [|n q]; [done|]. simpl in *.
    destruct Hcons as [[?|Hn] Hcons]; [done|].
    unfold mbind, result_bind, Py.bind.
    destruct (String.eqb_spec segment "x") as [?|_]; [done|].
    rewrite Hn. destruct (children current !! n) as [sub|] eqn:Hsub;
      [|by destruct Hq].
    apply (IH sub _ q); [by eapply Hdeep|done|done].
Qed.

(** X3: for a pattern of at most three segments that passes the
    grammar check, passes the digit-after-x check when it has a wildcard
    (the check is not run otherwise), and has its wildcards, if any,
    last, the matcher returns a version as soon as one tag with at least
    three integers is consistent with the pattern: it raises neither the
    no-match error nor anything else.  Patterns without a wildcard, such
    as v1.2.3, are included. *)
Theorem three_segment_pattern_finds_match (concrete : list string)
    (wildcards : nat) (q : list Z) :
  Re.match_anchored Re.version_grammar pattern = true ->
  (existsb (String.eqb "x") (Re.findall_segments pattern) = true ->
   Re.match_anchored Re.digit_after_x pattern = false) ->
  wildcards_last (Re.findall_segments pattern) concrete wildcards ->
  (0 < length (Re.findall_segments pattern) <= 3)%nat ->
  parsed version_numbers q ->
  consistent (Re.findall_segments pattern) q ->
  exists v,
    _find_latest_tag_by_pattern system_name version_numbers pattern
      = Ok (Some v).
Proof.
  intros Hgrammar Hdigit [Hsplit Hconcrete] [Hpos Hlen] Hq Hcons.
  unfold _find_latest_tag_by_pattern.
  rewrite Hgrammar. simpl negb. cbv iota.
  assert (existsb (String.eqb "x") (Re.findall_segments pattern) &&
          Re.match_anchored Re.digit_after_x pattern = false) as ->.
  { destruct (existsb _ _); [|done]. by rewrite Hdigit. }
  unfold mbind, result_bind, Py.bind.
  assert (is_ok (walk_pattern system_name version_numbers pattern
                   (Re.findall_segments pattern)
                   (build_versions version_numbers) None) = true) as Hok.
  { rewrite Hsplit in Hlen, Hcons |- *.
    rewrite length_app, length_replicate in Hlen.
    apply (walk_succeeds _ _ _ _ q Hconcrete); [|by apply
      subtrie_build_versions; right; exists q|done].
    apply (deep_le 3); [lia|]. by apply (build_versions_deep _ q). }
  destruct (walk_pattern _ _ _ _ _ _) as [[node acc]|e] eqn:Hwalk; [|done].
  apply walk_pattern_greatest in Hwalk as (ps & _ & -> & _ & Hps & _).
  destruct ps as [|n ps]; [simpl in Hps; lia|].
  destruct (render_onto_started (extend None n) ps) as [v Hv].
  change (render_onto None (n :: ps))
    with (render_onto (Some (extend None n)) ps).
  rewrite Hv. by eexists.
Qed.

End Complete.

Lemma three_segment_pattern_finds_match_witness :
  parsed example_tags [1; 4; 2; 1] /\
  (exists v,
     _find_latest_tag_by_pattern "tk-app" example_tags "v1.4.x"
     = Ok (Some v)) /\
  parsed example_tags [1; 2; 3] /\
  Re.match_anchored Re.digit_after_x "v1.2.3" = true /\
  (exists v,
     _find_latest_tag_by_pattern "tk-app" example_tags "v1.2.3"
     = Ok (Some v)).
Proof.
  assert (parsed example_tags [1; 4; 2; 1]) as Hq.
  { exists "v1.4.2.1"%string. split; [|split; [vm_compute; reflexivity|simpl; lia]].
    unfold example_tags. rewrite !elem_of_cons. tauto. }
  assert (parsed example_tags [1; 2; 3]) as Hq'.
  { exists "v1.2.3"%string. split; [|split; [vm_compute; reflexivity|simpl; lia]].
    unfold example_tags. rewrite !elem_of_cons. tauto. }
  split; [exact Hq|]. split.
  - apply (three_segment_pattern_finds_match "tk-app" example_tags "v1.4.x"
             ["1"; "4"]%string 1 [1; 4; 2; 1]).
    + vm_compute. reflexivity.
    + intros _. vm_compute. reflexivity.
    + split; [vm_compute; reflexivity|]. by repeat constructor.
    + vm_compute. lia.
    + exact Hq.
    + vm_compute. tauto.
  - split; [exact Hq'|]. split; [vm_compute; reflexivity|].
    apply (three_segment_pattern_finds_match "tk-app" example_tags "v1.2.3"
             ["1"; "2"; "3"]%string 0 [1; 2; 3]).
    + vm_compute. reflexivity.
    + vm_compute. discriminate.
    + split; [vm_compute; reflexivity|]. by repeat constructor.
    + vm_compute. lia.
    + exact Hq'.
    + vm_compute. tauto.
Defined.

End MatcherFacts.

(* ===================================================================== *)
(** * More on the identity codec *)
(* ===================================================================== *)

Module CodecFacts.

Import Uri UriFacts.

(** ** What [dict_from_uri] accepts *)

Lemma str_find_split (c : ascii) (s : string) (i : nat) :
  str_find c s = Some i ->
  s = str_take i s +:+ String c (str_drop (S i) s) /\
  str_contains c (str_take i s) = false.
Proof.
  revert i. induction s as [|a s IH]; intros i; simpl; [done|].
  destruct (ascii_eqb a c) eqn:Hac.
  - intros [= <-]. simpl. split; [|done].
    unfold ascii_eqb in Hac. by apply Ascii.eqb_eq in Hac as ->.
  - destruct (str_find c s) as [j|] eqn:Hj; [|done]. simpl.
    intros [= <-]. destruct (IH j eq_refl) as [Hs Hc]. split.
    + change (String a s
              = String a (str_take j s +:+ String c (str_drop (S j) s))).
      by rewrite <- Hs.
    + change (str_contains c (String a (str_take j s)) = false).
      simpl. by rewrite Hac.
Qed.

(** The last steps of [urlparse] leave the scheme alone. *)
Ltac urlparse_tail :=
  repeat match goal with
         | |- context [String.eqb ?a ?b] => destruct (String.eqb a b); simpl
         | |- context [span_netloc ?u] => destruct (span_netloc u); simpl
         | |- context [(?a || ?b)%bool] => destruct (a || b)%bool; simpl
         | |- context [str_contains ?c ?u] =>
             destruct (str_contains c u); simpl
         | |- context [cut ?c ?u] => destruct (cut c u); simpl
         end;
  try done; try (by intros [= <-]).

(** A scheme is only ever read off the text before the first colon. *)
Lemma urlparse_scheme (uri : string) (parsed : ParseResult) :
  urlparse uri = Ok parsed ->
  scheme parsed <> EmptyString ->
  exists s rest,
    uri = s +:+ String ":" rest /\
    str_contains ":" s = false /\
    scheme parsed = str_lower s.
Proof.
  unfold urlparse.
  destruct (str_find ":" uri) as [[|i]|] eqn:Hfind.
  - unfold mbind, result_bind, Py.bind. urlparse_tail.
  - destruct (str_find_split _ _ _ Hfind) as [Huri Hc].
    destruct (_ && _).
    + intros Hparsed Hscheme.
      exists (str_take (S i) uri), (str_drop (S (S i)) uri).
      split; [done|]. split; [done|]. revert Hparsed.
      unfold mbind, result_bind, Py.bind.
      generalize (str_drop (S (S i)) uri). intros rest. urlparse_tail.
    + unfold mbind, result_bind, Py.bind. urlparse_tail.
  - unfold mbind, result_bind, Py.bind. urlparse_tail.
Qed.

Section Decode.

Variable iteritems : forall V : Type, gmap string V -> list (string * V).
Variable str_of_dict : gmap string string -> string.

(** X5: [dict_from_uri] only accepts a URI whose text before the first
    colon is [sgtk], in any mix of upper and lower case. *)
Theorem only_sgtk_uris_decode (uri : string) (d : gmap string string) :
  dict_from_uri iteritems uri = Ok d ->
  exists s rest,
    uri = s +:+ String ":" rest /\
    str_contains ":" s = false /\
    str_lower s = "sgtk"%string.
Proof.
  unfold dict_from_uri, mbind, result_bind, Py.bind.
  destruct (urlparse uri) as [parsed|e] eqn:Hparse; [|done].
  destruct (String.eqb_spec (scheme parsed) DESCRIPTOR_URI_PATH_SCHEME)
    as [Hscheme|_]; [|done].
  intros _.
  destruct (urlparse_scheme uri parsed Hparse) as (s & rest & Huri & Hs & Hl).
  { by rewrite Hscheme. }
  exists s, rest. repeat split; [done..|]. by rewrite <- Hl.
Qed.

Lemma fill_dict_keeps (uri : string) (items : list (string * list string))
    (d r : gmap string string) (k : string) :
  fill_dict uri items d = Ok r -> is_Some (d !! k) -> is_Some (r !! k).
Proof.
  revert d. induction items as [|[k0 vs] items IH]; intros d; simpl.
  - by intros [= <-].
  - destruct (1 <? length vs)%nat; [done|]. destruct vs as [|v vs]; [done|].
    intros Hfill Hk. apply (IH _ Hfill).
    destruct (decide (k0 = k)) as [->|Hne].
    + rewrite lookup_insert_eq. by eexists.
    + by rewrite lookup_insert_ne.
Qed.

(** X6: whatever [dict_from_uri] returns has a [type] key, so that
    [uri_from_dict] never fails on it. *)
Theorem decoded_identity_has_type (uri : string) (d : gmap string string) :
  dict_from_uri iteritems uri = Ok d ->
  is_Some (d !! "type"%string) /\
  is_ok (uri_from_dict iteritems str_of_dict d) = true.
Proof.
  intros Hd.
  assert (is_Some (d !! "type"%string)) as [t Ht].
  { revert Hd. unfold dict_from_uri, mbind, result_bind, Py.bind.
    destruct (urlparse uri) as [parsed|e]; [|done].
    destruct (negb _); [done|].
    destruct (if String.eqb (query parsed) EmptyString then _ else _)
      as [[path query]|e]; [|done].
    destruct (str_split DESCRIPTOR_URI_SEPARATOR path)
      as [|prefix [|type [|? ?]]]; try done.
    destruct (negb _); [done|].
    intros Hfill. apply (fill_dict_keeps _ _ _ _ _ Hfill).
    rewrite lookup_singleton_eq. by eexists. }
  split; [by eexists|]. unfold uri_from_dict. by rewrite Ht.
Qed.

Lemma str_split1_head_free (sep c : ascii) (s : string) :
  str_contains c s = false ->
  match str_split1 sep s with
  | a :: _ => str_contains c a = false
  | [] => True
  end.
Proof.
  induction s as [|x s IH]; simpl; [done|].
  intros [Hx Hs]%orb_false_iff.
  destruct (ascii_eqb x sep); [done|].
  specialize (IH Hs). destruct (str_split1 sep s) as [|a l]; simpl.
  - by rewrite Hx.
  - by rewrite Hx, IH.
Qed.

Lemma cut_head_free (sep c : ascii) (s : string) :
  str_contains c s = false -> str_contains c (cut sep s).1 = false.
Proof.
  intros Hs. unfold cut. pose proof (str_split1_head_free sep c s Hs) as H.
  destruct (str_split1 sep s) as [|a [|b [|? ?]]]; simpl; done.
Qed.

Lemma str_drop_free (c : ascii) (n : nat) (s : string) :
  str_contains c s = false -> str_contains c (str_drop n s) = false.
Proof.
  revert s. induction n as [|n IH]; intros [|a s]; simpl; try done.
  intros [_ Hs]%orb_false_iff. by apply IH.
Qed.

Lemma span_netloc_free (c : ascii) (s : string) :
  str_contains c s = false -> str_contains c (span_netloc s).2 = false.
Proof.
  induction s as [|a s IH]; simpl; [done|].
  intros Has. destruct (_ || _ || _)%bool; [exact Has|].
  apply orb_false_iff in Has as [_ Hs]. specialize (IH Hs).
  by destruct (span_netloc s).
Qed.

Lemma urlparse_without_query (uri : string) (parsed : ParseResult) :
  urlparse uri = Ok parsed ->
  str_contains "?" uri = false ->
  query parsed = EmptyString /\ str_contains "?" (path parsed) = false.
Proof.
  intros Hparse Huri. revert Hparse. unfold urlparse.
  assert (forall sp : string * string,
            str_contains "?" sp.2 = false ->
            (let '(scheme, url) := sp in
             '(netloc, url) ←
               (if String.eqb (str_take 2 url) "//" then
                  let '(netloc, rest) := span_netloc (str_drop 2 url) in
                  if (str_contains "[" netloc && negb (str_contains "]" netloc)) ||
                     (str_contains "]" netloc && negb (str_contains "[" netloc))
                  then Raise (ValueError "Invalid IPv6 URL")
                  else Ok (netloc, rest)
                else Ok (EmptyString, url));
             let '(url, fragment) :=
               if str_contains "#" url then cut "#" url else (url, EmptyString) in
             let '(url, query) :=
               if str_contains "?" url then cut "?" url else (url, EmptyString) in
             Ok (mkParseResult scheme netloc url query fragment)) = Ok parsed ->
            query parsed = EmptyString /\
            str_contains "?" (path parsed) = false) as Htail.
  { intros [sch url] Hurl. simpl in Hurl.
    assert (forall netloc rest : string,
              str_contains "?" rest = false ->
              (let '(url, fragment) :=
                 if str_contains "#" rest then cut "#" rest
                 else (rest, EmptyString) in
               let '(url, query) :=
                 if str_contains "?" url then cut "?" url
                 else (url, EmptyString) in
               Ok (mkParseResult sch netloc url query fragment)) = Ok parsed ->
              query parsed = EmptyString /\
              str_contains "?" (path parsed) = false) as Hlast.
    { intros netloc rest Hrest.
      pose proof (cut_head_free "#" "?" rest Hrest) as Hcut.
      destruct (str_contains "#" rest).
      - destruct (cut "#" rest) as [u f]. simpl in Hcut. rewrite Hcut.
        by intros [= <-].
      - rewrite Hrest. by intros [= <-]. }
    destruct (String.eqb (str_take 2 url) "//").
    - pose proof (span_netloc_free "?" (str_drop 2 url)
                    (str_drop_free "?" 2 url Hurl)) as Hspan.
      destruct (span_netloc (str_drop 2 url)) as [netloc rest].
      simpl in Hspan. destruct (_ || _)%bool; [done|].
      exact (Hlast netloc rest Hspan).
    - exact (Hlast EmptyString url Hurl). }
  intros Hparse. eapply Htail; [|exact Hparse].
  destruct (str_find ":" uri) as [[|i]|]; [exact Huri| |exact Huri].
  destruct (_ && _)%bool; [|exact Huri].
  by apply str_drop_free.
Qed.

(** X7: a URI with the [sgtk] scheme and without a question mark, hence
    without a query, is not reported as an invalid URI: unpacking the two
    halves of its path raises a [ValueError]. *)
Theorem uri_without_query_raises_value_error (uri : string)
    (parsed : ParseResult) :
  urlparse uri = Ok parsed ->
  scheme parsed = DESCRIPTOR_URI_PATH_SCHEME ->
  str_contains "?" uri = false ->
  dict_from_uri iteritems uri
  = Raise (ValueError "need more than 1 value to unpack").
Proof.
  intros Hparse Hscheme Huri.
  destruct (urlparse_without_query uri parsed Hparse Huri) as [Hq Hpath].
  unfold dict_from_uri, mbind, result_bind, Py.bind.
  rewrite Hparse, Hscheme, Hq. simpl.
  by rewrite (str_split_none _ _ Hpath).
Qed.

End Decode.

Lemma only_sgtk_uris_decode_witness :
  dict_from_uri sorted_items "SgTk:descriptor:app_store?name=tk-core"
  = Ok ({[ "type" := "app_store"; "name" := "tk-core" ]}%string) /\
  exists s rest,
    "SgTk:descriptor:app_store?name=tk-core"%string = s +:+ String ":" rest /\
    str_contains ":" s = false /\
    str_lower s = "sgtk"%string.
Proof.
  split; [vm_compute; reflexivity|].
  apply (only_sgtk_uris_decode sorted_items
           "SgTk:descriptor:app_store?name=tk-core"
           ({[ "type" := "app_store"; "name" := "tk-core" ]}%string)).
  vm_compute. reflexivity.
Defined.

Lemma decoded_identity_has_type_witness :
  is_Some (({[ "type" := "name_wins" ]} : gmap string string) !! "type"%string)
  /\
  is_ok (uri_from_dict sorted_items no_repr
           ({[ "type" := "name_wins" ]}%string)) = true.
Proof.
  apply (decoded_identity_has_type sorted_items no_repr
           "sgtk:descriptor:app_store?type=name_wins").
  vm_compute. reflexivity.
Defined.

Lemma uri_without_query_raises_value_error_witness :
  dict_from_uri sorted_items "sgtk:descriptor:app_store"
  = Raise (ValueError "need more than 1 value to unpack").
Proof.
  apply (uri_without_query_raises_value_error sorted_items
           "sgtk:descriptor:app_store"
           (mkParseResult "sgtk" "" "descriptor:app_store" "" ""));
    reflexivity.
Defined.

(** ** Blank values and repeated names *)

(** A field whose name and value have no character that the query
    string gives a meaning to; the value may be empty. *)
Definition plain_field (item : string * string) : Prop :=
  query_safe item.1 = true /\ query_safe item.2 = true.

Lemma plain_chunk_free (c : ascii) (item : string * string) :
  plain_field item ->
  str_contains c "&;=+%#" = true -> c <> "="%char ->
  str_contains c (qs_chunk item) = false.
Proof.
  intros [Hk Hv] Hc Hne. rewrite qs_chunk_contains.
  rewrite (free_of_contains _ _ _ Hk Hc), (free_of_contains _ _ _ Hv Hc).
  unfold ascii_eqb. destruct (Ascii.eqb_spec "=" c) as [<-|]; done.
Qed.

Lemma plain_chunk_parsed (item : string * string) :
  plain_field item ->
  parse_pair (qs_chunk item)
  = if decide (item.2 = EmptyString) then None else Some item.
Proof.
  intros [Hk Hv]. destruct item as [k v]. simpl in *.
  unfold parse_pair, qs_chunk. simpl.
  change (k +:+ "=" +:+ v) with (k +:+ String "=" v).
  destruct (String.eqb_spec (k +:+ String "=" v) EmptyString) as [He|_].
  { destruct k; discriminate He. }
  rewrite str_split1_app
    by (apply (free_of_contains _ _ _ Hk); reflexivity).
  destruct (String.eqb_spec v EmptyString) as [->|Hne].
  - by rewrite decide_True.
  - rewrite decide_False by done.
    rewrite !str_replace_none
      by (eapply free_of_contains; [eassumption|reflexivity]).
    rewrite !unquote_none
      by (eapply free_of_contains; [eassumption|reflexivity]).
    reflexivity.
Qed.

Lemma parse_qsl_plain_chunks (l : list (string * string)) :
  l <> [] -> Forall plain_field l ->
  parse_qsl (str_join "&" (map qs_chunk l))
  = filter (fun item => item.2 <> EmptyString) l.
Proof.
  intros Hne Hplain. unfold parse_qsl.
  rewrite str_split_join.
  - clear Hne. induction Hplain as [|item l Hitem _ IH]; [done|]. simpl.
    rewrite str_split_none by (apply plain_chunk_free; done). simpl.
    rewrite (plain_chunk_parsed item Hitem), filter_cons.
    destruct (decide (item.2 = EmptyString)) as [He|He].
    + rewrite decide_False by (intros H; by apply H). exact IH.
    + rewrite decide_True by done. by f_equal.
  - by destruct l.
  - apply Forall_map. eapply Forall_impl; [exact Hplain|].
    intros item Hitem. apply plain_chunk_free; done.
Qed.

(** The values that a list of pairs gives to one name, in order. *)
Definition values_named (k : string) (l : list (string * string))
  : list string :=
  (filter (fun item => item.1 = k) l).*2.

(** [parse_qs] collects under every name all the values it occurs
    with, in their order. *)
Lemma fold_add_value_values (l : list (string * string))
    (d : gmap string (list string)) (k : string) :
  fold_left add_value l d !! k
  = match values_named k l with
    | [] => d !! k
    | vs => Some (default [] (d !! k) ++ vs)
    end.
Proof.
  revert d. induction l as [|[k0 v0] l IH]; intros d; [done|].
  assert (values_named k ((k0, v0) :: l)
          = if decide (k0 = k) then v0 :: values_named k l
            else values_named k l) as ->.
  { unfold values_named. rewrite filter_cons. simpl.
    by destruct (decide (k0 = k)). }
  change (fold_left add_value ((k0, v0) :: l) d)
    with (fold_left add_value l (<[k0 := default [] (d !! k0) ++ [v0]]> d)).
  rewrite IH. destruct (decide (k0 = k)) as [->|Hne].
  - rewrite lookup_insert_eq. simpl.
    destruct (values_named k l) as [|v vs]; [done|].
    by rewrite <- app_assoc.
  - by rewrite lookup_insert_ne.
Qed.

Lemma fill_dict_duplicate (uri : string) (items : list (string * list string))
    (d : gmap string string) :
  (forall k vs, (k, vs) ∈ items -> vs <> []) ->
  (exists k vs, (k, vs) ∈ items /\ (1 < length vs)%nat) ->
  fill_dict uri items d = Raise (invalid_uri uri "duplicate parameters").
Proof.
  revert d. induction items as [|[k0 vs0] items IH]; intros d Hne Hdup.
  - destruct Hdup as (k & vs & Hin & _). by apply elem_of_nil in Hin.
  - simpl. destruct (Nat.ltb_spec 1 (length vs0)) as [|Hshort]; [done|].
    destruct vs0 as [|v0 vs0]; [by destruct (Hne k0 []); [left|]|].
    apply IH.
    + intros k vs Hin. apply (Hne k vs). by right.
    + destruct Hdup as (k & vs & Hin & Hlen).
      apply elem_of_cons in Hin as [[= -> ->]|Hin]; [lia|].
      by exists k, vs.
Qed.

(** ** A URI that ends in its question mark *)



Section Blank.

Variable iteritems : forall V : Type, gmap string V -> list (string * V).
Variable str_of_dict : gmap string string -> string.
Hypothesis iteritems_perm :
  forall (V : Type) (d : gmap string V), iteritems V d ≡ₚ map_to_list d.

(** X8: an identity with a type free of [:], [?] and [#], at least one
    further key, and further keys and values free of [&], [;], [=], [+],
    [%] and [#], comes back from [dict_from_uri] applied to its
    [uri_from_dict] without the keys whose value is the empty string,
    and otherwise unchanged. *)
Theorem blank_values_are_dropped (identity : gmap string string)
    (type : string) :
  identity !! "type"%string = Some type ->
  type_safe type = true ->
  (exists k, k <> "type"%string /\ is_Some (identity !! k)) ->
  (forall k v, identity !! k = Some v -> k <> "type"%string ->
               query_safe k = true /\ query_safe v = true) ->
  (uri ← uri_from_dict iteritems str_of_dict identity;
   dict_from_uri iteritems uri)
  = Ok (filter (fun item => item.1 = "type"%string \/ item.2 <> EmptyString)
          identity).
Proof.
  intros has_type type_is_safe has_field fields_are_plain.
  pose proof (elem_of_fields iteritems str_of_dict iteritems_perm identity)
    as Hfields.
  pose proof (NoDup_fields iteritems str_of_dict iteritems_perm identity)
    as Hnodup.
  assert (fields iteritems identity <> []) as Hnonempty.
  { destruct has_field as (k & Hk & [v Hv]). intros H.
    assert ((k, v) ∈ fields iteritems identity) as Hin by by apply Hfields.
    rewrite H in Hin. by apply elem_of_nil in Hin. }
  assert (Forall plain_field (fields iteritems identity)) as Hplain.
  { apply Forall_forall. intros [k v] [Hkv Hk]%Hfields.
    by apply fields_are_plain. }
  unfold uri_from_dict. rewrite has_type. fold (fields iteritems identity).
  set (qs := str_join "&" (map qs_chunk (fields iteritems identity))).
  unfold mbind, result_bind, Py.bind.
  unfold dict_from_uri.
  set (uri := _ +:+ "?" +:+ qs).
  assert (urlparse uri
          = Ok (mkParseResult "sgtk" "" ("descriptor:" +:+ type) qs ""))
    as ->.
  { subst uri.
    change (_ +:+ "?" +:+ qs)
      with ("sgtk:d" +:+ ("escriptor:" +:+ type) +:+ String "?" qs).
    rewrite urlparse_sgtk; [done| | |].
    - rewrite str_contains_app. simpl.
      apply (free_of_contains _ _ _ type_is_safe). reflexivity.
    - rewrite str_contains_app. simpl.
      apply (free_of_contains _ _ _ type_is_safe). reflexivity.
    - apply str_contains_join; [done|].
      apply Forall_map. eapply Forall_impl; [exact Hplain|].
      intros item Hitem. by apply plain_chunk_free. }
  clearbody uri. unfold mbind, result_bind, Py.bind. simpl.
  destruct (String.eqb_spec qs EmptyString) as [He|_].
  { by apply str_join_chunks_nonempty in He. }
  change ("descriptor:" +:+ type)
    with ("descriptor" +:+ String DESCRIPTOR_URI_SEPARATOR type).
  rewrite str_split_app by done.
  rewrite str_split_none
    by (apply (free_of_contains _ _ _ type_is_safe); reflexivity).
  simpl. rewrite parse_qs_fold.
  unfold qs. rewrite parse_qsl_plain_chunks by done.
  set (kept := filter (fun item => item.2 <> EmptyString)
                 (fields iteritems identity)).
  assert (NoDup (kept.*1)) as Hkept_nodup.
  { eapply sublist_NoDup; [exact Hnodup|].
    apply fmap_sublist, sublist_filter. }
  assert (forall k v, (k, v) ∈ kept <->
            identity !! k = Some v /\ k <> "type"%string /\ v <> EmptyString)
    as Hkept.
  { intros k v. unfold kept. rewrite list_elem_of_filter, Hfields. simpl.
    tauto. }
  set (Q := fold_left add_value kept ∅).
  assert (forall k vs, Q !! k = Some vs <->
            exists v, vs = [v] /\ (k, v) ∈ kept) as HQ.
  { intros k vs. unfold Q.
    rewrite fold_add_value_lookup; [|exact Hkept_nodup|done].
    rewrite lookup_empty. split.
    - intros [H|[_ H]]; done.
    - intros H. by left. }
  destruct (fill_dict_lookup uri (iteritems _ Q) {[ "type"%string := type ]})
    as (r & -> & Hr).
  { rewrite (iteritems_perm _ Q). apply NoDup_fst_map_to_list. }
  { intros k vs. rewrite (iteritems_perm _ Q), elem_of_map_to_list, HQ.
    intros (v & -> & _). by exists v. }
  f_equal. apply map_eq. intros k. apply option_eq. intros w.
  rewrite Hr, map_lookup_filter_Some.
  rewrite (iteritems_perm _ Q), elem_of_map_to_list, HQ. simpl. split.
  - intros [(v & [= <-] & Hv)|[_ Hty]].
    + apply Hkept in Hv as (Hv & _ & Hne). split; [done|by right].
    + apply lookup_singleton_Some in Hty as [<- <-]. split; [done|by left].
  - intros [Hkw Hkeep]. destruct (decide (k = "type"%string)) as [->|Hne].
    + right. split.
      * intros ([k' vs] & Hk' & Hin)%list_elem_of_fmap. simpl in Hk'.
        subst k'. apply elem_of_map_to_list, HQ in Hin as (v & _ & Hin).
        apply Hkept in Hin as (_ & Hty & _). done.
      * rewrite has_type in Hkw. injection Hkw as <-.
        apply lookup_singleton_eq.
    + left. exists w. split; [done|]. apply Hkept.
      destruct Hkeep as [Hk|Hw]; done.
Qed.


(** X10: a URI that names a parameter twice, with non-empty values, is
    rejected by [dict_from_uri] for its duplicate parameters, in whatever
    order the parsed query hands out its items. *)
Theorem repeated_parameter_is_rejected (type q k : string) :
  type_safe type = true ->
  str_contains "#" q = false ->
  (1 < length (values_named k (parse_qsl q)))%nat ->
  dict_from_uri iteritems ("sgtk:descriptor:" +:+ type +:+ String "?" q)
  = Raise (invalid_uri ("sgtk:descriptor:" +:+ type +:+ String "?" q)
             "duplicate parameters").
Proof.
  intros type_is_safe Hhash Hrep.
  assert (str_contains "?" type = false /\ str_contains "#" type = false)
    as [Hq Hh].
  { split; apply (free_of_contains _ _ _ type_is_safe); reflexivity. }
  assert (q <> EmptyString) as Hne.
  { intros ->. vm_compute in Hrep. lia. }
  set (uri := "sgtk:descriptor:" +:+ type +:+ String "?" q).
  unfold dict_from_uri, mbind, result_bind, Py.bind.
  assert (urlparse uri
          = Ok (mkParseResult "sgtk" "" ("descriptor:" +:+ type) q ""))
    as ->.
  { subst uri.
    change ("sgtk:descriptor:" +:+ type +:+ String "?" q)
      with ("sgtk:d" +:+ ("escriptor:" +:+ type) +:+ String "?" q).
    rewrite urlparse_sgtk; [done|by rewrite str_contains_app, ?Hq, ?Hh..|done]. }
  clearbody uri. simpl.
  destruct (String.eqb_spec q EmptyString) as [|_]; [done|].
  change ("descriptor:" +:+ type)
    with ("descriptor" +:+ String DESCRIPTOR_URI_SEPARATOR type).
  rewrite str_split_app by done.
  rewrite str_split_none
    by (apply (free_of_contains _ _ _ type_is_safe); reflexivity).
  simpl. rewrite parse_qs_fold.
  apply fill_dict_duplicate.
  - intros j vs. rewrite (iteritems_perm _ _), elem_of_map_to_list.
    rewrite fold_add_value_values, lookup_empty. simpl.
    destruct (values_named j (parse_qsl q)); [done|]. by intros [= <-].
  - exists k, (values_named k (parse_qsl q)). split; [|done].
    rewrite (iteritems_perm _ _), elem_of_map_to_list.
    rewrite fold_add_value_values, lookup_empty. simpl.
    destruct (values_named k (parse_qsl q)); [simpl in Hrep; lia|done].
Qed.

End Blank.

Lemma sorted_items_perm (V : Type) (d : gmap string V) :
  sorted_items V d ≡ₚ map_to_list d.
Proof. reflexivity. Qed.

Definition blank_identity : gmap string string :=
  {[ "type" := "app_store"; "name" := "tk-core"; "label" := "" ]}%string.

Lemma blank_values_are_dropped_witness :
  (uri ← uri_from_dict sorted_items no_repr blank_identity;
   dict_from_uri sorted_items uri)
  = Ok (filter (fun item => item.1 = "type"%string \/ item.2 <> EmptyString)
          blank_identity).
Proof.
  apply (blank_values_are_dropped sorted_items no_repr sorted_items_perm
           blank_identity "app_store").
  - reflexivity.
  - reflexivity.
  - exists "name"%string. split; [done|]. by eexists.
  - intros k v Hkv Hk. unfold blank_identity in Hkv.
    repeat (apply lookup_insert_Some in Hkv as [[<- <-]|[_ Hkv]];
            [by vm_compute|]).
    apply lookup_singleton_Some in Hkv as [<- <-]. by vm_compute.
Defined.


(** With a question mark in the type the query is not empty, and the
    URI is read back with the type cut short. *)
Example type_with_question_mark_is_cut :
  (uri ← uri_from_dict sorted_items no_repr {[ "type"%string := "a?"%string ]};
   dict_from_uri sorted_items uri)
  = Ok {[ "type"%string := "a"%string ]}.
Proof. vm_compute. reflexivity. Qed.

Lemma repeated_parameter_is_rejected_witness :
  dict_from_uri sorted_items
    ("sgtk:descriptor:" +:+ "app_store" +:+ String "?" "version=v1&version=v2")
  = Raise (invalid_uri
             ("sgtk:descriptor:" +:+ "app_store" +:+
              String "?" "version=v1&version=v2")
             "duplicate parameters").
Proof.
  apply (repeated_parameter_is_rejected sorted_items sorted_items_perm
           "app_store" "version=v1&version=v2" "version").
  - reflexivity.
  - reflexivity.
  - vm_compute. lia.
Defined.

End CodecFacts.

(* ===================================================================== *)
(** * Downloads and failures of the descriptor *)
(* ===================================================================== *)

Module LifecycleFacts.

Import Descriptor DescriptorFacts.

Lemma probes_no_open (fs : gmap string node) (paths : list string) :
  filter is_open (probes fs paths) = [].
Proof.
  induction paths as [|p rest IH]; [done|]. simpl.
  rewrite filter_cons_False by (simpl; tauto).
  by destruct (has_metadata fs p).
Qed.

Lemma downloads_record (w : world) (es : list event) :
  downloads (record w es) = (downloads w + length (filter is_download es))%nat.
Proof. unfold downloads, record. simpl. by rewrite filter_app, length_app. Qed.

Lemma opens_record (w : world) (es : list event) :
  opens (record w es) = (opens w + length (filter is_open es))%nat.
Proof. unfold opens, record. simpl. by rewrite filter_app, length_app. Qed.

Section Lifecycle.

Variable Manifest : Type.
Variable yaml_load : string -> result (option Manifest).
Variable _get_cache_paths : IODescriptorBase Manifest -> result (list string).
Variable download_local :
  IODescriptorBase Manifest -> gmap string node ->
  result unit * gmap string node.
Variable iteritems : forall V : Type, gmap string V -> list (string * V).
Variable str_of_dict : gmap string string -> string.

(** X11: [get_path] returns the first candidate of [_get_cache_paths],
    in order, under which the metadata file exists, and [None] when
    there is none; it only checks for existence: the files are
    untouched, nothing is downloaded and nothing is opened. *)
Theorem get_path_finds_first_local (self : IODescriptorBase Manifest)
    (w : world) (paths : list string) :
  _get_cache_paths self = Ok paths ->
  exists (found : option string) (w' : world),
    get_path _get_cache_paths (self, w) = (Ok found, (self, w')) /\
    files w' = files w /\
    downloads w' = downloads w /\
    opens w' = opens w /\
    (forall path, found = Some path <->
       exists i, paths !! i = Some path /\
                 is_Some (files w !! path_join path [BUNDLE_METADATA_FILE]) /\
                 forall j other, (j < i)%nat -> paths !! j = Some other ->
                   files w !! path_join other [BUNDLE_METADATA_FILE] = None) /\
    (found = None <->
       forall path, path ∈ paths ->
         files w !! path_join path [BUNDLE_METADATA_FILE] = None).
Proof.
  intros Hpaths.
  exists (first_local (files w) paths), (record w (probes (files w) paths)).
  assert (forall path, has_metadata (files w) path = false <->
            files w !! path_join path [BUNDLE_METADATA_FILE] = None) as Hno.
  { intros path. unfold has_metadata, metadata_path.
    rewrite bool_decide_eq_false, <- eq_None_not_Some. done. }
  assert (forall path, has_metadata (files w) path = true <->
            is_Some (files w !! path_join path [BUNDLE_METADATA_FILE])) as Hyes.
  { intros path. unfold has_metadata, metadata_path.
    by rewrite bool_decide_eq_true. }
  split; [by apply get_path_run|].
  split; [done|].
  split; [by rewrite downloads_record, probes_no_download, Nat.add_0_r|].
  split; [by rewrite opens_record, probes_no_open, Nat.add_0_r|].
  split.
  - intros path. rewrite first_local_Some.
    split; intros (i & Hi & Hm & Hfirst); exists i;
      (split; [done|]); (split; [by apply Hyes|]);
      intros j other Hj Hother; apply Hno; by apply (Hfirst j).
  - rewrite first_local_None.
    split; intros H path Hin; apply Hno; by apply H.
Qed.

(** The steps of [get_manifest] up to and including [download_local],
    on a descriptor that is neither cached nor local. *)
Lemma get_manifest_until_download (self : IODescriptorBase Manifest)
    (w : world) (paths : list string) :
  __manifest_data self = None ->
  _get_cache_paths self = Ok paths ->
  first_local (files w) paths = None ->
  get_manifest yaml_load _get_cache_paths download_local (self, w)
  = let '(r, files') := download_local self (files w) in
    let w1 := mkWorld files' (calls w ++ probes (files w) paths ++ [Download]) in
    match r with
    | Raise e => (Raise e, (self, w1))
    | Ok _ =>
        match first_local files' paths with
        | None =>
            (Raise (AttributeError
                      "'NoneType' object has no attribute 'endswith'"),
             (self, record w1 (probes files' paths)))
        | Some path =>
            let w2 :=
              record w1 (probes files' paths ++
                         [Exists (metadata_path path);
                          Open (metadata_path path)]) in
            match files' !! metadata_path path with
            | Some (File content) =>
                match yaml_load content with
                | Ok v => (Ok v, (set_manifest_data self v, w2))
                | Raise exp =>
                    (Raise (TankDescriptorError
                              ("Cannot load metadata file '" +:+
                               metadata_path path +:+ "'. Error: " +:+
                               exn_str exp)), (self, w2))
                end
            | Some Dir =>
                (Raise (TankDescriptorError
                          ("Cannot load metadata file '" +:+
                           metadata_path path +:+ "'. Error: " +:+
                           "[Errno 21] Is a directory: '" +:+
                           metadata_path path +:+ "'")), (self, w2))
            | None => (Ok None, (self, w2))
            end
        end
    end.
Proof.
  intros Hdata Hpaths Hfirst.
  unfold get_manifest, mbind, M_bind, get_self. simpl. rewrite Hdata.
  rewrite exists_local_cases, Hpaths, Hfirst. simpl.
  unfold call_download_local. simpl.
  destruct (download_local self (files w)) as [[[]|e] files'] eqn:Hdl; simpl.
  2:{ unfold record. simpl. by rewrite <- app_assoc. }
  rewrite get_path_cases, Hpaths. simpl.
  destruct (first_local files' paths) as [path|] eqn:Hfirst'; simpl.
  2:{ unfold record. simpl. by rewrite <- !app_assoc. }
  pose proof (first_local_has_metadata _ _ _ Hfirst') as Hmeta.
  unfold has_metadata in Hmeta. apply bool_decide_eq_true in Hmeta.
  destruct Hmeta as [nd Hfile].
  unfold os_path_exists, wrap_load_error, open_and_load, record,
    metadata_path in *.
  simpl in *. rewrite !Hfile. simpl. rewrite !Hfile.
  destruct nd as [content|]; simpl.
  - destruct (yaml_load content) as [v|exp]; simpl;
      unfold mret, M_ret; simpl; by rewrite <- !app_assoc.
  - by rewrite <- !app_assoc.
Qed.

(** [get_manifest] on a descriptor that is local and not cached. *)
Lemma get_manifest_when_local (self : IODescriptorBase Manifest)
    (w : world) (paths : list string) (path : string) :
  __manifest_data self = None ->
  _get_cache_paths self = Ok paths ->
  first_local (files w) paths = Some path ->
  get_manifest yaml_load _get_cache_paths download_local (self, w)
  = let w2 := record w (load_calls (files w) paths path) in
    match files w !! metadata_path path with
    | Some (File content) =>
        match yaml_load content with
        | Ok v => (Ok v, (set_manifest_data self v, w2))
        | Raise exp =>
            (Raise (TankDescriptorError
                      ("Cannot load metadata file '" +:+
                       metadata_path path +:+ "'. Error: " +:+
                       exn_str exp)), (self, w2))
        end
    | Some Dir =>
        (Raise (TankDescriptorError
                  ("Cannot load metadata file '" +:+
                   metadata_path path +:+ "'. Error: " +:+
                   "[Errno 21] Is a directory: '" +:+
                   metadata_path path +:+ "'")), (self, w2))
    | None => (Ok None, (self, w2))
    end.
Proof.
  intros Hdata Hpaths Hfirst.
  pose proof (first_local_has_metadata _ _ _ Hfirst) as Hmeta.
  unfold has_metadata in Hmeta. apply bool_decide_eq_true in Hmeta.
  destruct Hmeta as [nd Hfile].
  unfold get_manifest, mbind, M_bind, get_self. simpl. rewrite Hdata.
  rewrite exists_local_cases, Hpaths, Hfirst. simpl.
  rewrite get_path_cases, Hpaths. simpl. rewrite Hfirst. simpl.
  unfold os_path_exists, wrap_load_error, open_and_load, record, load_calls,
    metadata_path in *.
  simpl in *. rewrite !Hfile. simpl. rewrite !Hfile.
  destruct nd as [content|]; simpl.
  - destruct (yaml_load content) as [v|exp]; simpl;
      unfold mret, M_ret; simpl; by rewrite <- !app_assoc.
  - by rewrite <- !app_assoc.
Qed.

Lemma load_calls_no_download (fs : gmap string node) (paths : list string)
    (path : string) :
  filter is_download (load_calls fs paths path) = [].
Proof.
  unfold load_calls. by rewrite !filter_app, !probes_no_download.
Qed.

Lemma downloads_after_download (w : world) (files' : gmap string node)
    (es1 es2 : list event) :
  filter is_download es1 = [] -> filter is_download es2 = [] ->
  downloads (record (mkWorld files' (calls w ++ es1 ++ [Download])) es2)
  = S (downloads w).
Proof.
  intros H1 H2. unfold downloads, record. simpl.
  rewrite !filter_app, H1, H2. simpl. rewrite !length_app. simpl. lia.
Qed.

(** C7: when [get_manifest] raises, whatever the exception, the instance
    is as it was before the call and holds no manifest, so that a later
    call runs the load again and returns the metadata once the bundle is
    in place and its file parses.  But a metadata file that is still
    absent after [download_local] has returned is not reported by the
    [TankDescriptorError] of the missing-file test: [get_path] returns
    [None], and joining it with the file name raises an
    [AttributeError].  On a disk that nothing else changes during the
    call, a missing-file [TankDescriptorError] can only come out of
    [_get_cache_paths] or [download_local]. *)
Theorem absent_metadata_is_not_reported_missing
    (self self' : IODescriptorBase Manifest) (w w' : world) (e : exn) :
  get_manifest yaml_load _get_cache_paths download_local (self, w)
    = (Raise e, (self', w')) ->
  (self' = self /\ __manifest_data self' = None) /\
  (forall (w2 : world) (paths : list string) (path content : string)
          (v : option Manifest),
     _get_cache_paths self' = Ok paths ->
     first_local (files w2) paths = Some path ->
     files w2 !! metadata_path path = Some (File content) ->
     yaml_load content = Ok v ->
     get_manifest yaml_load _get_cache_paths download_local (self', w2)
     = (Ok v, (set_manifest_data self' v,
               record w2 (load_calls (files w2) paths path)))) /\
  (forall (paths : list string) (files' : gmap string node),
     _get_cache_paths self = Ok paths ->
     first_local (files w) paths = None ->
     download_local self (files w) = (Ok tt, files') ->
     first_local files' paths = None ->
     e = AttributeError "'NoneType' object has no attribute 'endswith'" /\
     files w' = files') /\
  (forall file_path : string,
     e = TankDescriptorError
           ("Toolkit metadata file '" +:+ file_path +:+ "' missing.") ->
     _get_cache_paths self = Raise e \/
     (__manifest_data self = None /\
      exists paths,
        _get_cache_paths self = Ok paths /\
        first_local (files w) paths = None /\
        (download_local self (files w)).1 = Raise e)).
Proof.
  intros Hfail.
  assert (self' = self /\ __manifest_data self = None) as [-> Hdata].
  { by apply get_manifest_outcome in Hfail
      as [(v & Hv & _)|(e' & _ & -> & Hnone)]. }
  split; [done|]. split.
  { intros w2 paths path content v. by apply get_manifest_load. }
  split.
  - intros paths files' Hpaths Hfirst Hdl Hfirst'.
    rewrite (get_manifest_until_download _ _ _ Hdata Hpaths Hfirst), Hdl,
      Hfirst' in Hfail.
    by injection Hfail as <- <-.
  - intros file_path ->.
    destruct (_get_cache_paths self) as [paths|e0] eqn:Hpaths.
    2:{ left. revert Hfail.
        unfold get_manifest, mbind, M_bind, get_self. simpl. rewrite Hdata.
        rewrite exists_local_cases, Hpaths. by intros [= <- _]. }
    right. split; [done|]. exists paths. split; [done|].
    destruct (first_local (files w) paths) as [path|] eqn:Hfirst.
    + exfalso. revert Hfail.
      rewrite (get_manifest_when_local _ _ _ _ Hdata Hpaths Hfirst). simpl.
      destruct (files w !! metadata_path path) as [[content|]|];
        [destruct (yaml_load content)|..]; intros Heq;
        injection Heq as Heq _; discriminate Heq.
    + split; [done|]. revert Hfail.
      rewrite (get_manifest_until_download _ _ _ Hdata Hpaths Hfirst).
      destruct (download_local self (files w)) as [[[]|e0] files']; simpl.
      * destruct (first_local files' paths) as [path|];
          [destruct (files' !! metadata_path path) as [[content|]|];
           [destruct (yaml_load content)|..]|];
          intros Heq; injection Heq as Heq _; discriminate Heq.
      * by intros [= <- _].
Qed.

(** X12: one call of [get_manifest] calls [download_local] at most
    once, and exactly when nothing is cached and no candidate path holds
    a metadata file; when it does not download, the files are as they
    were. *)
Theorem get_manifest_downloads_at_most_once
    (self self' : IODescriptorBase Manifest) (w w' : world)
    (r : result (option Manifest)) :
  get_manifest yaml_load _get_cache_paths download_local (self, w)
    = (r, (self', w')) ->
  (downloads w' = downloads w \/ downloads w' = S (downloads w)) /\
  (downloads w' = S (downloads w) <->
     __manifest_data self = None /\
     exists paths, _get_cache_paths self = Ok paths /\
                   first_local (files w) paths = None) /\
  (downloads w' = downloads w -> files w' = files w).
Proof.
  destruct (__manifest_data self) as [data|] eqn:Hdata.
  { rewrite (get_manifest_cached _ yaml_load _get_cache_paths download_local
               self w data Hdata).
    intros [= <- <- <-].
    split; [by left|]. split; [|done]. split; [lia|]. by intros [? _]. }
  destruct (_get_cache_paths self) as [paths|e] eqn:Hpaths.
  2:{ unfold get_manifest, mbind, M_bind, get_self. simpl. rewrite Hdata.
      rewrite exists_local_cases, Hpaths. intros [= <- <- <-].
      split; [by left|]. split; [|done]. split; [lia|].
      by intros (_ & paths & ? & _). }
  destruct (first_local (files w) paths) as [path|] eqn:Hfirst.
  - rewrite (get_manifest_when_local _ _ _ _ Hdata Hpaths Hfirst). simpl.
    assert (downloads (record w (load_calls (files w) paths path))
            = downloads w) as Hsame.
    { by rewrite downloads_record, load_calls_no_download, Nat.add_0_r. }
    intros Hrun.
    assert (w' = record w (load_calls (files w) paths path)) as ->.
    { destruct (files w !! metadata_path path) as [[content|]|];
        [destruct (yaml_load content)|..]; by injection Hrun as <- <- <-. }
    rewrite Hsame. split; [by left|]. split; [|done]. split; [lia|].
    intros (_ & paths' & [= <-] & Hnone). congruence.
  - rewrite (get_manifest_until_download _ _ _ Hdata Hpaths Hfirst).
    destruct (download_local self (files w)) as [[[]|e] files'].
    + intros Hrun.
      assert (exists es, filter is_download es = [] /\
                w' = record (mkWorld files'
                               (calls w ++ probes (files w) paths ++ [Download]))
                       es) as (es & Hes & ->).
      { destruct (first_local files' paths) as [path|].
        - exists (probes files' paths ++
                  [Exists (metadata_path path); Open (metadata_path path)]).
          split; [by rewrite filter_app, probes_no_download|].
          destruct (files' !! metadata_path path) as [[content|]|];
            [destruct (yaml_load content)|..]; by injection Hrun as <- <- <-.
        - exists (probes files' paths).
          split; [apply probes_no_download|]. by injection Hrun as <- <- <-. }
      rewrite downloads_after_download by (apply probes_no_download || done).
      split; [by right|]. split; [|lia]. split; [|done].
      intros _. split; [done|]. by exists paths.
    + intros [= <- <- <-].
      rewrite <- (record_nil (mkWorld _ _)).
      rewrite downloads_after_download by (apply probes_no_download || done).
      split; [by right|]. split; [|lia]. split; [|done].
      intros _. split; [done|]. by exists paths.
Qed.

(** X13: when [download_local] raises, [get_manifest] lets that very
    exception through, stores nothing and opens no file. *)
Theorem download_failure_reaches_caller (self : IODescriptorBase Manifest)
    (w : world) (paths : list string) (e : exn)
    (files' : gmap string node) :
  __manifest_data self = None ->
  _get_cache_paths self = Ok paths ->
  first_local (files w) paths = None ->
  download_local self (files w) = (Raise e, files') ->
  exists w' : world,
    get_manifest yaml_load _get_cache_paths download_local (self, w)
      = (Raise e, (self, w')) /\
    files w' = files' /\
    downloads w' = S (downloads w) /\
    opens w' = opens w.
Proof.
  intros Hdata Hpaths Hfirst Hdl.
  rewrite (get_manifest_until_download _ _ _ Hdata Hpaths Hfirst), Hdl.
  eexists. split; [reflexivity|]. split; [done|]. split.
  - rewrite <- (record_nil (mkWorld _ _)).
    by apply downloads_after_download; [apply probes_no_download|].
  - unfold opens. simpl. rewrite !filter_app, probes_no_open. simpl.
    by rewrite app_nil_r.
Qed.

(** X14: when [download_local] returns and still no candidate path
    holds a metadata file, [get_manifest] does not report a missing
    metadata file: joining the absent bundle root with the file name
    raises an [AttributeError]; nothing is stored. *)
Theorem download_without_metadata_raises_attribute_error
    (self : IODescriptorBase Manifest) (w : world) (paths : list string)
    (files' : gmap string node) :
  __manifest_data self = None ->
  _get_cache_paths self = Ok paths ->
  first_local (files w) paths = None ->
  download_local self (files w) = (Ok tt, files') ->
  first_local files' paths = None ->
  exists w' : world,
    get_manifest yaml_load _get_cache_paths download_local (self, w)
      = (Raise (AttributeError "'NoneType' object has no attribute 'endswith'"),
         (self, w')) /\
    files w' = files' /\
    downloads w' = S (downloads w).
Proof.
  intros Hdata Hpaths Hfirst Hdl Hfirst'.
  rewrite (get_manifest_until_download _ _ _ Hdata Hpaths Hfirst), Hdl, Hfirst'.
  eexists. split; [reflexivity|]. split; [done|].
  by apply downloads_after_download; apply probes_no_download.
Qed.


(** X16: [ensure_local] on a descriptor that is not local and whose
    dictionary has a [type] calls [download_local] exactly once and
    returns what it returns. *)
Theorem ensure_local_downloads_when_absent (self : IODescriptorBase Manifest)
    (w : world) (paths : list string) :
  _get_cache_paths self = Ok paths ->
  first_local (files w) paths = None ->
  is_Some (_descriptor_dict self !! "type"%string) ->
  exists w' : world,
    ensure_local _get_cache_paths download_local iteritems str_of_dict (self, w)
      = ((download_local self (files w)).1, (self, w')) /\
    files w' = (download_local self (files w)).2 /\
    downloads w' = S (downloads w).
Proof.
  intros Hpaths Hfirst [type Htype].
  unfold ensure_local, mbind, M_bind.
  rewrite exists_local_cases, Hpaths, Hfirst. simpl.
  unfold get_uri, mbind, M_bind, get_self, lift, Uri.uri_from_dict. simpl.
  rewrite Htype. simpl. unfold call_download_local. simpl.
  destruct (download_local self (files w)) as [r files']. simpl.
  eexists. split; [reflexivity|]. split; [done|].
  rewrite <- app_assoc, <- (record_nil (mkWorld _ _)).
  by apply downloads_after_download; [apply probes_no_download|].
Qed.

(** X17: [ensure_local] on a descriptor that is not local and whose
    dictionary has no [type] fails while it formats its log message,
    before [download_local] is called. *)
Theorem ensure_local_without_type_never_downloads
    (self : IODescriptorBase Manifest) (w : world) (paths : list string) :
  _get_cache_paths self = Ok paths ->
  first_local (files w) paths = None ->
  _descriptor_dict self !! "type"%string = None ->
  exists w' : world,
    ensure_local _get_cache_paths download_local iteritems str_of_dict (self, w)
      = (Raise (TankDescriptorError
                  ("Cannot create uri from " +:+
                   str_of_dict (_descriptor_dict self) +:+
                   " - missing type field")), (self, w')) /\
    files w' = files w /\
    downloads w' = downloads w.
Proof.
  intros Hpaths Hfirst Htype.
  unfold ensure_local, mbind, M_bind.
  rewrite exists_local_cases, Hpaths, Hfirst. simpl.
  unfold get_uri, mbind, M_bind, get_self, lift, Uri.uri_from_dict. simpl.
  rewrite Htype. simpl.
  eexists. split; [reflexivity|]. split; [done|].
  by rewrite downloads_record, probes_no_download, Nat.add_0_r.
Qed.

End Lifecycle.

(** ** Runs of the worked example *)

(** A provider that cannot reach its server. *)
Definition failing_download (self : IODescriptorBase string)
    (fs : gmap string node) : result unit * gmap string node :=
  (Raise (IOError "connection refused"), fs).

(** A descriptor whose dictionary has no [type], with one candidate
    path. *)
Definition untyped_descriptor : IODescriptorBase string :=
  mkDescriptor (Some "/P"%string) [] ({[ "name" := "foo" ]}%string) None.

Definition fixed_cache_paths (self : IODescriptorBase string)
  : result (list string) :=
  Ok ["/P/foo"%string].

(** The first call on a fresh descriptor and an empty disk, with a
    provider that returns without unpacking anything. *)
Definition after_idle_download
  : result (option string) * (IODescriptorBase string * world) :=
  get_manifest example_yaml resolve_cache_paths idle_download
    (example_descriptor None, empty_world).

Lemma absent_metadata_is_not_reported_missing_witness :
  after_idle_download.1
  = Raise (AttributeError "'NoneType' object has no attribute 'endswith'") /\
  after_idle_download.2.1 = example_descriptor None /\
  __manifest_data after_idle_download.2.1 = None /\
  files after_idle_download.2.2 = ∅ /\
  get_manifest example_yaml resolve_cache_paths idle_download
    (after_idle_download.2.1, fallback_world "configuration: {}")
  = (Ok (Some "configuration: {}"%string),
     (set_manifest_data after_idle_download.2.1
        (Some "configuration: {}"%string),
      record (fallback_world "configuration: {}")
        (load_calls (files (fallback_world "configuration: {}"))
           example_candidates "/F1/app/foo/v1.0.0"))).
Proof.
  destruct (absent_metadata_is_not_reported_missing string example_yaml
              resolve_cache_paths idle_download
              (example_descriptor None) after_idle_download.2.1
              empty_world after_idle_download.2.2
              (AttributeError "'NoneType' object has no attribute 'endswith'"))
    as ([Hself Hnone] & Hlater & Hclass & _); [vm_compute; reflexivity|].
  destruct (Hclass example_candidates ∅) as [_ Hfiles];
    [vm_compute; reflexivity..|].
  split; [vm_compute; reflexivity|].
  split; [exact Hself|]. split; [exact Hnone|]. split; [exact Hfiles|].
  apply (Hlater (fallback_world "configuration: {}") example_candidates
           "/F1/app/foo/v1.0.0" "configuration: {}"
           (Some "configuration: {}"%string)).
  - rewrite Hself. vm_compute. reflexivity.
  - vm_compute. reflexivity.
  - vm_compute. reflexivity.
  - reflexivity.
Defined.

Lemma get_path_finds_first_local_witness :
  exists (found : option string) (w' : world),
    get_path resolve_cache_paths
      (example_descriptor (None : option string),
       fallback_world "configuration: {}")
    = (Ok found, (example_descriptor None, w')) /\
    files w' = files (fallback_world "configuration: {}") /\
    downloads w' = downloads (fallback_world "configuration: {}") /\
    opens w' = opens (fallback_world "configuration: {}") /\
    (forall path, found = Some path <->
       exists i, example_candidates !! i = Some path /\
                 is_Some (files (fallback_world "configuration: {}")
                            !! path_join path [BUNDLE_METADATA_FILE]) /\
                 forall j other, (j < i)%nat ->
                   example_candidates !! j = Some other ->
                   files (fallback_world "configuration: {}")
                     !! path_join other [BUNDLE_METADATA_FILE] = None) /\
    (found = None <->
       forall path, path ∈ example_candidates ->
         files (fallback_world "configuration: {}")
           !! path_join path [BUNDLE_METADATA_FILE] = None).
Proof.
  apply (get_path_finds_first_local string resolve_cache_paths
           (example_descriptor None) (fallback_world "configuration: {}")
           example_candidates).
  vm_compute. reflexivity.
Defined.

Lemma get_manifest_downloads_at_most_once_witness :
  (downloads after_first_call.2.2 = downloads empty_world \/
   downloads after_first_call.2.2 = S (downloads empty_world)) /\
  (downloads after_first_call.2.2 = S (downloads empty_world) <->
     __manifest_data (example_descriptor (None : option string)) = None /\
     exists paths,
       resolve_cache_paths (example_descriptor (None : option string))
         = Ok paths /\
       first_local (files empty_world) paths = None) /\
  (downloads after_first_call.2.2 = downloads empty_world ->
   files after_first_call.2.2 = files empty_world).
Proof.
  apply (get_manifest_downloads_at_most_once string example_yaml
           resolve_cache_paths example_download
           (example_descriptor None) after_first_call.2.1
           empty_world after_first_call.2.2 after_first_call.1).
  vm_compute. reflexivity.
Defined.

Lemma download_failure_reaches_caller_witness :
  exists w' : world,
    get_manifest example_yaml resolve_cache_paths failing_download
      (example_descriptor None, empty_world)
    = (Raise (IOError "connection refused"), (example_descriptor None, w')) /\
    files w' = ∅ /\
    downloads w' = S (downloads empty_world) /\
    opens w' = opens empty_world.
Proof.
  apply (download_failure_reaches_caller string example_yaml
           resolve_cache_paths failing_download (example_descriptor None)
           empty_world example_candidates (IOError "connection refused") ∅);
    vm_compute; reflexivity.
Defined.

Lemma download_without_metadata_raises_attribute_error_witness :
  exists w' : world,
    get_manifest example_yaml resolve_cache_paths idle_download
      (example_descriptor None, empty_world)
    = (Raise (AttributeError "'NoneType' object has no attribute 'endswith'"),
       (example_descriptor None, w')) /\
    files w' = ∅ /\
    downloads w' = S (downloads empty_world).
Proof.
  apply (download_without_metadata_raises_attribute_error string example_yaml
           resolve_cache_paths idle_download (example_descriptor None)
           empty_world example_candidates ∅);
    vm_compute; reflexivity.
Defined.



Lemma ensure_local_downloads_when_absent_witness :
  exists w' : world,
    ensure_local resolve_cache_paths example_download
      Uri.sorted_items Uri.no_repr (example_descriptor None, empty_world)
    = ((example_download (example_descriptor None) (files empty_world)).1,
       (example_descriptor None, w')) /\
    files w'
    = (example_download (example_descriptor None) (files empty_world)).2 /\
    downloads w' = S (downloads empty_world).
Proof.
  apply (ensure_local_downloads_when_absent string resolve_cache_paths
           example_download Uri.sorted_items Uri.no_repr
           (example_descriptor None) empty_world example_candidates).
  - vm_compute. reflexivity.
  - vm_compute. reflexivity.
  - by eexists.
Defined.

Lemma ensure_local_without_type_never_downloads_witness :
  exists w' : world,
    ensure_local fixed_cache_paths example_download
      Uri.sorted_items Uri.no_repr (untyped_descriptor, empty_world)
    = (Raise (TankDescriptorError
                ("Cannot create uri from " +:+
                 Uri.no_repr (_descriptor_dict untyped_descriptor) +:+
                 " - missing type field")), (untyped_descriptor, w')) /\
    files w' = files empty_world /\
    downloads w' = downloads empty_world.
Proof.
  apply (ensure_local_without_type_never_downloads string fixed_cache_paths
           example_download Uri.sorted_items Uri.no_repr
           untyped_descriptor empty_world ["/P/foo"%string]);
    vm_compute; reflexivity.
Defined.

End LifecycleFacts.

(* ===================================================================== *)
(** * The Perforce descriptor:
      [python/tank/deploy/perforce_descriptor.py] *)
(* ===================================================================== *)

Module Perforce.

(** [TankError] comes from [..errors]; everything else that can be
    raised here is a built-in exception. *)
Inductive raised : Type :=
| TankError (msg : string)
| Builtin (e : exn).

Inductive outcome (A : Type) : Type :=
| Returns (a : A)
| Raises (e : raised).
Arguments Returns {A} a.
Arguments Raises {A} e.

Definition backslash : ascii := ascii_of_nat 92.

(** [s.rfind(c)], with [None] for Python's -1. *)
Fixpoint str_rfind (c : ascii) (s : string) : option nat :=
  match s with
  | EmptyString => None
  | String a s' =>
      match str_rfind c s' with
      | Some i => Some (S i)
      | None => if ascii_eqb a c then Some O else None
      end
  end.

(** [os.path.basename(p)] (posixpath): [p[p.rfind('/') + 1:]] *)
Definition basename (p : string) : string :=
  match str_rfind "/" p with
  | Some i => str_drop (S i) p
  | None => p
  end.

(** [os.path.splitext(p)] (posixpath, through [genericpath._splitext]):
    the extension starts at the last dot of the last component, unless
    only dots come before it in that component. *)
Definition splitext (p : string) : string * string :=
  match str_rfind "." p with
  | None => (p, EmptyString)
  | Some dotIndex =>
      let filenameIndex :=
        match str_rfind "/" p with
        | Some sepIndex => S sepIndex
        | None => O
        end in
      if (filenameIndex <=? dotIndex)%nat &&
         negb (str_forall (ascii_eqb ".")
                 (str_take (dotIndex - filenameIndex)
                    (str_drop filenameIndex p)))
      then (str_take dotIndex p, str_drop dotIndex p)
      else (p, EmptyString)
  end.

(** The attributes that [__init__] sets in this class. *)
Record TankPerforceDescriptor : Type := mkPerforce {
  _type : string;
  _path : string;
  _version : string
}.

(** The disk as [os.path.exists] sees it, and the targets handed to
    [__sync_from_perforce], in the order of the calls. *)
Record site : Type := mkSite {
  disk : gset string;
  synced : list string
}.

Section Class.

(** ["%s" % str(location_dict)] *)
Variable str_of_dict : gmap string string -> string.

(** [VersionedSingletonDescriptor.__init__] and [_get_local_location]
    come from [.descriptor], which is not part of the source tree. *)
Variable super_init :
  string -> string -> gmap string string -> outcome unit.
Variable _get_local_location : string -> string -> string -> string -> string.

(** What the Perforce server does to the disk when
    [__sync_from_perforce] prints the depot files under the target. *)
Variable p4_sync :
  TankPerforceDescriptor -> string -> gset string ->
  outcome unit * gset string.

(** [location_dict.get("path")] is used as a string before it is
    compared with [None]; once the [endswith] calls have returned it is
    a string, so that the final test comes down to the version. *)
Definition __init__ (pc_path bundle_install_path : string)
    (location_dict : gmap string string) (app_type : string)
  : outcome TankPerforceDescriptor :=
  match super_init pc_path bundle_install_path location_dict with
  | Raises e => Raises e
  | Returns _ =>
      match location_dict !! "path"%string with
      | None =>
          Raises (Builtin (AttributeError
                             "'NoneType' object has no attribute 'endswith'"))
      | Some path =>
          let path :=
            if endswith "/" path || endswith backslash path
            then str_take (String.length path - 1) path
            else path in
          match location_dict !! "version"%string with
          | None =>
              Raises (TankError ("Perforce descriptor is not valid: " +:+
                                 str_of_dict location_dict))
          | Some version => Returns (mkPerforce app_type path version)
          end
      end
  end.

Definition get_system_name (self : TankPerforceDescriptor) : string :=
  let bn := basename (_path self) in
  let '(name, ext) := splitext bn in
  name.

Definition get_version (self : TankPerforceDescriptor) : string :=
  _version self.

Definition get_path (self : TankPerforceDescriptor) : string :=
  let name := basename (_path self) in
  _get_local_location (_type self) "perforce" name (_version self).

Definition exists_local (self : TankPerforceDescriptor) (w : site) : bool :=
  bool_decide (get_path self ∈ disk w).

(** [os.makedirs(target, 0777)] on a target that does not exist; only
    the target itself is recorded, its parents are not asked for. *)
Definition makedirs (target : string) (w : site) : site :=
  mkSite ({[ target ]} ∪ disk w) (synced w).

Definition __sync_from_perforce (self : TankPerforceDescriptor)
    (target_path : string) (w : site) : outcome unit * site :=
  let '(r, disk') := p4_sync self target_path (disk w) in
  (r, mkSite disk' (synced w ++ [target_path])).

Definition download_local (self : TankPerforceDescriptor) (w : site)
    : outcome unit * site :=
  if exists_local self w then (Returns tt, w)
  else
    let target := get_path self in
    let w :=
      if negb (bool_decide (target ∈ disk w)) then makedirs target w
      else w in
    __sync_from_perforce self target w.

End Class.

End Perforce.

Module PerforceFacts.

Import Perforce.

(** ** Strings and their last character *)

Lemma append_nil_r (s : string) : s +:+ EmptyString = s.
Proof.
  induction s as [|x s IH]; [done|].
  change (String x s +:+ EmptyString) with (String x (s +:+ EmptyString)).
  by rewrite IH.
Qed.

Lemma append_assoc (a b c : string) : a +:+ (b +:+ c) = (a +:+ b) +:+ c.
Proof.
  induction a as [|x a IH]; [done|].
  change (String x a +:+ (b +:+ c)) with (String x (a +:+ (b +:+ c))).
  by rewrite IH.
Qed.

Lemma endswith_snoc (c a : ascii) (s : string) :
  endswith c (s +:+ String a EmptyString) = ascii_eqb a c.
Proof.
  induction s as [|x s IH]; [done|].
  change (String x s +:+ String a EmptyString)
    with (String x (s +:+ String a EmptyString)).
  simpl. rewrite IH. by destruct s.
Qed.

Lemma length_snoc (a : ascii) (s : string) :
  String.length (s +:+ String a EmptyString) = S (String.length s).
Proof.
  induction s as [|x s IH]; [done|].
  change (String x s +:+ String a EmptyString)
    with (String x (s +:+ String a EmptyString)).
  simpl. by rewrite IH.
Qed.

Lemma str_take_snoc (a : ascii) (s : string) :
  str_take (String.length (s +:+ String a EmptyString) - 1)
    (s +:+ String a EmptyString) = s.
Proof.
  rewrite length_snoc. simpl. rewrite Nat.sub_0_r.
  induction s as [|x s IH]; [done|].
  change (String x s +:+ String a EmptyString)
    with (String x (s +:+ String a EmptyString)).
  simpl. by rewrite IH.
Qed.

Lemma endswith_contains (c : ascii) (s : string) :
  endswith c s = true -> str_contains c s = true.
Proof.
  induction s as [|x s IH]; [done|]. simpl.
  destruct s as [|y s].
  - intros ->. done.
  - intros H. rewrite (IH H). by rewrite orb_true_r.
Qed.

Lemma endswith_app (c : ascii) (a b : string) :
  b <> EmptyString -> endswith c (a +:+ b) = endswith c b.
Proof.
  intros Hb. induction a as [|x a IH]; [done|].
  change (String x a +:+ b) with (String x (a +:+ b)). simpl.
  rewrite IH. destruct (a +:+ b) eqn:Hab; [|done].
  destruct a; [done|discriminate Hab].
Qed.

Lemma endswith_split (c : ascii) (s : string) :
  endswith c s = true ->
  s = str_take (String.length s - 1) s +:+ String c EmptyString.
Proof.
  destruct s as [|x s]; [done|]. simpl String.length.
  rewrite Nat.sub_succ, Nat.sub_0_r.
  revert x. induction s as [|y s IH]; intros x.
  - simpl. unfold ascii_eqb. by intros ->%Ascii.eqb_eq.
  - intros H. specialize (IH y H).
    change (str_take (String.length (String y s)) (String x (String y s)))
      with (String x (str_take (String.length s) (String y s))).
    change (String x ?a +:+ ?b) with (String x (a +:+ b)).
    by rewrite <- IH.
Qed.

(** ** [basename] and [splitext] *)

Lemma str_rfind_none (c : ascii) (s : string) :
  str_contains c s = false -> str_rfind c s = None.
Proof.
  induction s as [|x s IH]; [done|]. simpl.
  intros [Hx Hs]%orb_false_iff. by rewrite (IH Hs), Hx.
Qed.

Lemma basename_app (dir name : string) :
  str_contains "/" name = false ->
  basename (dir +:+ String "/" name) = name.
Proof.
  intros Hname. unfold basename.
  assert (str_rfind "/" (dir +:+ String "/" name)
          = Some (String.length dir)) as ->.
  { induction dir as [|x dir IH]; simpl.
    - by rewrite (str_rfind_none _ _ Hname).
    - by rewrite IH. }
  induction dir as [|x dir IH]; [done|exact IH].
Qed.

Lemma basename_plain (name : string) :
  str_contains "/" name = false -> basename name = name.
Proof. intros H. unfold basename. by rewrite (str_rfind_none _ _ H). Qed.

Lemma splitext_plain (name : string) :
  str_contains "." name = false -> splitext name = (name, EmptyString).
Proof. intros H. unfold splitext. by rewrite (str_rfind_none _ _ H). Qed.

Section Facts.

Variable str_of_dict : gmap string string -> string.
Variable super_init :
  string -> string -> gmap string string -> outcome unit.
Variable _get_local_location : string -> string -> string -> string -> string.
Variable p4_sync :
  TankPerforceDescriptor -> string -> gset string ->
  outcome unit * gset string.

(** X18: once the parent constructor has returned, [__init__] returns
    exactly when the location has a path and a version; a location
    without a path does not get the [TankError] of the validity check
    but an [AttributeError], one with a path and without a version gets
    the [TankError]; the stored path is the given one without its last
    character when that is a slash or a backslash, and the given one
    otherwise. *)
Theorem init_outcomes (pc_path bundle_install_path : string)
    (location_dict : gmap string string) (app_type : string) :
  super_init pc_path bundle_install_path location_dict = Returns tt ->
  match location_dict !! "path"%string, location_dict !! "version"%string with
  | None, _ =>
      __init__ str_of_dict super_init pc_path bundle_install_path
        location_dict app_type
      = Raises (Builtin (AttributeError
                           "'NoneType' object has no attribute 'endswith'"))
  | Some path, None =>
      __init__ str_of_dict super_init pc_path bundle_install_path
        location_dict app_type
      = Raises (TankError ("Perforce descriptor is not valid: " +:+
                           str_of_dict location_dict))
  | Some path, Some version =>
      exists stored : string,
        __init__ str_of_dict super_init pc_path bundle_install_path
          location_dict app_type
        = Returns (mkPerforce app_type stored version) /\
        (path = stored +:+ "/" \/
         path = stored +:+ String backslash EmptyString \/
         (path = stored /\ endswith "/" path = false /\
          endswith backslash path = false))
  end.
Proof.
  intros Hsuper. unfold __init__. rewrite Hsuper.
  destruct (location_dict !! "path"%string) as [path|]; [|done].
  destruct (location_dict !! "version"%string) as [version|]; [|done].
  destruct (endswith "/" path) eqn:Hslash; simpl.
  - eexists. split; [reflexivity|]. left. by apply endswith_split.
  - destruct (endswith backslash path) eqn:Hback.
    + eexists. split; [reflexivity|]. right. left. by apply endswith_split.
    + eexists. split; [reflexivity|]. right. by right.
Qed.

(** The name that [get_system_name] gives to a path whose last
    component, before one optional trailing separator, is [name]. *)
Lemma system_name_of_last_component (pc_path bundle_install_path : string)
    (location_dict : gmap string string) (app_type : string)
    (dir name tail version : string) :
  super_init pc_path bundle_install_path location_dict = Returns tt ->
  location_dict !! "path"%string = Some (dir +:+ String "/" name +:+ tail) ->
  location_dict !! "version"%string = Some version ->
  name <> EmptyString ->
  str_contains "/" name = false ->
  str_contains backslash name = false ->
  tail ∈ [EmptyString; "/"%string; String backslash EmptyString] ->
  exists self : TankPerforceDescriptor,
    __init__ str_of_dict super_init pc_path bundle_install_path
      location_dict app_type = Returns self /\
    _path self = dir +:+ String "/" name /\
    get_system_name self = (splitext name).1.
Proof.
  intros Hsuper Hpath Hversion Hne Hslash Hback Htail.
  assert (forall c : ascii, str_contains c name = false ->
            endswith c (dir +:+ String "/" name) = false) as Hend.
  { intros c Hc.
    rewrite endswith_app by done.
    change (endswith c (String "/" name))
      with (match name with
            | EmptyString => ascii_eqb "/" c
            | _ => endswith c name
            end).
    destruct name as [|x name]; [done|].
    destruct (endswith c (String x name)) eqn:He; [|done].
    apply endswith_contains in He. congruence. }
  exists (mkPerforce app_type (dir +:+ String "/" name) version).
  split.
  - unfold __init__. rewrite Hsuper, Hpath, Hversion.
    repeat (apply elem_of_cons in Htail as [->|Htail]).
    + rewrite append_nil_r. by rewrite !Hend.
    + rewrite append_assoc, endswith_snoc. simpl. by rewrite str_take_snoc.
    + rewrite append_assoc, !endswith_snoc.
      replace (ascii_eqb backslash backslash) with true by done.
      rewrite orb_true_r. by rewrite str_take_snoc.
    + by apply elem_of_nil in Htail.
  - split; [done|]. unfold get_system_name. simpl.
    rewrite basename_app by done. by destruct (splitext name).
Qed.

(** X19: for a path of the documented form, a depot path followed by
    [/...], the system name is [...] and not the name of the
    application, and the local location is asked for under that name:
    it depends on the depot path through nothing else. *)
Theorem documented_path_is_named_by_its_dots
    (pc_path bundle_install_path : string)
    (location_dict : gmap string string) (app_type depot version : string) :
  super_init pc_path bundle_install_path location_dict = Returns tt ->
  location_dict !! "path"%string = Some (depot +:+ "/...") ->
  location_dict !! "version"%string = Some version ->
  exists self : TankPerforceDescriptor,
    __init__ str_of_dict super_init pc_path bundle_install_path
      location_dict app_type = Returns self /\
    get_system_name self = "..."%string /\
    get_path _get_local_location self
    = _get_local_location app_type "perforce" "..." version.
Proof.
  intros Hsuper Hpath Hversion.
  destruct (system_name_of_last_component pc_path bundle_install_path
              location_dict app_type depot "..." EmptyString version
              Hsuper Hpath Hversion)
    as (self & Hinit & Hstored & Hname); [done..|left|].
  exists self. split; [exact Hinit|]. split; [exact Hname|].
  unfold get_path. rewrite Hstored.
  rewrite basename_app by done.
  unfold __init__ in Hinit. rewrite Hsuper, Hpath, Hversion in Hinit.
  destruct (_ || _) in Hinit; by injection Hinit as <-.
Qed.

(** X20: for a path that ends in a component without slash, backslash
    or dot, followed by at most one slash or backslash, the system name
    is that component. *)
Theorem system_name_is_last_component (pc_path bundle_install_path : string)
    (location_dict : gmap string string) (app_type : string)
    (dir name tail version : string) :
  super_init pc_path bundle_install_path location_dict = Returns tt ->
  location_dict !! "path"%string = Some (dir +:+ String "/" name +:+ tail) ->
  location_dict !! "version"%string = Some version ->
  name <> EmptyString ->
  str_contains "/" name = false ->
  str_contains backslash name = false ->
  str_contains "." name = false ->
  tail ∈ [EmptyString; "/"%string; String backslash EmptyString] ->
  exists self : TankPerforceDescriptor,
    __init__ str_of_dict super_init pc_path bundle_install_path
      location_dict app_type = Returns self /\
    get_system_name self = name.
Proof.
  intros Hsuper Hpath Hversion Hne Hslash Hback Hdot Htail.
  destruct (system_name_of_last_component pc_path bundle_install_path
              location_dict app_type dir name tail version
              Hsuper Hpath Hversion Hne Hslash Hback Htail)
    as (self & Hinit & _ & Hname).
  exists self. split; [exact Hinit|].
  by rewrite Hname, splitext_plain.
Qed.

(** X21: [exists_local] looks for the target folder, which
    [download_local] creates before it syncs; when the sync then fails,
    the folder stays, the descriptor counts as local, and a second
    [download_local] returns without syncing again. *)
Theorem failed_sync_is_not_retried (self : TankPerforceDescriptor)
    (w : site) (e : raised) (disk' : gset string) :
  exists_local _get_local_location self w = false ->
  p4_sync self (get_path _get_local_location self)
    ({[ get_path _get_local_location self ]} ∪ disk w) = (Raises e, disk') ->
  get_path _get_local_location self ∈ disk' ->
  exists w1 : site,
    download_local _get_local_location p4_sync self w = (Raises e, w1) /\
    exists_local _get_local_location self w1 = true /\
    download_local _get_local_location p4_sync self w1 = (Returns tt, w1) /\
    synced w1 = synced w ++ [get_path _get_local_location self].
Proof.
  intros Hlocal Hsync Hkept.
  exists (mkSite disk' (synced w ++ [get_path _get_local_location self])).
  assert (exists_local _get_local_location self
            (mkSite disk' (synced w ++ [get_path _get_local_location self]))
          = true) as Hnow.
  { unfold exists_local. simpl. by apply bool_decide_eq_true. }
  split.
  - unfold download_local. rewrite Hlocal.
    unfold exists_local in Hlocal. rewrite Hlocal. simpl.
    unfold __sync_from_perforce. simpl. by rewrite Hsync.
  - split; [exact Hnow|]. split; [|done].
    unfold download_local. by rewrite Hnow.
Qed.

End Facts.

(** ** A depot to run the descriptor against *)

Definition plain_init (pc_path bundle_install_path : string)
    (location_dict : gmap string string) : outcome unit :=
  Returns tt.

(** A local location in the style of the bundle cache. *)
Definition example_location (bundle_type descriptor_name name version : string)
  : string :=
  path_join "/install" [bundle_type; descriptor_name; name; version].

(** A server that cannot be reached: nothing is written. *)
Definition unreachable_sync (self : TankPerforceDescriptor) (target : string)
    (fs : gset string) : outcome unit * gset string :=
  (Raises (Builtin (IOError "connect to server failed")), fs).

Definition documented_location : gmap string string :=
  {[ "path" := "perforce:1666//depot/Shotgun/myApp/...";
     "version" := "v1.0.0" ]}%string.

Definition folder_location : gmap string string :=
  {[ "path" := "//depot/Shotgun/tk-myApp/"; "version" := "v1.0.0" ]}%string.

Definition pathless_location : gmap string string :=
  {[ "version" := "v1.0.0" ]}%string.

Lemma init_outcomes_witness :
  __init__ Uri.no_repr plain_init "/pc" "/install" pathless_location "app"
  = Raises (Builtin (AttributeError
                       "'NoneType' object has no attribute 'endswith'")).
Proof.
  apply (init_outcomes Uri.no_repr plain_init "/pc" "/install"
           pathless_location "app").
  reflexivity.
Defined.

Lemma documented_path_is_named_by_its_dots_witness :
  exists self : TankPerforceDescriptor,
    __init__ Uri.no_repr plain_init "/pc" "/install" documented_location "app"
    = Returns self /\
    get_system_name self = "..."%string /\
    get_path example_location self
    = example_location "app" "perforce" "..." "v1.0.0".
Proof.
  apply (documented_path_is_named_by_its_dots Uri.no_repr plain_init
           example_location "/pc" "/install" documented_location "app"
           "perforce:1666//depot/Shotgun/myApp" "v1.0.0");
    reflexivity.
Defined.

Lemma system_name_is_last_component_witness :
  exists self : TankPerforceDescriptor,
    __init__ Uri.no_repr plain_init "/pc" "/install" folder_location "app"
    = Returns self /\
    get_system_name self = "tk-myApp"%string.
Proof.
  apply (system_name_is_last_component Uri.no_repr plain_init
           "/pc" "/install" folder_location "app"
           "//depot/Shotgun" "tk-myApp" "/" "v1.0.0");
    try reflexivity; try done.
  right. left.
Defined.

Definition example_perforce : TankPerforceDescriptor :=
  mkPerforce "app" "//depot/Shotgun/tk-myApp" "v1.0.0".

Lemma failed_sync_is_not_retried_witness :
  exists w1 : site,
    download_local example_location unreachable_sync example_perforce
      (mkSite ∅ [])
    = (Raises (Builtin (IOError "connect to server failed")), w1) /\
    exists_local example_location example_perforce w1 = true /\
    download_local example_location unreachable_sync example_perforce w1
    = (Returns tt, w1) /\
    synced w1 = [] ++ [get_path example_location example_perforce].
Proof.
  apply (failed_sync_is_not_retried example_location unreachable_sync
           example_perforce (mkSite ∅ [])
           (Builtin (IOError "connect to server failed"))
           ({[ get_path example_location example_perforce ]} ∪ ∅)).
  - reflexivity.
  - reflexivity.
  - set_solver.
Defined.

End PerforceFacts.

(* ===================================================================== *)
(** * The core import handler:
      [python/tank_vendor/shotgun_deploy/import_handler.py] *)
(* ===================================================================== *)

Module Importer.

(** [ImportError] is the one exception the handler tells apart; any
    other is a built-in passed through. *)
Inductive raised : Type :=
| ImportError (msg : string)
| Builtin (e : exn).

(** A call returns, raises, or waits for a lock that nobody releases. *)
Inductive outcome (A : Type) : Type :=
| Returns (a : A)
| Raises (e : raised)
| Blocks.
Arguments Returns {A} a.
Arguments Raises {A} e.
Arguments Blocks {A}.

(** The triple of [imp.find_module]: an open file or [None], the file
    name, and the description (suffix, mode, type). *)
Record module_info : Type := mkInfo {
  file_obj : option nat;
  filename : string;
  description : string * string * Z
}.

(** The attributes of the handler.  [_core_change_lock] and
    [_module_info] are [None] as long as [__init__] has not created
    them; a lock is [Some true] while it is held.  The logger is left
    out: logging changes nothing here. *)
Record CoreImportHandler : Type := mkHandler {
  _core_path : string;
  _namespaces : list string;
  _core_change_lock : option bool;
  _module_info : option (gmap string module_info)
}.

Definition set_core_path_attr (self : CoreImportHandler) (path : string)
  : CoreImportHandler :=
  mkHandler path (_namespaces self) (_core_change_lock self)
    (_module_info self).

Definition set_lock (self : CoreImportHandler) (lock : option bool)
  : CoreImportHandler :=
  mkHandler (_core_path self) (_namespaces self) lock (_module_info self).

Definition set_module_info (self : CoreImportHandler)
    (infos : option (gmap string module_info)) : CoreImportHandler :=
  mkHandler (_core_path self) (_namespaces self) (_core_change_lock self)
    infos.

(** What the interpreter holds besides the handler: the paths that
    exist, [sys.modules] (names to module objects), the module objects
    whose [__loader__] is the handler, and the file objects closed. *)
Record machine : Type := mkMachine {
  disk : gset string;
  sys_modules : gmap string nat;
  loaded_by_handler : gset nat;
  closed_files : gset nat
}.

Definition set_sys_modules (m : machine) (modules : gmap string nat)
  : machine :=
  mkMachine (disk m) modules (loaded_by_handler m) (closed_files m).

(** The machine and the names handed to [__import__], in order. *)
Record interpreter : Type := mkInterpreter {
  engine : machine;
  imported : list string
}.

Section Handler.

(** [sys.modules.keys()]: the names in the order of the dictionary. *)
Variable keys : gmap string nat -> list string.

(** [imp.find_module(name, [path])]; [None] stands for its
    [ImportError]. *)
Variable imp_find_module : string -> string -> machine -> option module_info.

(** [imp.load_module] and [__import__] run the code of modules.  They
    reach the handler only through [find_module] and [load_module],
    which write nothing but [_module_info]. *)
Variable imp_load_module :
  string -> module_info ->
  option (gmap string module_info) * machine ->
  (raised + nat) * (option (gmap string module_info) * machine).
Variable import_hook :
  string -> option (gmap string module_info) * machine ->
  option raised * (option (gmap string module_info) * machine).

Definition core_path (self : CoreImportHandler) : string := _core_path self.

Definition namespaces (self : CoreImportHandler) : list string :=
  _namespaces self.

(** [module.split(".")[0]] *)
Definition package_of (module : string) : string :=
  hd EmptyString (str_split "." module).

(** The body of the loop over [sys.modules.keys()] *)
Definition purge_step (spaces : list string)
    (acc : list string * gmap string nat) (module : string)
  : list string * gmap string nat :=
  let package_name := package_of module in
  if bool_decide (package_name ∈ spaces)
  then (acc.1 ++ [module], delete module acc.2)
  else acc.

(** The loop over [modules_to_import] *)
Fixpoint reimport (modules : list string) (self : CoreImportHandler)
    (it : interpreter) : outcome unit * (CoreImportHandler * interpreter) :=
  match modules with
  | [] => (Returns tt, (self, it))
  | module :: rest =>
      let '(r, (infos, m)) := import_hook module (_module_info self, engine it) in
      let self := set_module_info self infos in
      let it := mkInterpreter m (imported it ++ [module]) in
      match r with
      | None => reimport rest self it
      | Some (ImportError _) => reimport rest self it
      | Some e => (Raises e, (self, it))
      end
  end.

Definition set_core_path (path : string)
    (st : CoreImportHandler * interpreter)
  : outcome unit * (CoreImportHandler * interpreter) :=
  let '(self, it) := st in
  if String.eqb path (core_path self) then (Returns tt, (self, it))
  else if negb (bool_decide (path ∈ disk (engine it))) then
    (Raises (Builtin (ValueError
                        ("The supplied core path is not a valid directory: '"
                         +:+ path +:+ "'."))), (self, it))
  else
    let self := set_core_path_attr self path in
    match _core_change_lock self with
    | None =>
        (Raises (Builtin (AttributeError
           "'CoreImportHandler' object has no attribute '_core_change_lock'")),
         (self, it))
    | Some true => (Blocks, (self, it))
    | Some false =>
        let self := set_lock self (Some true) in
        let '(modules_to_import, modules) :=
          fold_left (purge_step (namespaces self))
            (keys (sys_modules (engine it)))
            ([], sys_modules (engine it)) in
        let it :=
          mkInterpreter (set_sys_modules (engine it) modules) (imported it) in
        match reimport modules_to_import self it with
        | (Returns _, (self, it)) =>
            (Returns tt, (set_lock self (Some false), it))
        | r => r
        end
    end.

Definition __init__ (namespaces : list string) (core_path : string)
    (it : interpreter) : outcome CoreImportHandler * interpreter :=
  let self := mkHandler core_path namespaces None None in
  match set_core_path core_path (self, it) with
  | (Returns _, (self, it)) =>
      let self := set_lock self (Some false) in
      let self := set_module_info self (Some ∅) in
      (Returns self, it)
  | (Raises e, (_, it)) => (Raises e, it)
  | (Blocks, (_, it)) => (Blocks, it)
  end.

(** [find_module] returns the handler itself or [None]: [true] stands
    for the handler. *)
Definition find_module (module_fullname : string)
    (st : CoreImportHandler * interpreter)
  : outcome bool * (CoreImportHandler * interpreter) :=
  let '(self, it) := st in
  let module_path_parts := str_split "." module_fullname in
  let package_name := hd EmptyString module_path_parts in
  if negb (bool_decide (package_name ∈ _namespaces self)) then
    (Returns false, (self, it))
  else
    let module_name := List.last module_path_parts EmptyString in
    let module_path_parts := removelast module_path_parts in
    let module_path :=
      match module_path_parts with
      | first :: others => path_join first others
      | [] => EmptyString
      end in
    let path := path_join (core_path self) [module_path] in
    match imp_find_module module_name path (engine it) with
    | Some info =>
        match _module_info self with
        | Some infos =>
            (Returns true,
             (set_module_info self (Some (<[module_fullname := info]> infos)),
              it))
        | None =>
            (Raises (Builtin (AttributeError
               "'CoreImportHandler' object has no attribute '_module_info'")),
             (self, it))
        end
    | None => (Returns false, (self, it))
    end.

(** [file_obj.close()] when there is a file object *)
Definition close_file (file : option nat) (m : machine) : machine :=
  match file with
  | Some f =>
      mkMachine (disk m) (sys_modules m) (loaded_by_handler m)
        ({[ f ]} ∪ closed_files m)
  | None => m
  end.

Definition load_module (module_fullname : string)
    (st : CoreImportHandler * interpreter)
  : outcome nat * (CoreImportHandler * interpreter) :=
  let '(self, it) := st in
  match _module_info self with
  | None =>
      (Raises (Builtin (AttributeError
         "'CoreImportHandler' object has no attribute '_module_info'")),
       (self, it))
  | Some infos =>
      match infos !! module_fullname with
      | None => (Raises (Builtin (KeyError module_fullname)), (self, it))
      | Some info =>
          let '(loaded, (infos, m)) :=
            imp_load_module module_fullname info (Some infos, engine it) in
          (* sys.modules.setdefault *)
          let '(r, m) :=
            match loaded with
            | inl e => (Raises e, m)
            | inr module =>
                match sys_modules m !! module_fullname with
                | Some existing => (Returns existing, m)
                | None =>
                    (Returns module,
                     set_sys_modules m
                       (<[module_fullname := module]> (sys_modules m)))
                end
            end in
          (* finally *)
          let m := close_file (file_obj info) m in
          let it := mkInterpreter m (imported it) in
          match infos with
          | None =>
              (Raises (Builtin (AttributeError
                 "'CoreImportHandler' object has no attribute '_module_info'")),
               (set_module_info self infos, it))
          | Some infos =>
              match infos !! module_fullname with
              | None =>
                  (Raises (Builtin (KeyError module_fullname)),
                   (set_module_info self (Some infos), it))
              | Some _ =>
                  let self :=
                    set_module_info self
                      (Some (delete module_fullname infos)) in
                  match r with
                  | Returns module =>
                      let m :=
                        mkMachine (disk m) (sys_modules m)
                          ({[ module ]} ∪ loaded_by_handler m)
                          (closed_files m) in
                      (Returns module,
                       (self, mkInterpreter m (imported it)))
                  | r => (r, (self, it))
                  end
              end
          end
      end
  end.

End Handler.

End Importer.

Module ImporterFacts.

Import Importer.

(** ** Paths made of plain components *)

(** A path component that [os.path.join] appends after a slash. *)
Definition plain (p : string) : Prop :=
  p <> EmptyString /\ startswith "/" p = false /\ endswith "/" p = false.

Lemma str_join_absorb (sep a p : string) (ps : list string) :
  str_join sep ((a +:+ sep +:+ p) :: ps) = a +:+ sep +:+ str_join sep (p :: ps).
Proof.
  destruct ps as [|q qs]; [done|].
  change (str_join sep ((a +:+ sep +:+ p) :: q :: qs))
    with ((a +:+ sep +:+ p) +:+ sep +:+ str_join sep (q :: qs)).
  change (str_join sep (p :: q :: qs))
    with (p +:+ sep +:+ str_join sep (q :: qs)).
  by rewrite <- !PerforceFacts.append_assoc.
Qed.

Lemma path_join_plain (a : string) (ps : list string) :
  a <> EmptyString -> endswith "/" a = false -> Forall plain ps ->
  path_join a ps = str_join "/" (a :: ps).
Proof.
  intros Ha Hend Hps. revert a Ha Hend.
  induction Hps as [|p ps (Hp & Hstart & Hpend) _ IH]; intros a Ha Hend.
  - done.
  - change (path_join a (p :: ps)) with (path_join (path_join2 a p) ps).
    assert (path_join2 a p = a +:+ "/" +:+ p) as ->.
    { unfold path_join2. rewrite Hstart, Hend.
      destruct (String.eqb_spec a EmptyString); done. }
    rewrite IH.
    + apply str_join_absorb.
    + by destruct a.
    + rewrite PerforceFacts.append_assoc, PerforceFacts.endswith_app; done.
Qed.

(** ** The loop over [sys.modules] *)

Definition in_namespaces (spaces : list string) (module : string) : Prop :=
  package_of module ∈ spaces.

#[global] Instance in_namespaces_dec (spaces : list string) (module : string) :
  Decision (in_namespaces spaces module).
Proof. unfold in_namespaces. apply _. Defined.

Lemma purge_fold (spaces : list string) (l acc : list string)
    (m : gmap string nat) :
  fold_left (purge_step spaces) l (acc, m)
  = (acc ++ filter (in_namespaces spaces) l,
     foldr delete m (filter (in_namespaces spaces) l)).
Proof.
  revert acc m. induction l as [|x l IH]; intros acc m; simpl.
  - by rewrite app_nil_r.
  - rewrite filter_cons.
    destruct (decide (in_namespaces spaces x)) as [Hx|Hx].
    + assert (purge_step spaces (acc, m) x = (acc ++ [x], delete x m)) as ->.
      { unfold purge_step. by rewrite bool_decide_eq_true_2. }
      rewrite IH, <- app_assoc. simpl. f_equal. clear IH.
      induction (filter (in_namespaces spaces) l) as [|y ys IHy]; [done|].
      simpl. rewrite IHy. apply delete_delete.
    + assert (purge_step spaces (acc, m) x = (acc, m)) as ->.
      { unfold purge_step. by rewrite bool_decide_eq_false_2. }
      apply IH.
Qed.

Lemma lookup_foldr_delete (l : list string) (m : gmap string nat)
    (k : string) :
  foldr delete m l !! k = if decide (k ∈ l) then None else m !! k.
Proof.
  induction l as [|x l IH].
  - destruct (decide (k ∈ [])) as [H|_]; [by apply elem_of_nil in H|done].
  - change (foldr delete m (x :: l)) with (delete x (foldr delete m l)).
    destruct (decide (k ∈ x :: l)) as [Hin|Hout].
    + destruct (decide (x = k)) as [->|Hne]; [apply lookup_delete_eq|].
      apply elem_of_cons in Hin as [->|Hin]; [done|].
      rewrite lookup_delete_ne, IH by done. by rewrite decide_True.
    + apply not_elem_of_cons in Hout as [Hne Hout].
      rewrite lookup_delete_ne, IH by done. by rewrite decide_False.
Qed.

Section Facts.

Variable keys : gmap string nat -> list string.
Variable imp_find_module : string -> string -> machine -> option module_info.
Variable imp_load_module :
  string -> module_info ->
  option (gmap string module_info) * machine ->
  (raised + nat) * (option (gmap string module_info) * machine).
Variable import_hook :
  string -> option (gmap string module_info) * machine ->
  option raised * (option (gmap string module_info) * machine).

Hypothesis keys_perm :
  forall modules : gmap string nat, keys modules ≡ₚ (map_to_list modules).*1.

(** X22: the constructor stores the core path before it calls
    [set_core_path] with it, which therefore returns at once: the path
    is not checked and nothing is re-imported, whereas the same missing
    path handed to [set_core_path] on a handler with another core path
    is refused with a [ValueError] that changes nothing. *)
Theorem constructor_accepts_missing_core_path (spaces : list string)
    (path : string) (it : interpreter) :
  path ∉ disk (engine it) ->
  __init__ keys import_hook spaces path it
  = (Returns (mkHandler path spaces (Some false) (Some ∅)), it) /\
  forall self : CoreImportHandler,
    core_path self <> path ->
    set_core_path keys import_hook path (self, it)
    = (Raises (Builtin (ValueError
                          ("The supplied core path is not a valid directory: '"
                           +:+ path +:+ "'."))), (self, it)).
Proof.
  intros Hmissing. split.
  - unfold __init__, set_core_path, core_path. simpl.
    by rewrite String.eqb_refl.
  - intros self Hother. unfold set_core_path.
    destruct (String.eqb_spec path (core_path self)) as [->|_]; [done|].
    by rewrite bool_decide_eq_false_2.
Qed.

(** The attributes that the re-imports leave alone. *)
Definition same_settings (a b : CoreImportHandler) : Prop :=
  _core_path a = _core_path b /\
  _namespaces a = _namespaces b /\
  _core_change_lock a = _core_change_lock b.

Lemma reimport_settings (modules : list string) (self self' : CoreImportHandler)
    (it it' : interpreter) (r : outcome unit) :
  reimport import_hook modules self it = (r, (self', it')) ->
  same_settings self self' /\ r <> Blocks.
Proof.
  revert self it. induction modules as [|module rest IH]; intros self it; simpl.
  - by intros [= <- <- <-].
  - destruct (import_hook module (_module_info self, engine it))
      as [[[msg|e]|] [infos m]]; simpl.
    + intros [Hs Hr]%IH. split; [|done]. by destruct Hs as (? & ? & ?).
    + by intros [= <- <- <-].
    + intros [Hs Hr]%IH. split; [|done]. by destruct Hs as (? & ? & ?).
Qed.

Lemma reimport_all (modules : list string) (self : CoreImportHandler)
    (it : interpreter) :
  (forall module st e, (import_hook module st).1 <> Some (Builtin e)) ->
  exists (self' : CoreImportHandler) (it' : interpreter),
    reimport import_hook modules self it = (Returns tt, (self', it')) /\
    imported it' = imported it ++ modules.
Proof.
  intros Hhook. revert self it.
  induction modules as [|module rest IH]; intros self it; simpl.
  - eexists _, _. split; [done|]. by rewrite app_nil_r.
  - pose proof (Hhook module (_module_info self, engine it)) as Hr.
    destruct (import_hook module (_module_info self, engine it))
      as [[[msg|e]|] [infos m]]; simpl in *.
    + destruct (IH (set_module_info self infos)
                  (mkInterpreter m (imported it ++ [module])))
        as (self' & it' & -> & Himp).
      eexists _, _. split; [done|]. rewrite Himp. simpl.
      by rewrite <- app_assoc.
    + by destruct (Hr e).
    + destruct (IH (set_module_info self infos)
                  (mkInterpreter m (imported it ++ [module])))
        as (self' & it' & -> & Himp).
      eexists _, _. split; [done|]. rewrite Himp. simpl.
      by rewrite <- app_assoc.
Qed.

(** X23: on a switch to another, existing core path, when no re-import
    raises anything but [ImportError], [set_core_path] returns with the
    new path set and the lock released, and [__import__] has been asked
    for exactly the modules of [sys.modules] whose first dotted
    component is a namespace, each once, in the order of [keys]. *)
Theorem set_core_path_reimports_namespaces (path : string)
    (self : CoreImportHandler) (it : interpreter) :
  _core_change_lock self = Some false ->
  path <> core_path self ->
  path ∈ disk (engine it) ->
  (forall module st e, (import_hook module st).1 <> Some (Builtin e)) ->
  exists (self' : CoreImportHandler) (it' : interpreter),
    set_core_path keys import_hook path (self, it)
    = (Returns tt, (self', it')) /\
    core_path self' = path /\
    _namespaces self' = _namespaces self /\
    _core_change_lock self' = Some false /\
    imported it'
    = imported it ++
      filter (in_namespaces (_namespaces self)) (keys (sys_modules (engine it)))
    /\
    NoDup (filter (in_namespaces (_namespaces self))
             (keys (sys_modules (engine it)))).
Proof.
  intros Hlock Hother Hexists Hhook. unfold set_core_path.
  destruct (String.eqb_spec path (core_path self)) as [|_]; [done|].
  rewrite (bool_decide_eq_true_2 _ Hexists). simpl. rewrite Hlock.
  unfold namespaces. simpl. rewrite purge_fold. simpl.
  match goal with
  | |- context [reimport _ ?ms ?s ?i] =>
      destruct (reimport_all ms s i Hhook) as (self' & it' & Hrun & Himp);
      pose proof (reimport_settings _ _ _ _ _ _ Hrun) as [(Hp & Hn & _) _]
  end.
  rewrite Hrun. eexists _, _. split; [reflexivity|].
  simpl in *. unfold core_path. simpl.
  repeat split; try done.
  apply NoDup_filter. rewrite keys_perm. apply NoDup_fst_map_to_list.
Qed.

Lemma set_module_info_same (self : CoreImportHandler) :
  set_module_info self (_module_info self) = self.
Proof. by destruct self. Qed.

Lemma reimport_idle (modules : list string) (self : CoreImportHandler)
    (it : interpreter) :
  (forall module st, exists msg,
      import_hook module st = (Some (ImportError msg), st)) ->
  reimport import_hook modules self it
  = (Returns tt, (self, mkInterpreter (engine it) (imported it ++ modules))).
Proof.
  intros Hhook. revert it.
  induction modules as [|module rest IH]; intros it; simpl.
  - rewrite app_nil_r. by destruct it.
  - destruct (Hhook module (_module_info self, engine it)) as [msg ->].
    rewrite set_module_info_same, IH. simpl. by rewrite <- app_assoc.
Qed.

(** X24: on a switch to another, existing core path from which none of
    the modules can be imported, [set_core_path] returns, and
    [sys.modules] has lost exactly the modules whose first dotted
    component is a namespace: every other module is still there. *)
Theorem unimportable_namespaces_are_purged (path : string)
    (self : CoreImportHandler) (it : interpreter) :
  _core_change_lock self = Some false ->
  path <> core_path self ->
  path ∈ disk (engine it) ->
  (forall module st, exists msg,
      import_hook module st = (Some (ImportError msg), st)) ->
  exists it' : interpreter,
    set_core_path keys import_hook path (self, it)
    = (Returns tt, (set_core_path_attr self path, it')) /\
    disk (engine it') = disk (engine it) /\
    forall name : string,
      sys_modules (engine it') !! name
      = if decide (in_namespaces (_namespaces self) name) then None
        else sys_modules (engine it) !! name.
Proof.
  intros Hlock Hother Hexists Hhook. unfold set_core_path.
  destruct (String.eqb_spec path (core_path self)) as [|_]; [done|].
  rewrite (bool_decide_eq_true_2 _ Hexists). simpl. rewrite Hlock.
  unfold namespaces. simpl. rewrite purge_fold. simpl.
  rewrite reimport_idle by done. simpl.
  eexists. split.
  { f_equal. f_equal. destruct self. simpl in *. by subst. }
  split; [done|]. intros name. simpl. rewrite lookup_foldr_delete.
  destruct (decide (in_namespaces (_namespaces self) name)) as [Hin|Hout].
  - destruct (decide (name ∈ filter (in_namespaces (_namespaces self))
                        (keys (sys_modules (engine it))))) as [|Hnot];
      [done|].
    destruct (sys_modules (engine it) !! name) as [module|] eqn:Hname; [|done].
    destruct Hnot. apply list_elem_of_filter. split; [done|].
    rewrite keys_perm. apply list_elem_of_fmap.
    exists (name, module). split; [done|]. by apply elem_of_map_to_list.
  - rewrite decide_False; [done|].
    by intros [? _]%list_elem_of_filter.
Qed.

Lemma reimport_raises (modules : list string) (module : string)
    (self : CoreImportHandler) (it : interpreter) :
  module ∈ modules ->
  (forall st, exists e, (import_hook module st).1 = Some (Builtin e)) ->
  exists (e : exn) (self' : CoreImportHandler) (it' : interpreter),
    reimport import_hook modules self it = (Raises (Builtin e), (self', it')).
Proof.
  intros Hin Hhook. revert self it.
  induction modules as [|head rest IH]; intros self it.
  { by apply elem_of_nil in Hin. }
  simpl.
  destruct (import_hook head (_module_info self, engine it))
    as [[[msg|e]|] [infos m]] eqn:Hhead; simpl.
  - apply IH. apply elem_of_cons in Hin as [->|Hin]; [|done].
    destruct (Hhook (_module_info self, engine it)) as [e He].
    rewrite Hhead in He. discriminate He.
  - by eexists _, _, _.
  - apply IH. apply elem_of_cons in Hin as [->|Hin]; [|done].
    destruct (Hhook (_module_info self, engine it)) as [e He].
    rewrite Hhead in He. discriminate He.
Qed.

(** X25: the lock is released only after the last re-import.  When the
    re-import of a module of the namespaces raises something other
    than [ImportError], [set_core_path] raises with the new core path
    already set and the lock still held, and every later switch to
    another existing path waits for that lock. *)
Theorem failed_reimport_keeps_the_lock (path module : string)
    (self : CoreImportHandler) (it : interpreter) :
  _core_change_lock self = Some false ->
  path <> core_path self ->
  path ∈ disk (engine it) ->
  is_Some (sys_modules (engine it) !! module) ->
  in_namespaces (_namespaces self) module ->
  (forall st, exists e, (import_hook module st).1 = Some (Builtin e)) ->
  exists (e : exn) (self' : CoreImportHandler) (it' : interpreter),
    set_core_path keys import_hook path (self, it)
    = (Raises (Builtin e), (self', it')) /\
    core_path self' = path /\
    _core_change_lock self' = Some true /\
    forall (path2 : string) (it2 : interpreter),
      path2 <> path -> path2 ∈ disk (engine it2) ->
      (set_core_path keys import_hook path2 (self', it2)).1 = Blocks.
Proof.
  intros Hlock Hother Hexists [object Hmodule] Hspace Hhook.
  unfold set_core_path at 1.
  destruct (String.eqb_spec path (core_path self)) as [|_]; [done|].
  rewrite (bool_decide_eq_true_2 _ Hexists). simpl. rewrite Hlock.
  unfold namespaces. simpl. rewrite purge_fold. simpl.
  match goal with
  | |- context [reimport _ ?ms ?s ?i] =>
      destruct (reimport_raises ms module s i) as (e & self' & it' & Hrun);
      [|exact Hhook|
       pose proof (reimport_settings _ _ _ _ _ _ Hrun) as [(Hp & _ & Hl) _]]
  end.
  { apply list_elem_of_filter. split; [done|].
    rewrite keys_perm. apply list_elem_of_fmap.
    exists (module, object). split; [done|]. by apply elem_of_map_to_list. }
  rewrite Hrun. exists e, self', it'. split; [done|].
  simpl in Hp, Hl. unfold core_path. split; [done|]. split; [done|].
  intros path2 it2 Hother2 Hexists2. unfold set_core_path, core_path.
  rewrite <- Hp.
  destruct (String.eqb_spec path2 path) as [|_]; [done|].
  rewrite (bool_decide_eq_true_2 _ Hexists2). simpl. by rewrite <- Hl.
Qed.

(** X26: for a dotted name whose first component is a namespace,
    [find_module] asks [imp.find_module] for the last component in the
    directory made of the core path and the components before it, one
    folder each (the core path followed by a slash for a top-level
    name); it returns the handler and stores the module information
    under the full name exactly when the module is found there, and
    returns [None] and stores nothing otherwise.  The package path that
    Python hands over plays no part. *)
Theorem find_module_searches_under_core_path (packages : list string)
    (name : string) (self : CoreImportHandler) (it : interpreter)
    (infos : gmap string module_info) :
  Forall (fun part => str_contains "." part = false) (packages ++ [name]) ->
  Forall plain packages ->
  hd name packages ∈ _namespaces self ->
  core_path self <> EmptyString ->
  endswith "/" (core_path self) = false ->
  _module_info self = Some infos ->
  find_module imp_find_module (str_join "." (packages ++ [name])) (self, it)
  = match imp_find_module name
            (core_path self +:+ "/" +:+ str_join "/" packages) (engine it) with
    | Some info =>
        (Returns true,
         (set_module_info self
            (Some (<[str_join "." (packages ++ [name]) := info]> infos)), it))
    | None => (Returns false, (self, it))
    end.
Proof.
  intros Hdots Hplain Hspace Hcore Hend Hinfos. unfold find_module.
  rewrite UriFacts.str_split_join; [|by destruct packages|done].
  assert (hd EmptyString (packages ++ [name]) = hd name packages) as ->
    by by destruct packages.
  rewrite (bool_decide_eq_true_2 _ Hspace). simpl negb. cbv iota.
  rewrite last_last, removelast_last, Hinfos.
  assert (path_join (core_path self)
            [match packages with
             | first :: others => path_join first others
             | [] => EmptyString
             end]
          = core_path self +:+ "/" +:+ str_join "/" packages) as ->; [|done].
  destruct packages as [|first others].
  - unfold path_join. simpl. unfold path_join2. simpl. rewrite Hend.
    destruct (String.eqb_spec (core_path self) EmptyString); [done|].
    simpl. by rewrite PerforceFacts.append_nil_r.
  - apply Forall_cons in Hplain as [(Hne & Hstart & Hfend) Hothers].
    rewrite (path_join_plain first others) by done.
    change (path_join (core_path self) [str_join "/" (first :: others)])
      with (path_join2 (core_path self) (str_join "/" (first :: others))).
    unfold path_join2. rewrite Hend.
    destruct (String.eqb_spec (core_path self) EmptyString); [done|].
    assert (startswith "/" (str_join "/" (first :: others)) = false) as ->;
      [|done].
    destruct others; [done|].
    change (str_join "/" (first :: s :: others))
      with (first +:+ "/" +:+ str_join "/" (s :: others)).
    by destruct first.
Qed.

Lemma package_of_dotted (package rest : string) :
  str_contains "." package = false ->
  package_of (package +:+ String "." rest) = package.
Proof.
  intros Hp. unfold package_of. by rewrite UriFacts.str_split_app.
Qed.

Lemma package_of_plain (package : string) :
  str_contains "." package = false -> package_of package = package.
Proof.
  intros Hp. unfold package_of. by rewrite UriFacts.str_split_none.
Qed.

(** X27: a module whose text before the first dot is not one of the
    namespaces is left to the other importers: [find_module] returns
    [None] for it and for everything below it, without asking
    [imp.find_module] and without storing anything. *)
Theorem foreign_modules_are_left_alone (package rest : string)
    (self : CoreImportHandler) (it : interpreter) :
  str_contains "." package = false ->
  package ∉ _namespaces self ->
  find_module imp_find_module package (self, it)
  = (Returns false, (self, it)) /\
  find_module imp_find_module (package +:+ String "." rest) (self, it)
  = (Returns false, (self, it)).
Proof.
  intros Hp Hforeign.
  pose proof (package_of_plain package Hp) as Hplain.
  pose proof (package_of_dotted package rest Hp) as Hdotted.
  unfold package_of in Hplain, Hdotted. unfold find_module.
  rewrite Hplain, Hdotted. by rewrite bool_decide_eq_false_2.
Qed.

(** X28: [load_module] uses up what [find_module] stored.  Whether
    [imp.load_module] returns or raises, afterwards the module
    information for that name is gone and the file object that came
    with it is closed, so that a second [load_module] for the name,
    without a new [find_module], raises [KeyError]. *)
Theorem load_module_consumes_module_info (module_fullname : string)
    (self : CoreImportHandler) (it : interpreter)
    (infos : gmap string module_info) (info : module_info) :
  _module_info self = Some infos ->
  infos !! module_fullname = Some info ->
  forall (r : outcome nat) (self' : CoreImportHandler) (it' : interpreter),
    load_module imp_load_module module_fullname (self, it)
    = (r, (self', it')) ->
    (forall file, file_obj info = Some file ->
                  file ∈ closed_files (engine it')) /\
    (forall left_infos, _module_info self' = Some left_infos ->
                        left_infos !! module_fullname = None) /\
    (is_Some (_module_info self') ->
     forall it2 : interpreter,
       load_module imp_load_module module_fullname (self', it2)
       = (Raises (Builtin (KeyError module_fullname)), (self', it2))).
Proof.
  clear keys_perm keys import_hook imp_find_module.
  intros Hinfos Hinfo r self' it' Hrun.
  assert ((forall file, file_obj info = Some file ->
                        file ∈ closed_files (engine it')) /\
          (forall left_infos, _module_info self' = Some left_infos ->
                              left_infos !! module_fullname = None))
    as [Hfile Hgone].
  { revert Hrun. unfold load_module. rewrite Hinfos, Hinfo.
    destruct (imp_load_module module_fullname info (Some infos, engine it))
      as [loaded [infos1 m1]].
    assert (forall (m : machine) file, file_obj info = Some file ->
              file ∈ closed_files (close_file (file_obj info) m)) as Hclose.
    { intros m file ->. simpl. set_solver. }
    destruct loaded as [e|module];
      [|destruct (sys_modules m1 !! module_fullname) as [existing|]];
      (destruct infos1 as [infos1|];
       [destruct (infos1 !! module_fullname) as [info1|] eqn:Hinfo1|]);
      intros [= <- <- <-]; cbn [engine closed_files _module_info
                                 set_module_info];
      (split; [apply Hclose|]);
      intros left_infos [= <-]; done || apply lookup_delete_eq. }
  split; [exact Hfile|]. split; [exact Hgone|].
  intros [left_infos Hleft] it2. unfold load_module.
  by rewrite Hleft, (Hgone left_infos Hleft).
Qed.

End Facts.

(** ** An interpreter to run the handler in *)

Definition sorted_keys (modules : gmap string nat) : list string :=
  (map_to_list modules).*1.

Lemma sorted_keys_perm (modules : gmap string nat) :
  sorted_keys modules ≡ₚ (map_to_list modules).*1.
Proof. reflexivity. Qed.

(** Every import goes through. *)
Definition quiet_import (module : string)
    (st : option (gmap string module_info) * machine)
  : option raised * (option (gmap string module_info) * machine) :=
  (None, st).

(** The new core has none of the modules. *)
Definition missing_import (module : string)
    (st : option (gmap string module_info) * machine)
  : option raised * (option (gmap string module_info) * machine) :=
  (Some (ImportError ("No module named " +:+ module)), st).

(** A module of the new core fails while it runs. *)
Definition broken_import (module : string)
    (st : option (gmap string module_info) * machine)
  : option raised * (option (gmap string module_info) * machine) :=
  (Some (Builtin (RuntimeError "boom")), st).

(** Every module is found as a source file in the directory searched. *)
Definition source_file (name path : string) (m : machine)
  : option module_info :=
  Some (mkInfo (Some 7%nat) (path +:+ "/" +:+ name +:+ ".py") (".py", "U", 1)).

(** Loading fails. *)
Definition failing_load (name : string) (info : module_info)
    (st : option (gmap string module_info) * machine)
  : (raised + nat) * (option (gmap string module_info) * machine) :=
  (inl (Builtin (RuntimeError "boom")), st).

Definition example_machine : machine :=
  mkMachine {[ "/core/new"%string ]}
    {[ "sgtk" := 1%nat; "sgtk.util" := 2%nat; "os" := 3%nat ]}%string ∅ ∅.

Definition example_interpreter : interpreter :=
  mkInterpreter example_machine [].

Definition example_handler : CoreImportHandler :=
  mkHandler "/core/old" ["sgtk"; "tank"]%string (Some false) (Some ∅).

Definition found_handler : CoreImportHandler :=
  mkHandler "/core/old" ["sgtk"; "tank"]%string (Some false)
    (Some {[ "sgtk.util"%string :=
               mkInfo (Some 7%nat) "/core/old/sgtk/util.py" (".py", "U", 1) ]}).

Lemma constructor_accepts_missing_core_path_witness :
  __init__ sorted_keys quiet_import ["sgtk"%string] "/nowhere"
    example_interpreter
  = (Returns (mkHandler "/nowhere" ["sgtk"%string] (Some false) (Some ∅)),
     example_interpreter) /\
  forall self : CoreImportHandler,
    core_path self <> "/nowhere"%string ->
    set_core_path sorted_keys quiet_import "/nowhere"
      (self, example_interpreter)
    = (Raises (Builtin (ValueError
                          ("The supplied core path is not a valid directory: '"
                           +:+ "/nowhere" +:+ "'."))),
       (self, example_interpreter)).
Proof.
  apply (constructor_accepts_missing_core_path sorted_keys quiet_import
           ["sgtk"%string] "/nowhere" example_interpreter).
  vm_compute. set_solver.
Defined.

Lemma set_core_path_reimports_namespaces_witness :
  exists (self' : CoreImportHandler) (it' : interpreter),
    set_core_path sorted_keys quiet_import "/core/new"
      (example_handler, example_interpreter)
    = (Returns tt, (self', it')) /\
    core_path self' = "/core/new"%string /\
    _namespaces self' = _namespaces example_handler /\
    _core_change_lock self' = Some false /\
    imported it'
    = imported example_interpreter ++
      filter (in_namespaces (_namespaces example_handler))
        (sorted_keys (sys_modules (engine example_interpreter)))
    /\
    NoDup (filter (in_namespaces (_namespaces example_handler))
             (sorted_keys (sys_modules (engine example_interpreter)))).
Proof.
  apply (set_core_path_reimports_namespaces sorted_keys quiet_import
           sorted_keys_perm "/core/new" example_handler example_interpreter).
  - reflexivity.
  - done.
  - vm_compute. set_solver.
  - done.
Defined.

Lemma unimportable_namespaces_are_purged_witness :
  exists it' : interpreter,
    set_core_path sorted_keys missing_import "/core/new"
      (example_handler, example_interpreter)
    = (Returns tt, (set_core_path_attr example_handler "/core/new", it')) /\
    disk (engine it') = disk (engine example_interpreter) /\
    forall name : string,
      sys_modules (engine it') !! name
      = if decide (in_namespaces (_namespaces example_handler) name) then None
        else sys_modules (engine example_interpreter) !! name.
Proof.
  apply (unimportable_namespaces_are_purged sorted_keys missing_import
           sorted_keys_perm "/core/new" example_handler example_interpreter).
  - reflexivity.
  - done.
  - vm_compute. set_solver.
  - intros module st. by eexists.
Defined.

Lemma failed_reimport_keeps_the_lock_witness :
  exists (e : exn) (self' : CoreImportHandler) (it' : interpreter),
    set_core_path sorted_keys broken_import "/core/new"
      (example_handler, example_interpreter)
    = (Raises (Builtin e), (self', it')) /\
    core_path self' = "/core/new"%string /\
    _core_change_lock self' = Some true /\
    forall (path2 : string) (it2 : interpreter),
      path2 <> "/core/new"%string -> path2 ∈ disk (engine it2) ->
      (set_core_path sorted_keys broken_import path2 (self', it2)).1 = Blocks.
Proof.
  apply (failed_reimport_keeps_the_lock sorted_keys broken_import
           sorted_keys_perm "/core/new" "sgtk.util" example_handler
           example_interpreter).
  - reflexivity.
  - done.
  - vm_compute. set_solver.
  - by eexists.
  - vm_compute. set_solver.
  - intros st. by eexists.
Defined.

Lemma find_module_searches_under_core_path_witness :
  find_module source_file (str_join "." (["sgtk"; "util"] ++ ["shotgun"]))
    (example_handler, example_interpreter)
  = match source_file "shotgun"
            (core_path example_handler +:+ "/" +:+
             str_join "/" ["sgtk"; "util"]) (engine example_interpreter) with
    | Some info =>
        (Returns true,
         (set_module_info example_handler
            (Some (<[str_join "." (["sgtk"; "util"] ++ ["shotgun"]) := info]>
                     ∅)), example_interpreter))
    | None => (Returns false, (example_handler, example_interpreter))
    end.
Proof.
  apply (find_module_searches_under_core_path source_file
           ["sgtk"; "util"]%string "shotgun" example_handler
           example_interpreter ∅).
  - repeat constructor.
  - repeat constructor; done.
  - vm_compute. set_solver.
  - done.
  - reflexivity.
  - reflexivity.
Defined.

Lemma foreign_modules_are_left_alone_witness :
  find_module source_file "os" (example_handler, example_interpreter)
  = (Returns false, (example_handler, example_interpreter)) /\
  find_module source_file ("os" +:+ String "." "path")
    (example_handler, example_interpreter)
  = (Returns false, (example_handler, example_interpreter)).
Proof.
  apply (foreign_modules_are_left_alone source_file "os" "path"
           example_handler example_interpreter).
  - reflexivity.
  - cbn. intros H.
    repeat (apply elem_of_cons in H as [H|H]; [discriminate H|]).
    by apply elem_of_nil in H.
Defined.

Definition after_failed_load
  : outcome nat * (CoreImportHandler * interpreter) :=
  load_module failing_load "sgtk.util" (found_handler, example_interpreter).

Lemma load_module_consumes_module_info_witness :
  after_failed_load.1 = Raises (Builtin (RuntimeError "boom")) /\
  (forall file,
     Some 7%nat = Some file ->
     file ∈ closed_files (engine after_failed_load.2.2)) /\
  (forall left_infos,
     _module_info after_failed_load.2.1 = Some left_infos ->
     left_infos !! "sgtk.util"%string = None) /\
  (is_Some (_module_info after_failed_load.2.1) ->
   forall it2 : interpreter,
     load_module failing_load "sgtk.util" (after_failed_load.2.1, it2)
     = (Raises (Builtin (KeyError "sgtk.util")),
        (after_failed_load.2.1, it2))).
Proof.
  split; [vm_compute; reflexivity|].
  refine (load_module_consumes_module_info failing_load "sgtk.util"
            found_handler example_interpreter
            {[ "sgtk.util"%string :=
                 mkInfo (Some 7%nat) "/core/old/sgtk/util.py" (".py", "U", 1) ]}
            (mkInfo (Some 7%nat) "/core/old/sgtk/util.py" (".py", "U", 1))
            _ _
            after_failed_load.1 after_failed_load.2.1 after_failed_load.2.2 _).
  - reflexivity.
  - vm_compute. reflexivity.
  - unfold after_failed_load.
    by destruct (load_module failing_load "sgtk.util"
                   (found_handler, example_interpreter)) as [r [self' it']].
Defined.

End ImporterFacts.

(* ===================================================================== *)
(** * Copying a descriptor and the legacy folder *)
(* ===================================================================== *)

Module Copying.

Import Descriptor.

#[local] Existing Instance M_ret.
#[local] Existing Instance M_bind.

Section Copy.

Variable Manifest : Type.
Variable _get_cache_paths : IODescriptorBase Manifest -> result (list string).
Variable download_local :
  IODescriptorBase Manifest -> gmap string node ->
  result unit * gmap string node.
Variable iteritems : forall V : Type, gmap string V -> list (string * V).
Variable str_of_dict : gmap string string -> string.

(** [filesystem.copy_folder] comes from [...util], which is not part of
    the source tree; its source argument is what [get_path] returned. *)
Variable copy_folder :
  option string -> string -> gmap string node ->
  result unit * gmap string node.

Definition call_copy_folder (src : option string) (target_path : string)
  : M Manifest unit := fun '(self, w) =>
  let '(r, files') := copy_folder src target_path (files w) in
  (r, (self, mkWorld files' (calls w))).

(** [log.debug("Copying %r -> %s" % (self, target_path))] formats the
    instance with [__repr__], which calls [get_uri]. *)
Definition copy (target_path : string) : M Manifest unit :=
  _ ← get_uri iteritems str_of_dict;
  _ ← ensure_local _get_cache_paths download_local iteritems str_of_dict;
  path ← get_path _get_cache_paths;
  call_copy_folder path target_path.

End Copy.

End Copying.

Module CopyingFacts.

Import Descriptor DescriptorFacts Copying.

Section Facts.

Variable Manifest : Type.
Variable _get_cache_paths : IODescriptorBase Manifest -> result (list string).
Variable download_local :
  IODescriptorBase Manifest -> gmap string node ->
  result unit * gmap string node.
Variable iteritems : forall V : Type, gmap string V -> list (string * V).
Variable str_of_dict : gmap string string -> string.
Variable copy_folder :
  option string -> string -> gmap string node ->
  result unit * gmap string node.

(** X29: [copy] on a descriptor that is local.  With a [type] in the
    dictionary it downloads nothing and hands [copy_folder] the first
    candidate path that holds a metadata file; without a [type] it
    fails while it formats its log message, before any existence check
    and before anything is copied, although nothing needed
    downloading. *)
Theorem copy_of_local_descriptor (self : IODescriptorBase Manifest)
    (w : world) (paths : list string) (path target_path : string) :
  _get_cache_paths self = Ok paths ->
  first_local (files w) paths = Some path ->
  copy Manifest _get_cache_paths download_local iteritems str_of_dict
    copy_folder target_path (self, w)
  = match _descriptor_dict self !! "type"%string with
    | Some _ =>
        ((copy_folder (Some path) target_path (files w)).1,
         (self,
          mkWorld (copy_folder (Some path) target_path (files w)).2
            (calls w ++ probes (files w) paths ++ probes (files w) paths)))
    | None =>
        (Raise (TankDescriptorError
                  ("Cannot create uri from " +:+
                   str_of_dict (_descriptor_dict self) +:+
                   " - missing type field")), (self, w))
    end.
Proof.
  intros Hpaths Hlocal. unfold copy, mbind, M_bind.
  unfold get_uri at 1. unfold mbind, M_bind, get_self, lift,
    Uri.uri_from_dict. simpl.
  destruct (_descriptor_dict self !! "type"%string) as [type|]; [|done].
  simpl.
  rewrite (ensure_local_when_local _ _ _ _ _ _ _ _ Hpaths)
    by (rewrite Hlocal; by eexists).
  rewrite (get_path_run _ _ _ _ _ Hpaths). simpl. rewrite Hlocal.
  unfold call_copy_folder. simpl.
  destruct (copy_folder (Some path) target_path (files w)) as [r files'].
  simpl. by rewrite <- app_assoc.
Qed.

End Facts.

Definition example_copy_folder (src : option string) (target_path : string)
    (fs : gmap string node) : result unit * gmap string node :=
  match src with
  | Some path =>
      (Ok tt,
       <[ path_join target_path [BUNDLE_METADATA_FILE] :=
            default Dir (fs !! path_join path [BUNDLE_METADATA_FILE]) ]> fs)
  | None => (Ok tt, fs)
  end.

Lemma copy_of_local_descriptor_witness :
  copy string resolve_cache_paths example_download Uri.sorted_items
    Uri.no_repr example_copy_folder "/backup"
    (example_descriptor None, fallback_world "configuration: {}")
  = ((example_copy_folder (Some "/F1/app/foo/v1.0.0"%string) "/backup"
        (files (fallback_world "configuration: {}"))).1,
     (example_descriptor None,
      mkWorld
        (example_copy_folder (Some "/F1/app/foo/v1.0.0"%string) "/backup"
           (files (fallback_world "configuration: {}"))).2
        (calls (fallback_world "configuration: {}") ++
         probes (files (fallback_world "configuration: {}")) example_candidates
         ++
         probes (files (fallback_world "configuration: {}"))
           example_candidates))).
Proof.
  apply (copy_of_local_descriptor string resolve_cache_paths example_download
           Uri.sorted_items Uri.no_repr example_copy_folder
           (example_descriptor None) (fallback_world "configuration: {}")
           example_candidates "/F1/app/foo/v1.0.0" "/backup");
    vm_compute; reflexivity.
Defined.

(** ** The legacy folder *)

(** X30: for a cache root that is not empty and does not end in a
    slash, and a descriptor name, bundle name and version that are not
    empty and neither start nor end with a slash, the legacy folder of
    an app, engine or framework is
    [<root>/<apps|engines|frameworks>/<descriptor>/<name>/<version>];
    any other bundle type raises [RuntimeError]. *)
Theorem legacy_folder_layout
    (descriptor_name root bundle_type bundle_name bundle_version : string) :
  root <> EmptyString ->
  endswith "/" root = false ->
  Forall ImporterFacts.plain [descriptor_name; bundle_name; bundle_version] ->
  (forall legacy_dir,
     (bundle_type, legacy_dir)
       ∈ [(APP, "apps"); (ENGINE, "engines"); (FRAMEWORK, "frameworks")]%string ->
     _get_legacy_bundle_install_folder descriptor_name root bundle_type
       bundle_name bundle_version
     = Ok (str_join "/" [root; legacy_dir; descriptor_name; bundle_name;
                         bundle_version])) /\
  (bundle_type ∉ [APP; ENGINE; FRAMEWORK] ->
   _get_legacy_bundle_install_folder descriptor_name root bundle_type
     bundle_name bundle_version
   = Raise (RuntimeError
              ("Unknown bundle type '" +:+ bundle_type +:+
               "'. Can not determine legacy cache path."))).
Proof.
  intros Hroot Hend Hplain. split.
  - intros legacy_dir Hin.
    assert (_get_legacy_bundle_install_folder descriptor_name root bundle_type
              bundle_name bundle_version
            = Ok (path_join root [legacy_dir; descriptor_name; bundle_name;
                                  bundle_version])) as ->.
    { repeat (apply elem_of_cons in Hin as [[= -> ->]|Hin]; [reflexivity|]).
      by apply elem_of_nil in Hin. }
    f_equal. apply ImporterFacts.path_join_plain; [done..|].
    apply Forall_cons. split; [|exact Hplain].
    repeat (apply elem_of_cons in Hin as [[= _ ->]|Hin]; [done|]).
    by apply elem_of_nil in Hin.
  - intros Hother. unfold _get_legacy_bundle_install_folder.
    destruct (String.eqb_spec bundle_type APP) as [->|_].
    { destruct Hother. left. }
    destruct (String.eqb_spec bundle_type ENGINE) as [->|_].
    { destruct Hother. right. left. }
    destruct (String.eqb_spec bundle_type FRAMEWORK) as [->|_]; [|done].
    destruct Hother. right. right. left.
Qed.

Lemma legacy_folder_layout_witness :
  (forall legacy_dir,
     ("app"%string, legacy_dir)
       ∈ [(APP, "apps"); (ENGINE, "engines"); (FRAMEWORK, "frameworks")]%string ->
     _get_legacy_bundle_install_folder "app_store" "/root" "app"
       "tk-multi-shotgunpanel" "v1.2.5"
     = Ok (str_join "/" ["/root"; legacy_dir; "app_store";
                         "tk-multi-shotgunpanel"; "v1.2.5"]%string)) /\
  ("app"%string ∉ [APP; ENGINE; FRAMEWORK] ->
   _get_legacy_bundle_install_folder "app_store" "/root" "app"
     "tk-multi-shotgunpanel" "v1.2.5"
   = Raise (RuntimeError
              ("Unknown bundle type '" +:+ "app" +:+
               "'. Can not determine legacy cache path."))).
Proof.
  apply (legacy_folder_layout "app_store" "/root" "app"
           "tk-multi-shotgunpanel" "v1.2.5").
  - done.
  - reflexivity.
  - repeat constructor; done.
Defined.

End CopyingFacts.
